(** * Node resource store (store/etcd/node.go)

    A shallow embedding of the etcd-backed node repository: [GetNode],
    [AddNode], [GetAllNodes], [GetNodesByPod], [UpdateNode],
    [UpdateNodeCPU], the engine client cache ([makeDockerClient],
    [makeRawClient]) and the TLS material dump ([dumpFromEtcd]).

    The Go code talks to the outside: the etcd key space and the locks
    built on it, the local file system, the container engines.  These are
    gathered in one record, [World], which every operation threads
    explicitly; a Go function returning [(T, error)] becomes a computation
    [M T] that, from a world, yields a [result] and the world it leaves
    behind.  The last part of the file lets several callers of
    [UpdateNodeCPU] take turns on one shared world. *)

From Stdlib Require Import ZArith Ascii String.
From stdpp Require Import base option list gmap strings pretty fin_maps.

(** ** Errors *)

(** One constructor per place where the Go code can obtain a non-nil
    [error]; [fmt.Errorf] messages keep the value they interpolate. *)
Inductive error : Type :=
  | ErrKeyNotFound (key : string)        (* etcd: key does not exist *)
  | ErrEtcdRequest (key : string)        (* etcd: the request itself failed *)
  | ErrNotAFile (key : string)           (* etcd: write on a directory *)
  | ErrNotADir (key : string)            (* etcd: write below a leaf *)
  | ErrIsDirectory (key : string)        (* "Node storage path %q in etcd is a directory" *)
  | ErrIsNotDirectory (key : string)     (* "Node storage path %q in etcd is not a directory" *)
  | ErrUnmarshal                         (* json.Unmarshal *)
  | ErrMarshal                           (* json.Marshal *)
  | ErrEndpointScheme (endpoint : string)(* "Endpoint must starts with tcp:// %q" *)
  | ErrURLParse (endpoint : string)      (* url.Parse *)
  | ErrSplitHostPort (hostport : string) (* net.SplitHostPort *)
  | ErrMkdirAll (path : string)          (* os.MkdirAll *)
  | ErrSaveFile (path : string)          (* utils.SaveFile *)
  | ErrTLSConfig (certpath : string)     (* tlsconfig.Client *)
  | ErrNewClient (endpoint : string)     (* engineapi.NewClient *)
  | ErrEngineInfo (endpoint : string)    (* client.Info: engine down or probe timed out *)
  | ErrCreateLock (name : string)        (* k.CreateLock *)
  | ErrLockHeld (name : string)          (* lock.Lock: the name is held by someone else *)
  | ErrLockRequest (name : string).      (* lock.Lock: the request itself failed *)

Inductive result (A : Type) : Type :=
  | Ok (a : A)
  | Err (e : error).
Arguments Ok {A} a.
Arguments Err {A} e.

(** Modelled from the spec: the error taxonomy of the design (section 7),
    which the Go code does not declare (its errors are plain [error]
    values).  [StoreFailure] collects the failures of the key-value store
    the taxonomy does not name. *)
Inductive ErrorKind : Type :=
  | NotFound | Corrupt | Unreachable | LockContention | ValidationError
  | PartialMaterial | StoreFailure.

Definition kind_of (e : error) : ErrorKind :=
  match e with
  | ErrKeyNotFound _ => NotFound
  | ErrEtcdRequest _ | ErrNotAFile _ | ErrNotADir _ | ErrMarshal => StoreFailure
  | ErrIsDirectory _ | ErrIsNotDirectory _ | ErrUnmarshal => Corrupt
  | ErrEndpointScheme _ | ErrURLParse _ | ErrSplitHostPort _ => ValidationError
  | ErrMkdirAll _ | ErrSaveFile _ => PartialMaterial
  | ErrTLSConfig _ | ErrNewClient _ | ErrEngineInfo _ => Unreachable
  | ErrCreateLock _ | ErrLockHeld _ | ErrLockRequest _ => LockContention
  end.

(** ** Data model *)

(** Modelled from the spec: [types.CPUMap] is declared outside node.go;
    "a mapping from core-label (string) to an integer share count"
    (section 3).  A map that a document does not carry is the empty map. *)
Abbreviation CPUMap := (gmap string Z).

(** Modelled from the spec: [CPUMap.Add] is not part of node.go.  "For
    each label in other, increase this map's value by other's value
    (creating the label if absent)": the Go loop
    [for label, value := range q { c[label] += value }]. *)
Definition CPUMap_Add (c q : CPUMap) : CPUMap :=
  map_fold (λ label value acc, <[label := (default 0 (acc !! label) + value)%Z]> acc) c q.

(** Modelled from the spec: [CPUMap.Sub] is not part of node.go.  "For
    each label in other, decrease this map's value by other's value":
    the Go loop [for label, value := range q { c[label] -= value }];
    nothing clamps the difference. *)
Definition CPUMap_Sub (c q : CPUMap) : CPUMap :=
  map_fold (λ label value acc, <[label := (default 0 (acc !! label) - value)%Z]> acc) c q.

(** [*engineapi.Client]: what [engineapi.NewClient] was given. *)
Record Client : Type := mkClient {
  cli_endpoint : string;
  cli_certpath : string;     (* "" when the client speaks plain TCP *)
  cli_apiversion : string
}.

Global Instance Client_eq_dec : EqDecision Client.
Proof. solve_decision. Defined.

(** Modelled from the spec: [types.Node] is declared outside node.go;
    the fields are those of section 3 that node.go and the RPC converters
    read.  [Engine] is "never serialized"; a nil pointer is [None].  A
    field that a struct literal leaves out has Go's zero value: the empty
    string, [false], 0, the empty map, [None]. *)
Record Node : Type := mkNode {
  Name : string;
  Endpoint : string;
  Podname : string;
  Public : bool;
  CPU : CPUMap;
  InitCPU : CPUMap;
  MemCap : Z;
  InitMemCap : Z;
  Engine : option Client
}.

Definition set_CPU (cpu : CPUMap) (n : Node) : Node :=
  mkNode (Name n) (Endpoint n) (Podname n) (Public n) cpu (InitCPU n)
         (MemCap n) (InitMemCap n) (Engine n).

Definition set_Engine (e : option Client) (n : Node) : Node :=
  mkNode (Name n) (Endpoint n) (Podname n) (Public n) (CPU n) (InitCPU n)
         (MemCap n) (InitMemCap n) e.

(** Modelled from the spec: [types.Pod] is declared outside node.go; a
    pod is "referenced by name only". *)
Record Pod : Type := mkPod { pod_Name : string; pod_Desc : string }.

(** [encoding/json] on [types.Node] is taken as given: an encoder and a
    decoder, with no law assumed between them. *)
Class JSON : Type := {
  json_encode : Node → option string;
  json_decode : string → option Node
}.

(** [k.config.Docker]. *)
Record krypton : Type := mkKrypton {
  Docker_CertPath : string;
  Docker_APIVersion : string
}.

(** ** The outside world *)

(** A node of the answer to an etcd [Get]: [resp.Node.Dir],
    [resp.Node.Value] and the keys of [resp.Node.Nodes]. *)
Inductive EtcdNode : Type :=
  | File (value : string)
  | Directory (children : list string).

Definition Dir (n : EtcdNode) : bool :=
  match n with File _ => false | Directory _ => true end.
Definition Value (n : EtcdNode) : string :=
  match n with File v => v | Directory _ => "" end.
Definition Nodes (n : EtcdNode) : list string :=
  match n with File _ => [] | Directory l => l end.

Inductive FsEntry : Type :=
  | FsDir
  | FsFile (content : string) (perm : Z).

Inductive Event : Type :=
  | EvGet (key : string)
  | EvSet (key value : string)
  | EvLock (name : string) (ttl : Z)
  | EvUnlock (name : string)
  | EvStat (path : string)
  | EvMkdirAll (path : string)
  | EvSaveFile (path : string)
  | EvNewClient (c : Client)
  | EvInfo (c : Client) (timeout : option Z) (ok : bool).

(** - [kv]: the leaves of the etcd key space, full key to value;
      directories are the proper prefixes of the leaves' keys;
    - [locks]: the names of the distributed locks currently held;
    - [fs]: the local file system, path to entry;
    - [cache]: the package variable [_cache.clients], host to client;
    - [engines]: the engines that answer, endpoint to reported core count;
    - [faults]: what the next calls to the outside suffer ([true]: the
      call fails); an exhausted list means no failure;
    - [trace]: the calls made so far, most recent first. *)
Record World : Type := mkWorld {
  kv : gmap string string;
  locks : gset string;
  fs : gmap string FsEntry;
  cache : gmap string Client;
  engines : gmap string Z;
  faults : list bool;
  trace : list Event
}.

Definition set_kv (x : gmap string string) (w : World) : World :=
  mkWorld x (locks w) (fs w) (cache w) (engines w) (faults w) (trace w).
Definition set_locks (x : gset string) (w : World) : World :=
  mkWorld (kv w) x (fs w) (cache w) (engines w) (faults w) (trace w).
Definition set_fs (x : gmap string FsEntry) (w : World) : World :=
  mkWorld (kv w) (locks w) x (cache w) (engines w) (faults w) (trace w).
Definition set_cache (x : gmap string Client) (w : World) : World :=
  mkWorld (kv w) (locks w) (fs w) x (engines w) (faults w) (trace w).
Definition set_faults (x : list bool) (w : World) : World :=
  mkWorld (kv w) (locks w) (fs w) (cache w) (engines w) x (trace w).
Definition set_trace (x : list Event) (w : World) : World :=
  mkWorld (kv w) (locks w) (fs w) (cache w) (engines w) (faults w) x.

(** ** Computations *)

Definition M (A : Type) : Type := World → result A * World.

Definition ret {A} (a : A) : M A := λ w, (Ok a, w).
Definition fail {A} (e : error) : M A := λ w, (Err e, w).
Definition bind {A B} (m : M A) (f : A → M B) : M B :=
  λ w, match m w with
       | (Ok a, w') => f a w'
       | (Err e, w') => (Err e, w')
       end.

Notation "'let*' x := m 'in' k" := (bind m (λ x, k))
  (at level 10, x name, m at level 100, k at level 200,
   format "'[v' 'let*'  x  :=  m  'in' '/' k ']'").

(** [defer d; body]: [d] runs when [body] returns, whatever it returns. *)
Definition defer {A B} (d : M B) (body : M A) : M A :=
  λ w, let (r, w1) := body w in (r, (d w1).2).

(** A result that needs nothing of the world. *)
Definition of_result {A} (r : result A) : M A := λ w, (r, w).

Definition log (ev : Event) : M unit :=
  λ w, (Ok tt, set_trace (ev :: trace w) w).

(** The next entry of [faults] decides whether a call to the outside
    fails with [e]. *)
Definition outside (e : error) : M unit :=
  λ w, match faults w with
       | [] => (Ok tt, w)
       | false :: fl => (Ok tt, set_faults fl w)
       | true :: fl => (Err e, set_faults fl w)
       end.

(** Every result of [m] is related to the world [m] started from. *)
Definition frame {A} (R : relation World) (m : M A) : Prop :=
  ∀ w r w', m w = (r, w') → R w w'.

(** The engines are not the store's to change. *)
Definition same_engines : relation World := λ w w', engines w' = engines w.

(** The local files are as they were. *)
Definition same_fs : relation World := λ w w', fs w' = fs w.

(** ** Strings and keys *)

(** The key formats are constants of the package declared outside
    node.go; each is given as the function [fmt.Sprintf] makes of it. *)

(** Modelled from the spec: the node document is at
    [.../pod/{pod}/node/{node}/info] (section 6); the comments of node.go
    spell the path [/eru-core/pod/:podname/node/:nodename/info]. *)
Definition nodeInfoKey (podname nodename : string) : string :=
  "/eru-core/pod/" +:+ podname +:+ "/node/" +:+ nodename +:+ "/info".

(** Modelled from the spec: "TLS CA/cert/key at sibling keys under the
    same node prefix" (section 6); this one holds the CA. *)
Definition nodeCaKey (podname nodename : string) : string :=
  "/eru-core/pod/" +:+ podname +:+ "/node/" +:+ nodename +:+ "/ca.pem".

(** Modelled from the spec: the sibling key of the certificate. *)
Definition nodeCertKey (podname nodename : string) : string :=
  "/eru-core/pod/" +:+ podname +:+ "/node/" +:+ nodename +:+ "/cert.pem".

(** Modelled from the spec: the sibling key of the private key. *)
Definition nodeKeyKey (podname nodename : string) : string :=
  "/eru-core/pod/" +:+ podname +:+ "/node/" +:+ nodename +:+ "/key.pem".

(** Modelled from the spec: "the directory of node keys under the pod";
    the comments of node.go spell the path [/eru-core/pod/:podname/node]. *)
Definition podNodesKey (podname : string) : string :=
  "/eru-core/pod/" +:+ podname +:+ "/node".

(** Modelled from the spec: the record of a pod, beside its [node]
    directory. *)
Definition podInfoKey (podname : string) : string :=
  "/eru-core/pod/" +:+ podname +:+ "/info".

(** Modelled from the spec: the directory of all pods. *)
Definition allPodsKey : string := "/eru-core/pod".

(** [fmt.Sprintf("%s_%s", podname, nodename)]. *)
Definition lockName (podname nodename : string) : string :=
  podname +:+ "_" +:+ nodename.

(** [strings.HasPrefix(s, p)]. *)
Definition HasPrefix (s p : string) : bool := String.prefix p s.

(** [filepath.Join] of two clean, non-empty elements. *)
Definition filepath_Join (dir name : string) : string := dir +:+ "/" +:+ name.

Fixpoint Tail_from (acc s : string) : string :=
  match s with
  | EmptyString => acc
  | String c s' =>
      if Ascii.eqb c "/"%char then Tail_from "" s'
      else Tail_from (acc +:+ String c "") s'
  end.

(** Modelled from the spec: [utils.Tail] is not part of node.go; the name
    of a node is the last component of its key (section 6), what follows
    the last slash. *)
Definition Tail (path : string) : string := Tail_from "" path.

(** [url.Parse] and [net.SplitHostPort] belong to Go's standard library,
    not to the repository: the store is verified for whatever they compute.
    [url_Parse endpoint] is [u.Host] when [url.Parse(endpoint)] returns
    [u] and no error, and [net_SplitHostPort hostport] is the host when
    [net.SplitHostPort(hostport)] returns no error. *)
Class Net : Type := {
  url_Parse : string → option string;
  net_SplitHostPort : string → option string
}.

(** [u, err := url.Parse(endpoint)], as far as [u.Host] goes. *)
Definition url_Host `{net : Net} (endpoint : string) : result string :=
  match url_Parse endpoint with
  | Some host => Ok host
  | None => Err (ErrURLParse endpoint)
  end.

(** [host, _, err := net.SplitHostPort(hostport)]. *)
Definition SplitHostPort `{net : Net} (hostport : string) : result string :=
  match net_SplitHostPort hostport with
  | Some host => Ok host
  | None => Err (ErrSplitHostPort hostport)
  end.

(** ** etcd *)

(** [key] lies strictly below [dir]. *)
Definition under (dir key : string) : bool := String.prefix (dir +:+ "/") key.

(** The child of [dir] on the path to [key]. *)
Definition child_of (dir key : string) : string :=
  let start := String.length dir + 1 in
  let rest := String.substring start (String.length key - start) key in
  match String.index 0 "/" rest with
  | Some i => dir +:+ "/" +:+ String.substring 0 i rest
  | None => key
  end.

Definition children (store : gmap string string) (dir : string) : list string :=
  remove_dups (child_of dir <$> filter (λ k, under dir k = true) (map_to_list store).*1).

(** Some leaf sits on the path to [key]. *)
Definition below_leaf (store : gmap string string) (key : string) : bool :=
  existsb (λ k, under k key) (map_to_list store).*1.

(** What the key space holds at [key]: a leaf, a directory (a key with
    leaves below it) or nothing. *)
Definition etcd_lookup (store : gmap string string) (key : string) : option EtcdNode :=
  match store !! key with
  | Some v => Some (File v)
  | None =>
      match children store key with
      | [] => None
      | l => Some (Directory l)
      end
  end.

(** [k.etcd.Get(context.Background(), key, nil)]. *)
Definition etcd_Get (key : string) : M EtcdNode :=
  let* _ := log (EvGet key) in
  let* _ := outside (ErrEtcdRequest key) in
  λ w, match etcd_lookup (kv w) key with
       | Some n => (Ok n, w)
       | None => (Err (ErrKeyNotFound key), w)
       end.

(** [k.etcd.Set(context.Background(), key, value, nil)]: etcd refuses to
    overwrite a directory and to descend below a leaf. *)
Definition etcd_Set (key value : string) : M unit :=
  let* _ := log (EvSet key value) in
  let* _ := outside (ErrEtcdRequest key) in
  λ w, match kv w !! key, children (kv w) key with
       | None, _ :: _ => (Err (ErrNotAFile key), w)
       | _, _ =>
           if below_leaf (kv w) key then (Err (ErrNotADir key), w)
           else (Ok tt, set_kv (<[key := value]> (kv w)) w)
       end.

(** Modelled from the spec: [k.GetPod] is not part of node.go; it
    "returns an existing pod or an error".  The pod's record lives at
    [podInfoKey]. *)
Definition GetPod (podname : string) : M Pod :=
  let* resp := etcd_Get (podInfoKey podname) in
  if Dir resp then fail (ErrIsDirectory (podInfoKey podname))
  else ret (mkPod podname (Value resp)).

(** Modelled from the spec: [k.GetAllPods] is not part of node.go; the
    pods are the children of [allPodsKey]. *)
Definition GetAllPods : M (list Pod) :=
  let* resp := etcd_Get allPodsKey in
  if negb (Dir resp) then fail (ErrIsNotDirectory allPodsKey)
  else ret ((λ key, mkPod (Tail key) "") <$> Nodes resp).

(** ** The distributed lock *)

Record Lock : Type := mkLock { lock_name : string; lock_ttl : Z }.

(** Modelled from the spec: [k.CreateLock(name, ttl)] is not part of
    node.go; it builds the handle of the lock called [name]. *)
Definition CreateLock (name : string) (ttl : Z) : M Lock :=
  let* _ := outside (ErrCreateLock name) in
  ret (mkLock name ttl).

(** Modelled from the spec: [lock.Lock()] acquires the name for this
    caller ("mutual exclusion scoped to the given name"); inside one
    call, which no other caller and no clock interrupts, a held name
    cannot become free, so the acquisition fails.  The expiry after [ttl]
    seconds is [Lock_expire] below: a step of the clock, taken between the
    steps of the callers. *)
Definition Lock_Lock (l : Lock) : M unit :=
  let* _ := log (EvLock (lock_name l) (lock_ttl l)) in
  let* _ := outside (ErrLockRequest (lock_name l)) in
  λ w, if decide (lock_name l ∈ locks w) then (Err (ErrLockHeld (lock_name l)), w)
       else (Ok tt, set_locks ({[lock_name l]} ∪ locks w) w).

(** Modelled from the spec: [lock.Unlock()], "idempotent". *)
Definition Lock_Unlock (l : Lock) : M unit :=
  let* _ := log (EvUnlock (lock_name l)) in
  λ w, (Ok tt, set_locks (locks w ∖ {[lock_name l]}) w).

(** Modelled from the spec: "the lock automatically expires after
    ttlSeconds if not released".  The name becomes free; the caller that
    took it, if it is still at work, is not told.  The world has no clock:
    when the [ttl] seconds are over is for the run to say. *)
Definition Lock_expire (name : string) (w : World) : World :=
  set_locks (locks w ∖ {[name]}) w.

(** ** File system *)

Definition is_file (files : gmap string FsEntry) (path : string) : bool :=
  match files !! path with Some (FsFile _ _) => true | _ => false end.

Fixpoint parents_from (acc s : string) : list string :=
  match s with
  | EmptyString => []
  | String c s' =>
      let rest := parents_from (acc +:+ String c "") s' in
      if Ascii.eqb c "/"%char && negb (String.eqb acc "") then acc :: rest else rest
  end.

(** The directories above a clean [path], from the top: what precedes
    each of its slashes; the root is left out, it is always there. *)
Definition parents (path : string) : list string := parents_from "" path.

(** [_, err = os.Stat(path)] followed by [os.IsNotExist(err)]: a path
    below a regular file gives [ENOTDIR], which is not "does not
    exist". *)
Definition os_Stat_IsNotExist (path : string) : M bool :=
  let* _ := log (EvStat path) in
  λ w, (Ok (bool_decide (fs w !! path = None)
            && negb (existsb (is_file (fs w)) (parents path))), w).

Definition mkdirs (dirs : list string) (files : gmap string FsEntry) :
    gmap string FsEntry :=
  foldr (λ dir acc, <[dir := FsDir]> acc) files dirs.

(** [os.MkdirAll(path, perm)]: [path] and the directories above it are
    there afterwards; it fails, and creates nothing, when [path] or one of
    them is a regular file. *)
Definition os_MkdirAll (path : string) (perm : Z) : M unit :=
  let* _ := log (EvMkdirAll path) in
  let* _ := outside (ErrMkdirAll path) in
  λ w, if existsb (is_file (fs w)) (parents path ++ [path])
       then (Err (ErrMkdirAll path), w)
       else (Ok tt, set_fs (mkdirs (parents path ++ [path]) (fs w)) w).

(** Modelled from the spec: [utils.SaveFile(content, path, perm)] is not
    part of node.go; it "writes it to a fixed filename in the destination
    directory with restrictive permissions". *)
Definition utils_SaveFile (content path : string) (perm : Z) : M unit :=
  let* _ := log (EvSaveFile path) in
  let* _ := outside (ErrSaveFile path) in
  λ w, (Ok tt, set_fs (<[path := FsFile content perm]> (fs w)) w).

(** [tlsconfig.Client(options)] loads the three files it is pointed at. *)
Definition tlsconfig_Client (certpath : string) : M unit :=
  let* _ := outside (ErrTLSConfig certpath) in
  λ w, if is_file (fs w) (filepath_Join certpath "ca.pem")
          && is_file (fs w) (filepath_Join certpath "cert.pem")
          && is_file (fs w) (filepath_Join certpath "key.pem")
       then (Ok tt, w) else (Err (ErrTLSConfig certpath), w).

(** ** Engines *)

(** [types.Info], the answer of the engine, as far as node.go reads it. *)
Record Info : Type := mkInfo { NCPU : Z }.

(** [engineapi.NewClient(endpoint, apiversion, cli, nil)]; [cli] is the
    TLS transport over [certpath], nil when [certpath] is empty. *)
Definition engineapi_NewClient (endpoint certpath apiversion : string) : M Client :=
  let* _ := log (EvNewClient (mkClient endpoint certpath apiversion)) in
  let* _ := outside (ErrNewClient endpoint) in
  ret (mkClient endpoint certpath apiversion).

(** [client.Info(ctx)]; [timeout] is the deadline of [ctx] in seconds,
    [None] for [context.Background()]. *)
Definition client_Info (c : Client) (timeout : option Z) : M Info :=
  λ w, let (r, w1) := outside (ErrEngineInfo (cli_endpoint c)) w in
       match r, engines w1 !! cli_endpoint c with
       | Ok _, Some n => (Ok (mkInfo n), set_trace (EvInfo c timeout true :: trace w1) w1)
       | _, _ => (Err (ErrEngineInfo (cli_endpoint c)),
                  set_trace (EvInfo c timeout false :: trace w1) w1)
       end.

(** [_cache.get(host)] and [_cache.set(host, client)]. *)
Definition cache_get (host : string) : M (option Client) :=
  λ w, (Ok (cache w !! host), w).
Definition cache_set (host : string) (client : Client) : M unit :=
  λ w, (Ok tt, set_cache (<[host := client]> (cache w)) w).

(** ** node.go *)

Fixpoint forM_ {A} (f : A → M unit) (l : list A) : M unit :=
  match l with
  | [] => ret tt
  | x :: l' => let* _ := f x in forM_ f l'
  end.

Section Store.
Context `{codec : JSON} `{net : Net}.

(** [json.Unmarshal([]byte(value), node)] into a fresh [&types.Node{}]:
    [Engine] is never read from the document. *)
Definition json_Unmarshal (value : string) : result Node :=
  match json_decode value with
  | Some node => Ok (set_Engine None node)
  | None => Err ErrUnmarshal
  end.

(** [json.Marshal(node)]: [Engine] is never written to the document. *)
Definition json_Marshal (node : Node) : result string :=
  match json_encode (set_Engine None node) with
  | Some bytes => Ok bytes
  | None => Err ErrMarshal
  end.

Definition filenames : list string := ["ca.pem"; "cert.pem"; "key.pem"].
Definition keyFormats : list (string → string → string) :=
  [nodeCaKey; nodeCertKey; nodeKeyKey].

(** dump certificated files from etcd to local file system *)
Definition dumpFromEtcd (k : krypton) (podname nodename certprefix : string) : M unit :=
  let* _ := os_MkdirAll certprefix 493 (* 0755 *) in
  forM_ (λ fk : string * (string → string → string),
           let* resp := etcd_Get (fk.2 podname nodename) in
           utils_SaveFile (Value resp) (filepath_Join certprefix fk.1) 292 (* 0444 *))
        (zip filenames keyFormats).

(** use endpoint, cert files path, and api version to create docker
    client; we don't check whether this is connectable *)
Definition makeRawClient (endpoint certpath apiversion : string) : M Client :=
  let* _ := (if String.eqb certpath "" then ret tt
             else tlsconfig_Client certpath) in
  engineapi_NewClient endpoint certpath apiversion.

Definition makeDockerClient (k : krypton)
    (podname nodename endpoint : string) (force : bool) : M Client :=
  let* uhost := of_result (url_Host endpoint) in
  let* host := of_result (SplitHostPort uhost) in
  let* cached := cache_get host in
  let* client :=
    match cached, force with
    | Some c, false => ret c
    | _, _ =>
        let* dockerCertPath :=
          (if String.eqb (Docker_CertPath k) "" then ret ""
           else
             let dockerCertPath := filepath_Join (Docker_CertPath k) host in
             let* missing := os_Stat_IsNotExist dockerCertPath in
             let* _ := (if missing
                        then dumpFromEtcd k podname nodename dockerCertPath
                        else ret tt) in
             ret dockerCertPath) in
        let* c := makeRawClient endpoint dockerCertPath (Docker_APIVersion k) in
        let* _ := cache_set host c in
        ret c
    end in
  (* timeout in 5 seconds; timeout means node is not available *)
  let* _ := client_Info client (Some 5%Z) in
  ret client.

(** get a node from etcd and construct it's docker client *)
Definition GetNode (k : krypton) (podname nodename : string) : M Node :=
  let key := nodeInfoKey podname nodename in
  let* resp := etcd_Get key in
  if Dir resp then fail (ErrIsDirectory key)
  else
    let* node := of_result (json_Unmarshal (Value resp)) in
    let* engine := makeDockerClient k podname nodename (Endpoint node) false in
    ret (set_Engine (Some engine) node).

(** [cpumap[strconv.Itoa(i)] = 10] for [i] from 0 below [ncpu]. *)
Definition initial_cpumap (ncpu : Z) : CPUMap :=
  foldl (λ cpumap i, <[pretty i := 10%Z]> cpumap) ∅ (seqZ 0 ncpu).

(** add a node, save it to etcd *)
Definition AddNode (k : krypton)
    (name endpoint podname cafile certfile keyfile : string) (public : bool) : M Node :=
  if negb (HasPrefix endpoint "tcp://") then fail (ErrEndpointScheme endpoint)
  else
    let* _ := GetPod podname in
    let* _ := (if negb (String.eqb cafile "") && negb (String.eqb certfile "")
                  && negb (String.eqb keyfile "")
               then
                 let* _ := etcd_Set (nodeCaKey podname name) cafile in
                 let* _ := etcd_Set (nodeCertKey podname name) certfile in
                 etcd_Set (nodeKeyKey podname name) keyfile
               else ret tt) in
    let* engine := makeDockerClient k podname name endpoint false in
    let* info := client_Info engine None in
    let cpumap := initial_cpumap (NCPU info) in
    let key := nodeInfoKey podname name in
    let node := mkNode name endpoint podname public cpumap ∅ 0 0 (Some engine) in
    let* bytes := of_result (json_Marshal node) in
    let* _ := etcd_Set key bytes in
    ret node.

(** A Go function returning a slice together with an error. *)
Definition Listing : Type := World → (list Node * option error) * World.

Fixpoint GetNodesByPod_range (k : krypton) (podname : string)
    (keys : list string) (nodes : list Node) : Listing :=
  λ w, match keys with
       | [] => ((nodes, None), w)
       | key :: rest =>
           let nodename := Tail key in
           match GetNode k podname nodename w with
           | (Err e, w') => ((nodes, Some e), w')
           | (Ok n, w') => GetNodesByPod_range k podname rest (nodes ++ [n]) w'
           end
       end.

(** get all nodes bound to pod *)
Definition GetNodesByPod (k : krypton) (podname : string) : Listing :=
  λ w, let key := podNodesKey podname in
       match etcd_Get key w with
       | (Err e, w') => (([], Some e), w')
       | (Ok resp, w') =>
           if negb (Dir resp) then (([], Some (ErrIsNotDirectory key)), w')
           else GetNodesByPod_range k podname (Nodes resp) [] w'
       end.

Fixpoint GetAllNodes_range (k : krypton)
    (pods : list Pod) (nodes : list Node) : Listing :=
  λ w, match pods with
       | [] => ((nodes, None), w)
       | pod :: rest =>
           match GetNodesByPod k (pod_Name pod) w with
           | ((_, Some e), w') => ((nodes, Some e), w')
           | ((ns, None), w') => GetAllNodes_range k rest (nodes ++ ns) w'
           end
       end.

(** get all nodes from etcd; any error will break and return
    immediately *)
Definition GetAllNodes (k : krypton) : Listing :=
  λ w, match GetAllPods w with
       | (Err e, w') => (([], Some e), w')
       | (Ok pods, w') => GetAllNodes_range k pods [] w'
       end.

(** update a node, save it to etcd *)
Definition UpdateNode (k : krypton) (node : Node) : M unit :=
  let key := nodeInfoKey (Podname node) (Name node) in
  let* bytes := of_result (json_Marshal node) in
  etcd_Set key bytes.

(** The branch on [action] in [UpdateNodeCPU]. *)
Definition apply_action (action : string) (cpu : CPUMap) (node : Node) : Node :=
  if String.eqb action "add" || String.eqb action "+"
  then set_CPU (CPUMap_Add (CPU node) cpu) node
  else if String.eqb action "sub" || String.eqb action "-"
  then set_CPU (CPUMap_Sub (CPU node) cpu) node
  else node.

(** The part of [UpdateNodeCPU] between the read and the write: the
    bytes to store in place of [value]. *)
Definition updated_document (cpu : CPUMap) (action value : string) : result string :=
  match json_Unmarshal value with
  | Ok node => json_Marshal (apply_action action cpu node)
  | Err e => Err e
  end.

(** update cpu on a node, either add or substract; need to lock *)
Definition UpdateNodeCPU (k : krypton)
    (podname nodename : string) (cpu : CPUMap) (action : string) : M unit :=
  let* lock := CreateLock (lockName podname nodename) 30 in
  let* _ := Lock_Lock lock in
  defer (Lock_Unlock lock)
    (let nodeKey := nodeInfoKey podname nodename in
     let* resp := etcd_Get nodeKey in
     if Dir resp then fail (ErrIsDirectory nodeKey)
     else
       let* bytes := of_result (updated_document cpu action (Value resp)) in
       let* _ := etcd_Set nodeKey bytes in
       ret tt).

(** The nodes [GetNode] returns for the names of [keys], asked for one
    after the other from [w]; every one of them succeeds. *)
Inductive fetched (k : krypton) (podname : string) :
    list string → World → list Node → World → Prop :=
  | fetched_nil w : fetched k podname [] w [] w
  | fetched_cons key keys w n w1 ns w2 :
      GetNode k podname (Tail key) w = (Ok n, w1) →
      fetched k podname keys w1 ns w2 →
      fetched k podname (key :: keys) w (n :: ns) w2.

(** The nodes [GetNodesByPod] returns for [pods], asked for one after
    the other from [w]; every listing succeeds. *)
Inductive listed (k : krypton) :
    list Pod → World → list Node → World → Prop :=
  | listed_nil w : listed k [] w [] w
  | listed_cons pod pods w ns w1 nss w2 :
      GetNodesByPod k (pod_Name pod) w = ((ns, None), w1) →
      listed k pods w1 nss w2 →
      listed k (pod :: pods) w (ns ++ nss) w2.

End Store.


(** ** Concurrent callers of [UpdateNodeCPU] *)

(** One call [UpdateNodeCPU(podname, nodename, cpu, action)]. *)
Record Call : Type := mkCall { call_cpu : CPUMap; call_action : string }.

(** Where a caller stands inside [UpdateNodeCPU]: one constructor per
    stretch of the function between two calls to the outside. *)
Inductive Thread : Type :=
  | AtStart                                   (* before k.CreateLock *)
  | Created (l : Lock)                        (* before lock.Lock() *)
  | Holding (l : Lock)                        (* lock held, before etcd.Get *)
  | Writing (l : Lock) (bytes : string)       (* document computed, before etcd.Set *)
  | Releasing (l : Lock) (r : result unit)    (* body left, deferred Unlock pending *)
  | Returned (r : result unit).

Section Concurrent.
Context `{codec : JSON}.
Variables (podname nodename : string).

(** The body of [UpdateNodeCPU] up to the bytes it is about to store. *)
Definition read_phase (c : Call) : M string :=
  let nodeKey := nodeInfoKey podname nodename in
  let* resp := etcd_Get nodeKey in
  if Dir resp then fail (ErrIsDirectory nodeKey)
  else of_result (updated_document (call_cpu c) (call_action c) (Value resp)).

(** One caller advances by one call to the outside.  A caller whose
    [lock.Lock()] finds the name taken either is not scheduled (it
    blocks) or takes the step and returns the error. *)
Definition thread_step (c : Call) (t : Thread) (w : World) : option (Thread * World) :=
  match t with
  | AtStart =>
      match CreateLock (lockName podname nodename) 30 w with
      | (Ok l, w') => Some (Created l, w')
      | (Err e, w') => Some (Returned (Err e), w')
      end
  | Created l =>
      match Lock_Lock l w with
      | (Ok _, w') => Some (Holding l, w')
      | (Err e, w') => Some (Returned (Err e), w')
      end
  | Holding l =>
      match read_phase c w with
      | (Ok bytes, w') => Some (Writing l bytes, w')
      | (Err e, w') => Some (Releasing l (Err e), w')
      end
  | Writing l bytes =>
      match etcd_Set (nodeInfoKey podname nodename) bytes w with
      | (Ok _, w') => Some (Releasing l (Ok tt), w')
      | (Err e, w') => Some (Releasing l (Err e), w')
      end
  | Releasing l r => Some (Returned r, (Lock_Unlock l w).2)
  | Returned _ => None
  end.

(** The callers, each with its call, and the world they share. *)
Definition System : Type := list (Call * Thread) * World.

(** Any caller that can advance may be the next to do so. *)
Inductive sys_step : System → System → Prop :=
  | sys_step_at before c t after w t' w' :
      thread_step c t w = Some (t', w') →
      sys_step (before ++ (c, t) :: after, w) (before ++ (c, t') :: after, w').

(** The caller at position [i] advances, if there is one and it can. *)
Definition step_at (i : nat) (s : System) : System :=
  match s.1 !! i with
  | Some (c, t) =>
      match thread_step c t s.2 with
      | Some (t', w') => (<[i := (c, t')]> s.1, w')
      | None => s
      end
  | None => s
  end.

(** The callers advance in the order the schedule names them. *)
Definition run_schedule (schedule : list nat) (s : System) : System :=
  foldl (λ s i, step_at i s) s schedule.

(** Running one caller on its own, [fuel] steps at most. *)
Fixpoint run_alone (fuel : nat) (c : Call) (t : Thread) (w : World) : Thread * World :=
  match fuel with
  | O => (t, w)
  | S fuel' =>
      match thread_step c t w with
      | Some (t', w') => run_alone fuel' c t' w'
      | None => (t, w)
      end
  end.

(** The caller holds the lock. *)
Definition critical (t : Thread) : bool :=
  match t with
  | Holding _ | Writing _ _ | Releasing _ _ => true
  | AtStart | Created _ | Returned _ => false
  end.

(** The caller has written its document. *)
Definition committed (t : Thread) : bool :=
  match t with
  | Releasing _ (Ok _) | Returned (Ok _) => true
  | _ => false
  end.

Definition thread_lock (t : Thread) : option Lock :=
  match t with
  | Created l | Holding l | Writing l _ | Releasing l _ => Some l
  | AtStart | Returned _ => None
  end.

Fixpoint holders (ts : list (Call * Thread)) : nat :=
  match ts with
  | [] => 0
  | ct :: ts' => (if critical ct.2 then 1 else 0) + holders ts'
  end.

Fixpoint committed_calls (ts : list (Call * Thread)) : list Call :=
  match ts with
  | [] => []
  | ct :: ts' =>
      if committed ct.2 then ct.1 :: committed_calls ts' else committed_calls ts'
  end.

(** What the calls of [order], made one after the other, turn the stored
    bytes into. *)
Fixpoint apply_calls (order : list Call) (value : string) : result string :=
  match order with
  | [] => Ok value
  | c :: rest =>
      match updated_document (call_cpu c) (call_action c) value with
      | Ok value' => apply_calls rest value'
      | Err e => Err e
      end
  end.

(** What holds of the callers and the world at every point of every
    interleaving that starts with [value0] at the node's key: the locks the
    callers carry are the lock of this pod and node; at most one caller
    holds it, and then the name is taken; the stored bytes are [value0]
    after the calls that have written, applied in the order [order] in
    which they wrote; a caller about to write has computed its bytes from
    the bytes stored now. *)
Definition serialized (value0 : string) (s : System) : Prop :=
  Forall (λ ct, ∀ l, thread_lock ct.2 = Some l →
                     lock_name l = lockName podname nodename) s.1
  ∧ holders s.1 ≤ 1
  ∧ (0 < holders s.1 → lockName podname nodename ∈ locks s.2)
  ∧ ∃ order value,
      kv s.2 !! nodeInfoKey podname nodename = Some value
      ∧ apply_calls order value0 = Ok value
      ∧ order ≡ₚ committed_calls s.1
      ∧ Forall (λ ct, ∀ l bytes, ct.2 = Writing l bytes →
                  updated_document (call_cpu ct.1) (call_action ct.1) value = Ok bytes)
               s.1.

(** A step of the callers or of the clock, in a run where the lock does
    not expire under a caller that holds it: every caller is through its
    critical section before the [ttl] seconds of its lock are over. *)
Inductive timely_step : System → System → Prop :=
  | timely_caller s s' : sys_step s s' → timely_step s s'
  | timely_expiry ts w :
      holders ts = 0 →
      timely_step (ts, w) (ts, Lock_expire (lockName podname nodename) w).

(** Whose turn it is: the caller at position [i], or the clock, which
    lets the lock expire whoever holds it. *)
Inductive Turn : Type :=
  | Caller (i : nat)
  | Expiry.

Definition take_turn (t : Turn) (s : System) : System :=
  match t with
  | Caller i => step_at i s
  | Expiry => (s.1, Lock_expire (lockName podname nodename) s.2)
  end.

Definition run_turns (turns : list Turn) (s : System) : System :=
  foldl (λ s t, take_turn t s) s turns.

(** The actions [UpdateNodeCPU] knows. *)
Definition known_action (c : Call) : bool :=
  String.eqb (call_action c) "add" || String.eqb (call_action c) "+"
  || String.eqb (call_action c) "sub" || String.eqb (call_action c) "-".

(** Modelled from the spec: "Apply [delta] to the in-memory [CPUMap] via
    [Add] or [Sub]" (section 4.5, step 3), for a call whose direction is
    one of the two. *)
Definition adjust (c : Call) (node : Node) : Node :=
  if String.eqb (call_action c) "add" || String.eqb (call_action c) "+"
  then set_CPU (CPUMap_Add (CPU node) (call_cpu c)) node
  else set_CPU (CPUMap_Sub (CPU node) (call_cpu c)) node.

(** Modelled from the spec: the sequential application of the deltas of
    [order] to the stored document, each one read, adjusted and persisted
    (section 4.5, steps 2 to 4). *)
Fixpoint apply_deltas (order : list Call) (value : string) : result string :=
  match order with
  | [] => Ok value
  | c :: rest =>
      match json_Unmarshal value with
      | Ok node =>
          match json_Marshal (adjust c node) with
          | Ok value' => apply_deltas rest value'
          | Err e => Err e
          end
      | Err e => Err e
      end
  end.

End Concurrent.

(** ** A concrete codec and a concrete world

    A line-oriented stand-in for [encoding/json], so that the operations
    can be run: the fields of the document separated by bars, the entries
    of a CPU map as [label=value] separated by semicolons. *)
Module LineCodec.

Fixpoint split_on (sep : ascii) (acc s : string) : list string :=
  match s with
  | EmptyString => [acc]
  | String c s' =>
      if Ascii.eqb c sep then acc :: split_on sep "" s'
      else split_on sep (acc +:+ String c "") s'
  end.

Definition digit (c : ascii) : option Z :=
  let n := nat_of_ascii c in
  if (48 <=? n)%nat && (n <=? 57)%nat then Some (Z.of_nat (n - 48)) else None.

Fixpoint read_digits (acc : Z) (s : string) : option Z :=
  match s with
  | EmptyString => Some acc
  | String c s' =>
      match digit c with
      | Some d => read_digits (10 * acc + d)%Z s'
      | None => None
      end
  end.

Definition read_Z (s : string) : option Z :=
  match s with
  | EmptyString => None
  | String c s' =>
      if Ascii.eqb c "-"%char then Z.opp <$> read_digits 0 s'
      else read_digits 0 s
  end.

Definition write_cpu (m : CPUMap) : string :=
  String.concat ";" ((λ lv : string * Z, lv.1 +:+ "=" +:+ pretty lv.2) <$> map_to_list m).

Definition read_entry (s : string) : option (string * Z) :=
  match split_on "="%char "" s with
  | [l; v] => (λ z, (l, z)) <$> read_Z v
  | _ => None
  end.

Definition read_cpu (s : string) : option CPUMap :=
  if String.eqb s "" then Some ∅
  else list_to_map <$> mapM read_entry (split_on ";"%char "" s).

Definition encode (n : Node) : option string :=
  Some (String.concat "|"
          [Name n; Endpoint n; Podname n; if Public n then "true" else "false";
           write_cpu (CPU n); write_cpu (InitCPU n);
           pretty (MemCap n); pretty (InitMemCap n)]).

Definition decode (s : string) : option Node :=
  match split_on "|"%char "" s with
  | [name; endpoint; podname; public; cpu; initcpu; memcap; initmemcap] =>
      match read_cpu cpu, read_cpu initcpu, read_Z memcap, read_Z initmemcap with
      | Some c, Some ic, Some m, Some im =>
          if String.eqb public "true"
          then Some (mkNode name endpoint podname true c ic m im None)
          else if String.eqb public "false"
          then Some (mkNode name endpoint podname false c ic m im None)
          else None
      | _, _, _, _ => None
      end
  | _ => None
  end.

Definition codec : JSON := {| json_encode := encode; json_decode := decode |}.

End LineCodec.

(** A stand-in for the two library functions, so that the operations can
    be run on the endpoints of the worlds below.  [net_SplitHostPort]
    follows [net.SplitHostPort] statement by statement.  [url_Parse]
    follows [url.Parse] as far as the host of such endpoints goes: the
    fragment, the scheme, the query, the authority after the two slashes,
    the user in front of the host; it validates neither the host nor the
    port. *)
Module PlainNet.

Definition index (c : ascii) (s : string) : option nat :=
  String.index 0 (String c "") s.

Fixpoint last_index (c : ascii) (s : string) : option nat :=
  match s with
  | EmptyString => None
  | String a s' =>
      match last_index c s' with
      | Some i => Some (S i)
      | None => if Ascii.eqb a c then Some 0 else None
      end
  end.

(** [s[i:]] and [s[:i]]. *)
Definition from (i : nat) (s : string) : string :=
  String.substring i (String.length s - i) s.
Definition upto (i : nat) (s : string) : string := String.substring 0 i s.

Definition contains (c : ascii) (s : string) : bool :=
  match index c s with Some _ => true | None => false end.

(** The host of [net.SplitHostPort(hostport)]; [None] is one of its
    errors (missing port, too many colons, a bracket missing or out of
    place). *)
Definition net_SplitHostPort (hostport : string) : option string :=
  match last_index ":" hostport with
  | None => None
  | Some i =>
      let parsed : option (string * nat * nat) :=
        if String.prefix "[" hostport
        then
          match index "]" hostport with
          | None => None
          | Some close =>
              if (close + 1 =? i)%nat
              then Some (String.substring 1 (close - 1) hostport, 1, close + 1)
              else None
          end
        else
          let host := upto i hostport in
          if contains ":" host then None else Some (host, 0, 0) in
      match parsed with
      | None => None
      | Some (host, j, k) =>
          if contains "[" (from j hostport) then None
          else if contains "]" (from k hostport) then None
          else Some host
      end
  end.

Definition is_letter (c : ascii) : bool :=
  let n := nat_of_ascii c in
  ((97 <=? n) && (n <=? 122) || (65 <=? n) && (n <=? 90))%nat.

Definition is_scheme_mark (c : ascii) : bool :=
  let n := nat_of_ascii c in
  ((48 <=? n) && (n <=? 57))%nat
  || Ascii.eqb c "+" || Ascii.eqb c "-" || Ascii.eqb c ".".

(** [getScheme]: [None] is "missing protocol scheme", [Some None] no
    scheme, [Some (Some i)] a scheme that ends before position [i]. *)
Fixpoint getScheme (i : nat) (s : string) : option (option nat) :=
  match s with
  | EmptyString => Some None
  | String c s' =>
      if is_letter c then getScheme (S i) s'
      else if is_scheme_mark c
      then (if (i =? 0)%nat then Some None else getScheme (S i) s')
      else if Ascii.eqb c ":"
      then (if (i =? 0)%nat then None else Some (Some i))
      else Some None
  end.

Definition before (c : ascii) (s : string) : string :=
  match index c s with Some i => upto i s | None => s end.

Definition after_last (c : ascii) (s : string) : string :=
  match last_index c s with Some i => from (S i) s | None => s end.

Definition url_Parse (rawurl : string) : option string :=
  let u := before "#" rawurl in
  match getScheme 0 u with
  | None => None
  | Some scheme =>
      let rest := match scheme with Some i => from (S i) u | None => u end in
      let rest := before "?" rest in
      if (match scheme with Some _ => true | None => negb (String.prefix "///" rest) end)
         && String.prefix "//" rest
      then Some (after_last "@" (before "/" (from 2 rest)))
      else Some ""
  end.

Definition net : Net := Build_Net url_Parse net_SplitHostPort.

End PlainNet.

(** The end-to-end scenario of the design: pod [default], node [nodeX]
    at [tcp://10.0.0.5:2375], no TLS, an engine with four cores. *)
Module Demo.

Definition k : krypton := mkKrypton "" "v1.23".

Definition endpoint : string := "tcp://10.0.0.5:2375".

Definition nodeX : Node :=
  mkNode "nodeX" endpoint "default" false (initial_cpumap 4) ∅ 0 0 None.

Definition document (n : Node) : string := default "" (LineCodec.encode n).

(** [nodeX] as [GetNode] returns it, with its client attached. *)
Definition nodeX_live : Node :=
  set_Engine (Some (mkClient endpoint "" "v1.23")) nodeX.

(** The pod exists, the node does not yet. *)
Definition fresh : World :=
  mkWorld {[ podInfoKey "default" := "the default pod" ]}
          ∅ ∅ ∅ {[ endpoint := 4%Z ]} [] [].

(** The node is registered. *)
Definition registered : World :=
  mkWorld (<[ nodeInfoKey "default" "nodeX" := document nodeX ]>
             {[ podInfoKey "default" := "the default pod" ]})
          ∅ ∅ ∅ {[ endpoint := 4%Z ]} [] [].

(** A leaf below the node's info key turns that key into a directory. *)
Definition info_is_directory : World :=
  mkWorld {[ nodeInfoKey "default" "nodeX" +:+ "/stray" := "x" ]}
          ∅ ∅ ∅ {[ endpoint := 4%Z ]} [] [].

(** The engine of the registered node no longer answers. *)
Definition engine_down : World :=
  mkWorld (kv registered) ∅ ∅ ∅ ∅ [] [].

(** Two callers on the registered node: one takes five shares from
    core 0, the other gives three to core 1. *)
Definition calls : list Call :=
  [mkCall {[ "0" := 5%Z ]} "sub"; mkCall {[ "1" := 3%Z ]} "add"].

(** The second caller takes the lock and reads, the first one starts,
    the second writes and releases, then the first goes through. *)
Definition schedule : list nat := [1; 1; 1; 0; 1; 1; 0; 0; 0; 0].

(** The second caller takes the lock and reads; its lock expires; the
    first caller goes through; the second writes what it had computed. *)
Definition untimely : list Turn :=
  [Caller 1; Caller 1; Caller 1; Expiry;
   Caller 0; Caller 0; Caller 0; Caller 0; Caller 0;
   Caller 1; Caller 1].

(** A second node of the pod, listed after [nodeX], whose document
    does not decode. *)
Definition garbled_node : World :=
  mkWorld (<[ nodeInfoKey "default" "nodeP" := "not a document" ]> (kv registered))
          ∅ ∅ ∅ {[ endpoint := 4%Z ]} [] [].

(** A second pod, listed after [default], whose only node has a document
    that does not decode. *)
Definition garbled_pod : World :=
  mkWorld (<[ nodeInfoKey "prod" "nodeB" := "not a document" ]>
             (<[ podInfoKey "prod" := "the production pod" ]> (kv registered)))
          ∅ ∅ ∅ {[ endpoint := 4%Z ]} [] [].

(** TLS is configured; the per-host directory is there, left behind
    without its files, while etcd holds the three blobs. *)
Definition k_tls : krypton := mkKrypton "/etc/docker/tls" "v1.23".

Definition half_dumped : World :=
  mkWorld (<[ nodeCaKey "default" "nodeX" := "CA" ]>
             (<[ nodeCertKey "default" "nodeX" := "CERT" ]>
                (<[ nodeKeyKey "default" "nodeX" := "KEY" ]> (kv registered))))
          ∅ {[ "/etc/docker/tls/10.0.0.5" := FsDir ]} ∅ {[ endpoint := 4%Z ]} [] [].

End Demo.

(** ** Vocabulary of the further properties *)

(** The host under which [makeDockerClient] caches the client of
    [endpoint]: [url.Parse] followed by [net.SplitHostPort]. *)
Definition host_of `{net : Net} (endpoint : string) : result string :=
  match url_Host endpoint with
  | Ok uhost => SplitHostPort uhost
  | Err e => Err e
  end.

(** The certificate directory [makeDockerClient] hands to
    [makeRawClient] for [host]. *)
Definition dockerCertPath_of (k : krypton) (host : string) : string :=
  if String.eqb (Docker_CertPath k) "" then ""
  else filepath_Join (Docker_CertPath k) host.

(** What [makeDockerClient] does when it has no client to reuse, up to
    the probe: the certificate directory, [makeRawClient], [_cache.set]. *)
Definition build_client `{net : Net} (k : krypton)
    (podname nodename endpoint host : string) : M Client :=
  let* dockerCertPath :=
    (if String.eqb (Docker_CertPath k) "" then ret ""
     else
       let dockerCertPath := filepath_Join (Docker_CertPath k) host in
       let* missing := os_Stat_IsNotExist dockerCertPath in
       let* _ := (if missing
                  then dumpFromEtcd k podname nodename dockerCertPath
                  else ret tt) in
       ret dockerCertPath) in
  let* c := makeRawClient endpoint dockerCertPath (Docker_APIVersion k) in
  let* _ := cache_set host c in
  ret c.

(** Every error of [m] satisfies [P]. *)
Definition raises_only {A} (P : error → Prop) (m : M A) : Prop :=
  ∀ w e w', m w = (Err e, w') → P e.

(** The errors that are not those of a probe. *)
Definition before_probe (e : error) : Prop :=
  match e with ErrEngineInfo _ => False | _ => True end.

(** The etcd keys and the locks are as they were. *)
Definition same_store : relation World :=
  λ w w', kv w' = kv w ∧ locks w' = locks w.

(** The client cache is as it was. *)
Definition same_cache : relation World := λ w w', cache w' = cache w.


(** Every call made between [w] and [w'] satisfies [P]. *)
Definition calls_only (P : Event → bool) : relation World :=
  λ w w', ∃ new, trace w' = new ++ trace w ∧ forallb P new = true.

(** The condition under which [AddNode] stores the TLS material. *)
Definition tls_given (cafile certfile keyfile : string) : bool :=
  negb (String.eqb cafile "") && negb (String.eqb certfile "")
  && negb (String.eqb keyfile "").

(** The etcd keys after [AddNode] has stored the TLS material it was
    given. *)
Definition with_tls (podname name cafile certfile keyfile : string)
    (store : gmap string string) : gmap string string :=
  if tls_given cafile certfile keyfile
  then <[nodeKeyKey podname name := keyfile]>
         (<[nodeCertKey podname name := certfile]>
            (<[nodeCaKey podname name := cafile]> store))
  else store.

(** [node] is the document [store] holds for the node [nodename] of
    [podname], with an engine attached. *)
Definition stored_node `{codec : JSON} (store : gmap string string)
    (podname nodename : string) (node : Node) : Prop :=
  ∃ value doc engine,
    store !! nodeInfoKey podname nodename = Some value
    ∧ json_decode value = Some doc
    ∧ node = set_Engine (Some engine) doc.

(** Further worlds, beside those of [Demo]. *)
Module Cases.

(** A client is cached for the host, made for port 2375. *)
Definition cached : World :=
  mkWorld (kv Demo.registered) ∅ ∅
          {[ "10.0.0.5" := mkClient Demo.endpoint "" "v1.23" ]}
          {[ Demo.endpoint := 4%Z ]} [] [].
(** The same host, another port. *)
Definition other_port : string := "tcp://10.0.0.5:9999".
(** [Demo.registered] after the first connection to the node. *)
Definition connected : World :=
  mkWorld (kv Demo.registered) ∅ ∅
          {[ "10.0.0.5" := mkClient Demo.endpoint "" "v1.23" ]}
          {[ Demo.endpoint := 4%Z ]} []
          [EvInfo (mkClient Demo.endpoint "" "v1.23") (Some 5%Z) true;
           EvNewClient (mkClient Demo.endpoint "" "v1.23")].


(** The pod exists, the engine of the node to add does not answer. *)
Definition pod_only : World :=
  mkWorld (kv Demo.fresh) ∅ ∅ ∅ ∅ [] [].

(** A caller of [UpdateNodeCPU] holds the lock of the registered node. *)
Definition updating : World :=
  mkWorld (kv Demo.registered) {[ lockName "default" "nodeX" ]} ∅ ∅
          {[ Demo.endpoint := 4%Z ]} [] [].
(** [nodeX] with a memory capacity. *)
Definition nodeX_mem : Node :=
  mkNode "nodeX" Demo.endpoint "default" false (initial_cpumap 4) ∅ 1024 0 None.
(** What the caller of [UpdateNodeCPU] computes from the registered
    document of [nodeX]: five shares less on core 0. *)
Definition stale : string :=
  match updated_document (codec := LineCodec.codec) {[ "0" := 5%Z ]} "sub"
          (Demo.document Demo.nodeX) with
  | Ok bytes => bytes
  | Err _ => ""
  end.

End Cases.

(** * Package rpc

    The second package of the file: the conversions between the records
    of the core and those of the wire ([pb]).  The records have the fields
    the conversions read and write; a field that is only copied has the
    same type on both sides, and nothing below depends on which.  A pointer
    that the code tests against nil, or that may be nil where it is
    dereferenced, is an [option]; a Go map the code ranges over is the list
    of its entries in the order of that range, which the runtime chooses. *)

Module rpc.

(** [[]byte]. *)
Definition bytes : Type := list Byte.byte.

(** [float64], by its 64 bits; the conversions only copy it. *)
Definition float64 : Type := Z.

(** The errors the conversions return: those of [types] they name, and
    those of [utils.TempTarFile] and [os.RemoveAll]. *)
Inductive failure : Type :=
  | ErrNoBuildsInSpec
  | ErrNoBuildSpec
  | ErrNoEntryInSpec
  | ErrTempTarFile (path : string)
  | ErrRemoveAll (path : string).

(** What a call comes to: it returns, or it panics on a nil pointer. *)
Inductive outcome (A : Type) : Type :=
  | Returned (a : A)
  | Panicked.
Arguments Returned {A} a.
Arguments Panicked {A}.

(** ** CPU maps *)

(** [int32(value)]: the low 32 bits of [value], read as a signed
    number. *)
Definition int32 (value : Z) : Z := ((value + 2 ^ 31) mod 2 ^ 32 - 2 ^ 31)%Z.

Definition toRPCCPUMap (m : CPUMap) : gmap string Z :=
  map_fold (λ label value cpu, <[label := int32 value]> cpu) ∅ m.

(** ** Build options *)

Record pb_Build : Type := mk_pb_Build {
  pbBuild_Base : string;
  pbBuild_Repo : string;
  pbBuild_Version : string;
  pbBuild_Dir : string;
  pbBuild_Submodule : bool;
  pbBuild_Commands : list string;
  pbBuild_Envs : gmap string string;
  pbBuild_Args : gmap string string;
  pbBuild_Labels : gmap string string;
  pbBuild_Artifacts : gmap string string;
  pbBuild_Cache : gmap string string;
  pbBuild_StopSignal : string
}.

Record pb_Builds : Type := mk_pb_Builds {
  pbBuilds_Stages : list string;
  pbBuilds_Builds : list (string * option pb_Build)
}.

Record pb_BuildImageOptions : Type := mk_pb_BuildImageOptions {
  pbImage_Name : string;
  pbImage_User : string;
  pbImage_Uid : Z;
  pbImage_Tags : list string;
  pbImage_Builds : option pb_Builds;
  pbImage_Tar : bytes
}.

Record Build : Type := mkBuild {
  Build_Base : string;
  Build_Repo : string;
  Build_Version : string;
  Build_Dir : string;
  Build_Submodule : bool;
  Build_Commands : list string;
  Build_Envs : gmap string string;
  Build_Args : gmap string string;
  Build_Labels : gmap string string;
  Build_Artifacts : gmap string string;
  Build_Cache : gmap string string;
  Build_StopSignal : string
}.

Record Builds : Type := mkBuilds {
  Builds_Stages : list string;
  Builds_Builds : gmap string Build
}.

(** [Tar] is a reader over the bytes it was given. *)
Record BuildOptions : Type := mkBuildOptions {
  Image_Name : string;
  Image_User : string;
  Image_UID : Z;
  Image_Tags : list string;
  Image_Builds : option Builds;
  Image_Tar : bytes
}.

Definition toCoreBuild (p : pb_Build) : Build :=
  mkBuild (pbBuild_Base p) (pbBuild_Repo p) (pbBuild_Version p) (pbBuild_Dir p)
    (pbBuild_Submodule p || false) (pbBuild_Commands p) (pbBuild_Envs p)
    (pbBuild_Args p) (pbBuild_Labels p) (pbBuild_Artifacts p) (pbBuild_Cache p)
    (pbBuild_StopSignal p).

(** The loop over [b.Builds.Builds]. *)
Fixpoint toCoreBuilds_range (entries : list (string * option pb_Build))
    (builds : gmap string Build) : option (gmap string Build) * option failure :=
  match entries with
  | [] => (Some builds, None)
  | (stage, None) :: _ => (None, Some ErrNoBuildSpec)
  | (stage, Some p) :: rest =>
      toCoreBuilds_range rest (<[stage := toCoreBuild p]> builds)
  end.

Definition toCoreBuildOptions (b : pb_BuildImageOptions) :
    option BuildOptions * option failure :=
  let options builds :=
    (Some (mkBuildOptions (pbImage_Name b) (pbImage_User b) (pbImage_Uid b)
             (pbImage_Tags b) builds (pbImage_Tar b)), None) in
  match pbImage_Builds b with
  | None => options None
  | Some bs =>
      if (length (pbBuilds_Stages bs) =? 0)%nat then (None, Some ErrNoBuildsInSpec)
      else
        match toCoreBuilds_range (pbBuilds_Builds bs) ∅ with
        | (Some builds, None) => options (Some (mkBuilds (pbBuilds_Stages bs) builds))
        | (_, err) => (None, err)
        end
  end.

(** ** Temporary files *)

(** - [on_disk]: the temporary files that exist;
    - [disk_faults]: what the next calls to [os.RemoveAll] suffer
      ([true]: the call fails); an exhausted list means no failure;
    - [removals]: the arguments of the calls to [os.RemoveAll] so far,
      most recent first. *)
Record Disk : Type := mkDisk {
  on_disk : gset string;
  disk_faults : list bool;
  removals : list string
}.

(** [os.RemoveAll(path)]; removing what is not there is no error. *)
Definition os_RemoveAll (path : string) (d : Disk) : option failure * Disk :=
  match disk_faults d with
  | true :: fl => (Some (ErrRemoveAll path), mkDisk (on_disk d) fl (path :: removals d))
  | false :: fl => (None, mkDisk (on_disk d ∖ {[path]}) fl (path :: removals d))
  | [] => (None, mkDisk (on_disk d ∖ {[path]}) [] (path :: removals d))
  end.

Fixpoint cleanTmpDataFile_range (data : list (string * string))
    (err : option failure) (d : Disk) : option failure * Disk :=
  match data with
  | [] => (err, d)
  | (_, src) :: rest =>
      let (err', d') := os_RemoveAll src d in
      cleanTmpDataFile_range rest err' d'
  end.

(** [err] is assigned by every round of the loop and returned after the
    last one; a failure is logged and the loop goes on. *)
Definition cleanTmpDataFile (data : list (string * string)) (d : Disk) :
    option failure * Disk :=
  cleanTmpDataFile_range data None d.

Section TempTarFile.

(** [utils.TempTarFile(path, data)] is not part of the file: it returns
    the name of a temporary file and an error, and does to the disk what
    it does. *)
Variable TempTarFile : string → bytes → Disk → (string * option failure) * Disk.

Fixpoint makeTempTarFiles_range (data : list (string * bytes))
    (tarFiles : gmap string string) (d : Disk) :
    (option (gmap string string) * option failure) * Disk :=
  match data with
  | [] => ((Some tarFiles, None), d)
  | (path, content) :: rest =>
      match TempTarFile path content d with
      | ((fname, Some err), d1) =>
          ((None, Some err),
           if negb (String.eqb fname "") then (os_RemoveAll fname d1).2 else d1)
      | ((fname, None), d1) =>
          makeTempTarFiles_range rest (<[path := fname]> tarFiles) d1
      end
  end.

Definition makeTempTarFiles (data : list (string * bytes)) (d : Disk) :
    (option (gmap string string) * option failure) * Disk :=
  makeTempTarFiles_range data ∅ d.

(** The temporary files of [data], made one after the other from [d];
    every call to [utils.TempTarFile] succeeds. *)
Inductive tarred : list (string * bytes) → Disk → list (string * string) → Disk → Prop :=
  | tarred_nil d : tarred [] d [] d
  | tarred_cons path content rest d fname d1 names d2 :
      TempTarFile path content d = ((fname, None), d1) →
      tarred rest d1 names d2 →
      tarred ((path, content) :: rest) d ((path, fname) :: names) d2.

(** *** Send options *)

Record pb_SendOptions : Type := mk_pb_SendOptions {
  pbSend_Ids : list string;
  pbSend_Data : list (string * bytes)
}.

Record SendOptions : Type := mkSendOptions {
  Send_IDs : list string;
  Send_Data : gmap string string
}.

Definition toCoreSendOptions (b : pb_SendOptions) (d : Disk) :
    (option SendOptions * option failure) * Disk :=
  match makeTempTarFiles (pbSend_Data b) d with
  | ((_, Some err), d') => ((None, Some err), d')
  | ((tarFiles, None), d') =>
      ((Some (mkSendOptions (pbSend_Ids b) (default ∅ tarFiles)), None), d')
  end.

(** *** Deploy options *)

Record pb_LogOptions : Type := mk_pb_LogOptions {
  pbLog_Type : string;
  pbLog_Config : gmap string string
}.

Record pb_HealthCheckOptions : Type := mk_pb_HealthCheckOptions {
  pbHealth_TcpPorts : list string;
  pbHealth_HttpPort : string;
  pbHealth_Url : string;
  pbHealth_Code : Z
}.

Record pb_HookOptions : Type := mk_pb_HookOptions {
  pbHook_AfterStart : list string;
  pbHook_BeforeStop : list string;
  pbHook_Force : bool
}.

Record pb_EntrypointOptions : Type := mk_pb_EntrypointOptions {
  pbEntry_Name : string;
  pbEntry_Command : string;
  pbEntry_Privileged : bool;
  pbEntry_Dir : string;
  pbEntry_Log : option pb_LogOptions;
  pbEntry_Publish : list string;
  pbEntry_Healthcheck : option pb_HealthCheckOptions;
  pbEntry_Hook : option pb_HookOptions;
  pbEntry_RestartPolicy : string;
  pbEntry_Sysctls : gmap string string
}.

Record pb_DeployOptions : Type := mk_pb_DeployOptions {
  pbDeploy_Name : string;
  pbDeploy_Entrypoint : option pb_EntrypointOptions;
  pbDeploy_Podname : string;
  pbDeploy_Nodename : string;
  pbDeploy_Image : string;
  pbDeploy_ExtraArgs : string;
  pbDeploy_CpuQuota : float64;
  pbDeploy_CpuBind : bool;
  pbDeploy_Memory : Z;
  pbDeploy_Count : Z;
  pbDeploy_Env : list string;
  pbDeploy_Dns : list string;
  pbDeploy_ExtraHosts : list string;
  pbDeploy_Volumes : list string;
  pbDeploy_Networks : gmap string string;
  pbDeploy_Networkmode : string;
  pbDeploy_User : string;
  pbDeploy_Debug : bool;
  pbDeploy_OpenStdin : bool;
  pbDeploy_Labels : gmap string string;
  pbDeploy_Nodelabels : gmap string string;
  pbDeploy_DeployMethod : string;
  pbDeploy_Data : list (string * bytes);
  pbDeploy_SoftLimit : bool;
  pbDeploy_NodesLimit : Z
}.

Record LogConfig : Type := mkLogConfig {
  Log_Type : string;
  Log_Config : gmap string string
}.

Record HealthCheck : Type := mkHealthCheck {
  Health_TCPPorts : list string;
  Health_HTTPPort : string;
  Health_HTTPURL : string;
  Health_HTTPCode : Z
}.

Record Hook : Type := mkHook {
  Hook_AfterStart : list string;
  Hook_BeforeStop : list string;
  Hook_Force : bool
}.

Record Entrypoint : Type := mkEntrypoint {
  Entry_Name : string;
  Entry_Command : string;
  Entry_Privileged : bool;
  Entry_Dir : string;
  Entry_Log : option LogConfig;
  Entry_Publish : list string;
  Entry_HealthCheck : option HealthCheck;
  Entry_Hook : option Hook;
  Entry_RestartPolicy : string;
  Entry_Sysctls : gmap string string
}.

Record DeployOptions : Type := mkDeployOptions {
  Deploy_Name : string;
  Deploy_Entrypoint : Entrypoint;
  Deploy_Podname : string;
  Deploy_Nodename : string;
  Deploy_Image : string;
  Deploy_ExtraArgs : string;
  Deploy_CPUQuota : float64;
  Deploy_CPUBind : bool;
  Deploy_Memory : Z;
  Deploy_Count : Z;
  Deploy_Env : list string;
  Deploy_DNS : list string;
  Deploy_ExtraHosts : list string;
  Deploy_Volumes : list string;
  Deploy_Networks : gmap string string;
  Deploy_NetworkMode : string;
  Deploy_User : string;
  Deploy_Debug : bool;
  Deploy_OpenStdin : bool;
  Deploy_Labels : gmap string string;
  Deploy_NodeLabels : gmap string string;
  Deploy_DeployMethod : string;
  Deploy_Data : gmap string string;
  Deploy_SoftLimit : bool;
  Deploy_NodesLimit : Z
}.

(** The entry point of [toCoreDeployOptions], before the temporary
    files are made. *)
Definition toCoreEntrypoint (entrypoint : pb_EntrypointOptions) : Entrypoint :=
  mkEntrypoint
    (pbEntry_Name entrypoint) (pbEntry_Command entrypoint)
    (pbEntry_Privileged entrypoint) (pbEntry_Dir entrypoint)
    (match pbEntry_Log entrypoint with
     | Some l => if negb (String.eqb (pbLog_Type l) "")
                 then Some (mkLogConfig (pbLog_Type l) (pbLog_Config l))
                 else None
     | None => None
     end)
    (pbEntry_Publish entrypoint)
    (match pbEntry_Healthcheck entrypoint with
     | Some h => Some (mkHealthCheck (pbHealth_TcpPorts h) (pbHealth_HttpPort h)
                         (pbHealth_Url h) (pbHealth_Code h))
     | None => None
     end)
    (match pbEntry_Hook entrypoint with
     | Some h => Some (mkHook (pbHook_AfterStart h) (pbHook_BeforeStop h)
                         (pbHook_Force h))
     | None => None
     end)
    (pbEntry_RestartPolicy entrypoint) (pbEntry_Sysctls entrypoint).

Definition toCoreDeployOptions (d : option pb_DeployOptions) (disk : Disk) :
    outcome (option DeployOptions * option failure) * Disk :=
  match d with
  | None => (Panicked, disk)
  | Some d =>
      match pbDeploy_Entrypoint d with
      | None => (Returned (None, Some ErrNoEntryInSpec), disk)
      | Some entrypoint =>
          let entry := toCoreEntrypoint entrypoint in
          match makeTempTarFiles (pbDeploy_Data d) disk with
          | ((_, Some err), disk') => (Returned (None, Some err), disk')
          | ((tarFiles, None), disk') =>
              (Returned
                 (Some (mkDeployOptions
                          (pbDeploy_Name d) entry (pbDeploy_Podname d)
                          (pbDeploy_Nodename d) (pbDeploy_Image d)
                          (pbDeploy_ExtraArgs d) (pbDeploy_CpuQuota d)
                          (pbDeploy_CpuBind d) (pbDeploy_Memory d)
                          (pbDeploy_Count d) (pbDeploy_Env d) (pbDeploy_Dns d)
                          (pbDeploy_ExtraHosts d) (pbDeploy_Volumes d)
                          (pbDeploy_Networks d) (pbDeploy_Networkmode d)
                          (pbDeploy_User d) (pbDeploy_Debug d)
                          (pbDeploy_OpenStdin d) (pbDeploy_Labels d)
                          (pbDeploy_Nodelabels d) (pbDeploy_DeployMethod d)
                          (default ∅ tarFiles) (pbDeploy_SoftLimit d)
                          (pbDeploy_NodesLimit d)),
                  None), disk')
          end
      end
  end.

(** *** Replace options *)

Record pb_ReplaceOptions : Type := mk_pb_ReplaceOptions {
  pbReplace_DeployOpt : option pb_DeployOptions;
  pbReplace_Force : bool;
  pbReplace_FilterLabels : gmap string string;
  pbReplace_Copy : gmap string string;
  pbReplace_Ids : list string;
  pbReplace_Networkinherit : bool
}.

Record ReplaceOptions : Type := mkReplaceOptions {
  Replace_DeployOptions : DeployOptions;
  Replace_Force : bool;
  Replace_FilterLabels : gmap string string;
  Replace_Copy : gmap string string;
  Replace_IDs : list string;
  Replace_NetworkInherit : bool
}.

(** [*deployOpts] is evaluated before [err] is looked at. *)
Definition toCoreReplaceOptions (r : pb_ReplaceOptions) (disk : Disk) :
    outcome (ReplaceOptions * option failure) * Disk :=
  match toCoreDeployOptions (pbReplace_DeployOpt r) disk with
  | (Panicked, disk') => (Panicked, disk')
  | (Returned (deployOpts, err), disk') =>
      match deployOpts with
      | None => (Panicked, disk')
      | Some opts =>
          (Returned (mkReplaceOptions opts (pbReplace_Force r)
                       (pbReplace_FilterLabels r) (pbReplace_Copy r)
                       (pbReplace_Ids r) (pbReplace_Networkinherit r),
                     err), disk')
      end
  end.

End TempTarFile.

End rpc.

(** The builds of the entries that have one. *)
Definition given_builds (entries : list (string * option rpc.pb_Build)) :
    list (string * rpc.Build) :=
  omap (λ sp : string * option rpc.pb_Build,
          (λ p, (sp.1, rpc.toCoreBuild p)) <$> sp.2) entries.

(** Some entry has no build. *)
Definition missing_build (entries : list (string * option rpc.pb_Build)) : bool :=
  existsb (λ sp : string * option rpc.pb_Build,
             match sp.2 with None => true | Some _ => false end) entries.

(** Sample inputs of the conversions. *)
Module Samples.

(** A stand-in for [utils.TempTarFile], so that the conversions can be
    run: the file is named after the path; an empty content is refused,
    after the file has been created. *)
Definition TempTarFile (path : string) (content : rpc.bytes) (d : rpc.Disk) :
    (string * option rpc.failure) * rpc.Disk :=
  let fname := "/tmp/" +:+ path +:+ ".tar" in
  let d' := rpc.mkDisk ({[fname]} ∪ rpc.on_disk d) (rpc.disk_faults d) (rpc.removals d) in
  match content with
  | [] => ((fname, Some (rpc.ErrTempTarFile path)), d')
  | _ :: _ => ((fname, None), d')
  end.

Definition empty_disk : rpc.Disk := rpc.mkDisk ∅ [] [].

(** Two files to send, the second one empty. *)
Definition data : list (string * rpc.bytes) :=
  [("app.conf", [Byte.x61]); ("empty.conf", [])].

Definition base_build : rpc.pb_Build :=
  rpc.mk_pb_Build "alpine:3" "git@host:app.git" "v1" "" false ["make"] ∅ ∅ ∅ ∅ ∅ "".

Definition final_build : rpc.pb_Build :=
  rpc.mk_pb_Build "scratch" "" "" "/app" false [] ∅ ∅ ∅
    {[ "/src/app" := "/app/app" ]} ∅ "SIGTERM".

End Samples.

(** * Properties *)

(** ** Running computations *)

Lemma bind_Ok {A B} (m : M A) (f : A → M B) w b w' :
  bind m f w = (Ok b, w') ↔ ∃ a w1, m w = (Ok a, w1) ∧ f a w1 = (Ok b, w').
Proof.
  unfold bind. split.
  - destruct (m w) as [[a|e] w1]; [eauto | discriminate].
  - intros (a & w1 & -> & ?). done.
Qed.

Lemma bind_Err {A B} (m : M A) (f : A → M B) w e w' :
  bind m f w = (Err e, w') ↔
  m w = (Err e, w') ∨ ∃ a w1, m w = (Ok a, w1) ∧ f a w1 = (Err e, w').
Proof.
  unfold bind. split.
  - destruct (m w) as [[a|e1] w1]; [eauto | intros [= -> ->]; auto].
  - intros [-> | (a & w1 & -> & ?)]; done.
Qed.

Lemma bind_step {A B} (m : M A) (f : A → M B) w a w1 :
  m w = (Ok a, w1) → bind m f w = f a w1.
Proof. unfold bind. by intros ->. Qed.

Lemma bind_stop {A B} (m : M A) (f : A → M B) w e w1 :
  m w = (Err e, w1) → bind m f w = (Err e, w1).
Proof. unfold bind. by intros ->. Qed.

(** The calls to the outside leave alone what they are not about. *)
Lemma outside_frame e w r w' :
  outside e w = (r, w') →
  kv w' = kv w ∧ locks w' = locks w ∧ fs w' = fs w ∧ cache w' = cache w
  ∧ engines w' = engines w ∧ trace w' = trace w.
Proof.
  unfold outside. destruct (faults w) as [|[] fl]; intros [= <- <-]; done.
Qed.

Lemma outside_quiet e w : faults w = [] → outside e w = (Ok tt, w).
Proof. unfold outside. by intros ->. Qed.

(** ** AddNode: the endpoint scheme *)

(** C5.  An endpoint that does not start with [tcp://] makes [AddNode]
    fail with a validation error and leave the world exactly as it found
    it: no key written, no pod looked up, no engine called (the trace of
    calls to the outside is part of the world). *)
Theorem AddNode_rejects_scheme `{codec : JSON} `{net : Net} (k : krypton)
    (name endpoint podname cafile certfile keyfile : string) (public : bool)
    (w : World) :
  HasPrefix endpoint "tcp://" = false →
  AddNode k name endpoint podname cafile certfile keyfile public w
    = (Err (ErrEndpointScheme endpoint), w)
  ∧ kind_of (ErrEndpointScheme endpoint) = ValidationError.
Proof.
  intros Hscheme. unfold AddNode. rewrite Hscheme. done.
Qed.

Lemma AddNode_rejects_scheme_witness :
  AddNode (codec := LineCodec.codec) (net := PlainNet.net)
      Demo.k "nodeX" "unix:///var/run/docker.sock"
          "default" "CA" "CERT" "KEY" true Demo.fresh
    = (Err (ErrEndpointScheme "unix:///var/run/docker.sock"), Demo.fresh)
  ∧ kind_of (ErrEndpointScheme "unix:///var/run/docker.sock") = ValidationError.
Proof.
  apply (AddNode_rejects_scheme (codec := LineCodec.codec) (net := PlainNet.net)). reflexivity.
Defined.

(** ** GetNode: corrupt entries *)

(** C6.  When etcd answers the read of the node's key with a directory,
    or with a leaf whose bytes do not decode, [GetNode] fails, and the
    error it returns is of kind [Corrupt]: the "is a directory" error in
    the first case, the decoder's in the second. *)
Theorem GetNode_corrupt `{codec : JSON} `{net : Net} (k : krypton) (podname nodename : string)
    (w w1 : World) (resp : EtcdNode) :
  etcd_Get (nodeInfoKey podname nodename) w = (Ok resp, w1) →
  Dir resp = true ∨ json_decode (Value resp) = None →
  let e := if Dir resp then ErrIsDirectory (nodeInfoKey podname nodename)
           else ErrUnmarshal in
  GetNode k podname nodename w = (Err e, w1) ∧ kind_of e = Corrupt.
Proof.
  intros Hget Hbad. simpl. unfold GetNode.
  rewrite (bind_step _ _ _ _ _ Hget).
  destruct (Dir resp) eqn:Hdir; [done|].
  destruct Hbad as [|Hdec]; [done|].
  unfold json_Unmarshal. rewrite Hdec. done.
Qed.

Lemma GetNode_corrupt_witness :
  GetNode (codec := LineCodec.codec) (net := PlainNet.net)
      Demo.k "default" "nodeX" Demo.info_is_directory
    = (Err (ErrIsDirectory (nodeInfoKey "default" "nodeX")),
       set_trace [EvGet (nodeInfoKey "default" "nodeX")] Demo.info_is_directory)
  ∧ kind_of (ErrIsDirectory (nodeInfoKey "default" "nodeX")) = Corrupt.
Proof.
  apply (GetNode_corrupt (codec := LineCodec.codec) (net := PlainNet.net) Demo.k "default" "nodeX"
           Demo.info_is_directory _
           (Directory [nodeInfoKey "default" "nodeX" +:+ "/stray"])).
  - vm_compute. reflexivity.
  - left. reflexivity.
Defined.

(** ** UpdateNodeCPU: the lock is released *)

Lemma etcd_Get_spec key w r w' :
  etcd_Get key w = (r, w') →
  kv w' = kv w ∧ locks w' = locks w ∧ fs w' = fs w ∧ cache w' = cache w
  ∧ engines w' = engines w ∧ trace w' = EvGet key :: trace w
  ∧ (∀ n, r = Ok n → etcd_lookup (kv w) key = Some n).
Proof.
  unfold etcd_Get, bind, log. simpl.
  destruct (outside _ _) as [[[]|e] w1] eqn:Hout;
    apply outside_frame in Hout as (Hkv & Hl & Hfs & Hc & He & Ht); simpl in *.
  - destruct (etcd_lookup (kv w1) key) as [n|] eqn:Hlook; intros [= <- <-];
      rewrite Hkv in Hlook; repeat split; try done.
    intros n' [= <-]. done.
  - intros [= <- <-]. repeat split; done.
Qed.

Lemma etcd_Set_spec key value w r w' :
  etcd_Set key value w = (r, w') →
  locks w' = locks w ∧ fs w' = fs w ∧ cache w' = cache w
  ∧ engines w' = engines w ∧ trace w' = EvSet key value :: trace w
  ∧ kv w' = match r with Ok _ => <[key := value]> (kv w) | Err _ => kv w end.
Proof.
  unfold etcd_Set, bind, log. simpl.
  destruct (outside _ _) as [[[]|e] w1] eqn:Hout;
    apply outside_frame in Hout as (Hkv & Hl & Hfs & Hc & He & Ht); simpl in *.
  - rewrite Hkv.
    destruct (kv w !! key), (children (kv w) key), (below_leaf (kv w) key);
      intros [= <- <-]; simpl; rewrite ?Hkv; done.
  - intros [= <- <-]. done.
Qed.

Lemma updated_document_Ok `{codec : JSON} cpu action value bytes :
  updated_document cpu action value = Ok bytes →
  ∃ n, json_decode value = Some n
       ∧ json_encode (set_Engine None (apply_action action cpu (set_Engine None n)))
         = Some bytes.
Proof.
  unfold updated_document, json_Unmarshal, json_Marshal.
  destruct (json_decode value) as [n|]; [|discriminate].
  destruct (json_encode _) as [b|] eqn:Henc; [|discriminate].
  intros [= <-]. eauto.
Qed.

(** C3.  Once [lock.Lock()] has succeeded, every way out of
    [UpdateNodeCPU] -- success, or an error of the read, of the directory
    test, of the decoding, of the encoding or of the write -- goes through
    [lock.Unlock()]: whatever the result [r], the call to [Unlock] on the
    lock of this pod and node is the last call the function makes, it comes
    after the acquisition, and the name is not held in the world the
    function leaves. *)
Theorem UpdateNodeCPU_releases_lock `{codec : JSON} (k : krypton)
    (podname nodename : string) (cpu : CPUMap) (action : string)
    (w w0 w1 w' : World) (l : Lock) (r : result unit) :
  CreateLock (lockName podname nodename) 30 w = (Ok l, w0) →
  Lock_Lock l w0 = (Ok tt, w1) →
  UpdateNodeCPU k podname nodename cpu action w = (r, w') →
  lockName podname nodename ∈ locks w1
  ∧ (∃ evs, trace w' = EvUnlock (lockName podname nodename)
                         :: (evs ++ EvLock (lockName podname nodename) 30 :: trace w))
  ∧ lockName podname nodename ∉ locks w'.
Proof.
  intros Hcreate Hlock. unfold UpdateNodeCPU.
  rewrite (bind_step _ _ _ _ _ Hcreate), (bind_step _ _ _ _ _ Hlock).
  assert (lock_name l = lockName podname nodename ∧ lock_ttl l = 30%Z
          ∧ trace w0 = trace w) as (Hname & Httl & Htr0).
  { revert Hcreate. unfold CreateLock, bind, ret.
    destruct (outside _ w) as [[[]|e] wx] eqn:Hout; [|discriminate].
    apply outside_frame in Hout as (_ & _ & _ & _ & _ & Ht).
    intros [= <- <-]. done. }
  assert (lock_name l ∈ locks w1 ∧ trace w1 = EvLock (lock_name l) (lock_ttl l) :: trace w0)
    as [Hheld Htr1].
  { revert Hlock. unfold Lock_Lock, bind, log. simpl.
    destruct (outside _ _) as [[[]|e] wx] eqn:Hout; [|discriminate].
    apply outside_frame in Hout as (_ & Hl & _ & _ & _ & Ht). simpl in *.
    destruct (decide _); [discriminate|]. intros [= <-]. simpl.
    split; [apply elem_of_union; left; by apply elem_of_singleton | done]. }
  unfold defer.
  match goal with |- context [let (_, _) := ?body w1 in _] =>
    destruct (body w1) as [rb wb] eqn:Hbody end.
  assert (∃ evs, trace wb = evs ++ trace w1) as [evs Hevs].
  { revert Hbody. unfold bind.
    destruct (etcd_Get _ w1) as [[resp|e] w2] eqn:Hget;
      apply etcd_Get_spec in Hget as (_ & _ & _ & _ & _ & Ht2 & _);
      [|intros [= _ <-]; by exists [EvGet (nodeInfoKey podname nodename)]].
    destruct (Dir resp);
      [intros [= _ <-]; by exists [EvGet (nodeInfoKey podname nodename)]|].
    unfold of_result.
    destruct (updated_document _ _ _) as [bytes|e];
      [|intros [= _ <-]; by exists [EvGet (nodeInfoKey podname nodename)]].
    destruct (etcd_Set _ _ w2) as [[[]|e] w4] eqn:Hset;
      apply etcd_Set_spec in Hset as (_ & _ & _ & _ & Ht4 & _);
      intros [= _ <-];
      exists [EvSet (nodeInfoKey podname nodename) bytes;
              EvGet (nodeInfoKey podname nodename)];
      by rewrite Ht4, Ht2. }
  intros [= <- <-]. rewrite <- Hname at 1. split; [done|].
  unfold Lock_Unlock, bind, log. simpl. rewrite Hname. split.
  - exists evs. by rewrite Hevs, Htr1, Hname, Httl, Htr0.
  - intros [_ Hnot]%elem_of_difference. by apply Hnot, elem_of_singleton.
Qed.

(** The node is not registered: the read fails while the lock is held,
    and the lock is released all the same. *)
Lemma UpdateNodeCPU_releases_lock_witness :
  lockName "default" "nodeX" ∈ locks
    (set_locks {[ lockName "default" "nodeX" ]}
       (set_trace [EvLock (lockName "default" "nodeX") 30] Demo.fresh))
  ∧ (∃ evs,
       trace (UpdateNodeCPU (codec := LineCodec.codec) Demo.k "default" "nodeX"
                {[ "0" := 5%Z ]} "sub" Demo.fresh).2
       = EvUnlock (lockName "default" "nodeX")
           :: (evs ++ EvLock (lockName "default" "nodeX") 30 :: trace Demo.fresh))
  ∧ lockName "default" "nodeX" ∉ locks
      (UpdateNodeCPU (codec := LineCodec.codec) Demo.k "default" "nodeX"
         {[ "0" := 5%Z ]} "sub" Demo.fresh).2.
Proof.
  apply (UpdateNodeCPU_releases_lock (codec := LineCodec.codec) Demo.k
           "default" "nodeX" {[ "0" := 5%Z ]} "sub" Demo.fresh Demo.fresh _ _
           (mkLock (lockName "default" "nodeX") 30)
           (Err (ErrKeyNotFound (nodeInfoKey "default" "nodeX")))).
  - reflexivity.
  - vm_compute. reflexivity.
  - vm_compute. reflexivity.
Defined.

(** ** UpdateNodeCPU: what is written *)

Lemma etcd_lookup_File store key n :
  etcd_lookup store key = Some n → Dir n = false → store !! key = Some (Value n).
Proof.
  unfold etcd_lookup. destruct (store !! key) as [v|].
  - by intros [= <-].
  - destruct (children store key); [done|]. by intros [= <-].
Qed.

Lemma CreateLock_spec name ttl w r w' :
  CreateLock name ttl w = (r, w') →
  kv w' = kv w ∧ locks w' = locks w ∧ trace w' = trace w
  ∧ (∀ l, r = Ok l → l = mkLock name ttl).
Proof.
  unfold CreateLock, bind, ret.
  destruct (outside _ w) as [[[]|e] wx] eqn:Hout;
    apply outside_frame in Hout as (? & ? & _ & _ & _ & ?);
    intros [= <- <-]; repeat split; try done.
  by intros l [= <-].
Qed.

Lemma Lock_Lock_spec l w r w' :
  Lock_Lock l w = (r, w') →
  kv w' = kv w ∧ trace w' = EvLock (lock_name l) (lock_ttl l) :: trace w
  ∧ (r = Ok tt → (lock_name l ∉ locks w) ∧ locks w' = {[lock_name l]} ∪ locks w).
Proof.
  unfold Lock_Lock, bind, log. simpl.
  destruct (outside _ _) as [[[]|e] wx] eqn:Hout;
    apply outside_frame in Hout as (Hkv & Hl & _ & _ & _ & Ht); simpl in *.
  - destruct (decide _) as [Hin|Hout]; intros [= <- <-]; simpl;
      rewrite ?Hkv, ?Hl in *; done.
  - intros [= <- <-]. done.
Qed.

(** A successful [UpdateNodeCPU] found a leaf at the node's key, decoded
    it, and stored in its place the encoding of the decoded node after
    [apply_action]; no other key changed. *)
Lemma UpdateNodeCPU_Ok_inv `{codec : JSON} k podname nodename cpu action w w' :
  UpdateNodeCPU k podname nodename cpu action w = (Ok tt, w') →
  ∃ value n bytes,
    kv w !! nodeInfoKey podname nodename = Some value
    ∧ json_decode value = Some n
    ∧ json_encode (set_Engine None (apply_action action cpu (set_Engine None n)))
      = Some bytes
    ∧ kv w' = <[nodeInfoKey podname nodename := bytes]> (kv w).
Proof.
  unfold UpdateNodeCPU. intros Hrun.
  apply bind_Ok in Hrun as (l & w0 & Hcreate & Hrun).
  apply bind_Ok in Hrun as ([] & w1 & Hlock & Hrun).
  apply CreateLock_spec in Hcreate as (Hkv0 & _).
  apply Lock_Lock_spec in Hlock as (Hkv1 & _).
  unfold defer in Hrun.
  match type of Hrun with context [let (_, _) := ?body w1 in _] =>
    destruct (body w1) as [rb wb] eqn:Hbody end.
  injection Hrun as -> <-.
  apply bind_Ok in Hbody as (resp & w2 & Hget & Hbody).
  apply etcd_Get_spec in Hget as (Hkv2 & _ & _ & _ & _ & _ & Hlook).
  specialize (Hlook resp eq_refl).
  destruct (Dir resp) eqn:Hdir; [discriminate|].
  apply bind_Ok in Hbody as (b & w3 & [= Hdoc <-] & Hbody).
  apply bind_Ok in Hbody as ([] & w4 & Hset & [= <-]).
  apply etcd_Set_spec in Hset as (_ & _ & _ & _ & _ & Hkv4).
  apply etcd_lookup_File in Hlook; [|done].
  apply updated_document_Ok in Hdoc as (n & Hdec & Henc).
  exists (Value resp), n, b.
  rewrite Hkv1, Hkv0 in Hlook. split; [done|]. split; [done|]. split; [done|].
  unfold Lock_Unlock, bind, log. simpl. by rewrite Hkv4, Hkv2, Hkv1, Hkv0.
Qed.

(** With no failure pending, the calls to the outside are decided by the
    world alone. *)
Lemma CreateLock_quiet name ttl w :
  faults w = [] → CreateLock name ttl w = (Ok (mkLock name ttl), w).
Proof. intros Hf. unfold CreateLock, bind. by rewrite (outside_quiet _ _ Hf). Qed.

Lemma Lock_Lock_quiet l w :
  faults w = [] → lock_name l ∉ locks w →
  Lock_Lock l w
  = (Ok tt, set_locks ({[lock_name l]} ∪ locks w)
              (set_trace (EvLock (lock_name l) (lock_ttl l) :: trace w) w)).
Proof.
  intros Hf Hfree. unfold Lock_Lock, bind, log.
  rewrite outside_quiet by done. simpl. by destruct (decide _).
Qed.

Lemma etcd_Get_quiet key w n :
  faults w = [] → etcd_lookup (kv w) key = Some n →
  etcd_Get key w = (Ok n, set_trace (EvGet key :: trace w) w).
Proof.
  intros Hf Hlook. unfold etcd_Get, bind, log.
  rewrite outside_quiet by done. simpl. by rewrite Hlook.
Qed.

Lemma etcd_Set_quiet key value w :
  faults w = [] →
  is_Some (kv w !! key) ∨ children (kv w) key = [] →
  below_leaf (kv w) key = false →
  etcd_Set key value w
  = (Ok tt, set_kv (<[key := value]> (kv w))
              (set_trace (EvSet key value :: trace w) w)).
Proof.
  intros Hf Hfile Hbelow. unfold etcd_Set, bind, log.
  rewrite outside_quiet by done. simpl. rewrite Hbelow.
  destruct Hfile as [[v ->] | ->]; [done|]. by destruct (kv w !! key).
Qed.

Lemma UpdateNodeCPU_runs `{codec : JSON} k podname nodename cpu action w value n bytes :
  faults w = [] →
  lockName podname nodename ∉ locks w →
  kv w !! nodeInfoKey podname nodename = Some value →
  below_leaf (kv w) (nodeInfoKey podname nodename) = false →
  json_decode value = Some n →
  json_encode (set_Engine None (apply_action action cpu (set_Engine None n)))
    = Some bytes →
  ∃ w', UpdateNodeCPU k podname nodename cpu action w = (Ok tt, w')
        ∧ kv w' = <[nodeInfoKey podname nodename := bytes]> (kv w)
        ∧ locks w' = locks w
        ∧ trace w' = [EvUnlock (lockName podname nodename);
                      EvSet (nodeInfoKey podname nodename) bytes;
                      EvGet (nodeInfoKey podname nodename);
                      EvLock (lockName podname nodename) 30] ++ trace w
        ∧ faults w' = [].
Proof.
  intros Hfaults Hfree Hleaf Hbelow Hdec Henc.
  unfold UpdateNodeCPU.
  rewrite (bind_step _ _ _ _ _ (CreateLock_quiet _ _ _ Hfaults)).
  rewrite (bind_step _ _ _ _ _ (Lock_Lock_quiet (mkLock (lockName podname nodename) 30) w Hfaults Hfree)).
  unfold defer.
  erewrite bind_step; [|apply etcd_Get_quiet; [done|]; simpl;
                        unfold etcd_lookup; by rewrite Hleaf].
  simpl.
  erewrite bind_step; [|unfold of_result, updated_document, json_Unmarshal,
                          json_Marshal; rewrite Hdec, Henc; reflexivity].
  erewrite bind_step; [|apply etcd_Set_quiet; simpl; [done|left; by rewrite Hleaf|done]].
  eexists. split; [reflexivity|]. simpl. split; [done|].
  split; [|done]. apply set_eq. intros x.
  rewrite elem_of_difference, elem_of_union, elem_of_singleton.
  split; [by intros [[->|?] ?] | intros ?; split; [by right | by intros ->]].
Qed.

(** ** CPU maps *)

(** Both loops visit each label of [q] once and combine the value found
    in [c] (zero when the label is absent) with the value of [q]. *)
Lemma CPUMap_fold_lookup (op : Z → Z → Z) (c q : CPUMap) (label : string) :
  map_fold (λ l v acc, <[l := op (default 0%Z (acc !! l)) v]> acc) c q !! label
  = match q !! label with
    | Some d => Some (op (default 0%Z (c !! label)) d)
    | None => c !! label
    end.
Proof.
  revert label.
  apply (map_fold_weak_ind
           (λ r m, ∀ label,
              r !! label = match m !! label with
                           | Some d => Some (op (default 0%Z (c !! label)) d)
                           | None => c !! label
                           end)).
  - intros label. by rewrite lookup_empty.
  - intros i x m r Hfresh IH label.
    destruct (decide (i = label)) as [->|Hne].
    + rewrite !lookup_insert_eq. by rewrite IH, Hfresh.
    + rewrite !lookup_insert_ne by done. apply IH.
Qed.

Lemma CPUMap_Add_lookup (c q : CPUMap) (label : string) :
  CPUMap_Add c q !! label
  = match q !! label with
    | Some d => Some (default 0 (c !! label) + d)%Z
    | None => c !! label
    end.
Proof. apply (CPUMap_fold_lookup Z.add). Qed.

Lemma CPUMap_Sub_lookup (c q : CPUMap) (label : string) :
  CPUMap_Sub c q !! label
  = match q !! label with
    | Some d => Some (default 0 (c !! label) - d)%Z
    | None => c !! label
    end.
Proof. apply (CPUMap_fold_lookup Z.sub). Qed.

Lemma apply_action_other_fields action cpu n :
  let n' := apply_action action cpu n in
  Name n' = Name n ∧ Endpoint n' = Endpoint n ∧ Podname n' = Podname n
  ∧ Public n' = Public n ∧ InitCPU n' = InitCPU n ∧ MemCap n' = MemCap n
  ∧ InitMemCap n' = InitMemCap n ∧ Engine n' = Engine n.
Proof.
  unfold apply_action.
  destruct (_ || _); [done|]. destruct (_ || _); done.
Qed.

(** C2.  A successful [UpdateNodeCPU] found a document [n] at the node's
    key and stored at that key, and nowhere else, the encoding of a
    document [n'] that agrees with [n] on every field but [CPU].  Under
    [add] or [+], [CPU n'] holds at every label of the delta the old
    value (zero for a label the node did not have, which is thereby
    created) plus the delta's; under [sub] or [-], the old value minus the
    delta's, as an integer, however small; labels outside the delta keep
    their entry. *)
Theorem UpdateNodeCPU_applies_delta `{codec : JSON} (k : krypton)
    (podname nodename : string) (cpu : CPUMap) (action : string) (w w' : World) :
  UpdateNodeCPU k podname nodename cpu action w = (Ok tt, w') →
  ∃ value n n' bytes,
    kv w !! nodeInfoKey podname nodename = Some value
    ∧ json_decode value = Some n
    ∧ json_encode n' = Some bytes
    ∧ kv w' = <[nodeInfoKey podname nodename := bytes]> (kv w)
    ∧ (Name n' = Name n ∧ Endpoint n' = Endpoint n ∧ Podname n' = Podname n
       ∧ Public n' = Public n ∧ InitCPU n' = InitCPU n ∧ MemCap n' = MemCap n
       ∧ InitMemCap n' = InitMemCap n)
    ∧ (action = "add" ∨ action = "+" →
       ∀ label, CPU n' !! label
                = match cpu !! label with
                  | Some d => Some (default 0 (CPU n !! label) + d)%Z
                  | None => CPU n !! label
                  end)
    ∧ (action = "sub" ∨ action = "-" →
       ∀ label, CPU n' !! label
                = match cpu !! label with
                  | Some d => Some (default 0 (CPU n !! label) - d)%Z
                  | None => CPU n !! label
                  end).
Proof.
  intros Hrun.
  apply UpdateNodeCPU_Ok_inv in Hrun as (value & n & bytes & Hleaf & Hdec & Henc & Hkv).
  exists value, n, (set_Engine None (apply_action action cpu (set_Engine None n))), bytes.
  split; [done|]. split; [done|]. split; [done|]. split; [done|].
  split.
  { pose proof (apply_action_other_fields action cpu (set_Engine None n)) as H.
    simpl in H. destruct H as (? & ? & ? & ? & ? & ? & ? & _). done. }
  unfold apply_action. split.
  - intros [-> | ->]; simpl; intros label; apply CPUMap_Add_lookup.
  - intros [-> | ->]; simpl; intros label; apply CPUMap_Sub_lookup.
Qed.

(** The second step of the end-to-end scenario: five shares taken from
    core 0 of the registered node. *)
Lemma UpdateNodeCPU_applies_delta_witness :
  ∃ value n n' bytes,
    kv Demo.registered !! nodeInfoKey "default" "nodeX" = Some value
    ∧ LineCodec.decode value = Some n
    ∧ LineCodec.encode n' = Some bytes
    ∧ kv (UpdateNodeCPU (codec := LineCodec.codec) Demo.k "default" "nodeX"
            {[ "0" := 5%Z ]} "sub" Demo.registered).2
      = <[nodeInfoKey "default" "nodeX" := bytes]> (kv Demo.registered)
    ∧ (Name n' = Name n ∧ Endpoint n' = Endpoint n ∧ Podname n' = Podname n
       ∧ Public n' = Public n ∧ InitCPU n' = InitCPU n ∧ MemCap n' = MemCap n
       ∧ InitMemCap n' = InitMemCap n)
    ∧ ("sub" = "add" ∨ "sub" = "+" →
       ∀ label, CPU n' !! label
                = match ({[ "0" := 5%Z ]} : CPUMap) !! label with
                  | Some d => Some (default 0 (CPU n !! label) + d)%Z
                  | None => CPU n !! label
                  end)
    ∧ ("sub" = "sub" ∨ "sub" = "-" →
       ∀ label, CPU n' !! label
                = match ({[ "0" := 5%Z ]} : CPUMap) !! label with
                  | Some d => Some (default 0 (CPU n !! label) - d)%Z
                  | None => CPU n !! label
                  end).
Proof.
  apply (UpdateNodeCPU_applies_delta (codec := LineCodec.codec) Demo.k
           "default" "nodeX" {[ "0" := 5%Z ]} "sub" Demo.registered).
  vm_compute. reflexivity.
Defined.

(** ** UpdateNodeCPU: actions it does not know *)

Lemma apply_action_unknown action cpu n :
  action ∉ ["add"; "+"; "sub"; "-"] → apply_action action cpu n = n.
Proof.
  intros Hnot. unfold apply_action.
  assert (∀ s, s ∈ ["add"; "+"; "sub"; "-"] → String.eqb action s = false) as Hneq.
  { intros s Hs. apply String.eqb_neq. intros ->. done. }
  rewrite !Hneq by set_solver. done.
Qed.

(** The errors [UpdateNodeCPU] can return are those of the lock, of the
    store and of the codec. *)
Lemma UpdateNodeCPU_Err_kind `{codec : JSON} k podname nodename cpu action w e w' :
  UpdateNodeCPU k podname nodename cpu action w = (Err e, w') →
  kind_of e ∈ [LockContention; StoreFailure; NotFound; Corrupt].
Proof.
  unfold UpdateNodeCPU. intros Hrun.
  apply bind_Err in Hrun as [Hcreate | (l & w0 & _ & Hrun)].
  { unfold CreateLock, bind, outside, ret in Hcreate.
    repeat case_match; simplify_eq; set_solver. }
  apply bind_Err in Hrun as [Hlock | ([] & w1 & _ & Hrun)].
  { unfold Lock_Lock, bind, log, outside in Hlock. simpl in Hlock.
    repeat case_match; simplify_eq; set_solver. }
  unfold defer in Hrun.
  match type of Hrun with context [let (_, _) := ?body w1 in _] =>
    destruct (body w1) as [rb wb] eqn:Hbody end.
  injection Hrun as -> _.
  apply bind_Err in Hbody as [Hget | (resp & w2 & _ & Hbody)].
  { unfold etcd_Get, bind, log, outside in Hget. simpl in Hget.
    repeat case_match; simplify_eq; set_solver. }
  destruct (Dir resp); [injection Hbody as <- _; set_solver|].
  apply bind_Err in Hbody as [Hdoc | (bytes & w3 & _ & Hbody)].
  { unfold of_result, updated_document, json_Unmarshal, json_Marshal in Hdoc.
    repeat case_match; simplify_eq; set_solver. }
  apply bind_Err in Hbody as [Hset | ([] & w4 & _ & [=])].
  unfold etcd_Set, bind, log, outside in Hset. simpl in Hset.
  repeat case_match; simplify_eq; set_solver.
Qed.

(** C10.  An action other than [add], [+], [sub] and [-] is not
    rejected: no error [UpdateNodeCPU] returns is a validation error; and
    with no failure pending, the lock free and a document [n] stored at the
    node's key, the call reads the key, stores the encoding of [n] itself
    at the same key (these are, with the lock and its release, all the
    calls it makes) and returns success. *)
Theorem UpdateNodeCPU_unknown_action `{codec : JSON} (k : krypton)
    (podname nodename : string) (cpu : CPUMap) (action : string) (w : World) :
  action ∉ ["add"; "+"; "sub"; "-"] →
  (∀ e w', UpdateNodeCPU k podname nodename cpu action w = (Err e, w') →
           kind_of e ≠ ValidationError)
  ∧ (∀ value n bytes,
       faults w = [] →
       lockName podname nodename ∉ locks w →
       kv w !! nodeInfoKey podname nodename = Some value →
       below_leaf (kv w) (nodeInfoKey podname nodename) = false →
       json_decode value = Some n →
       json_encode (set_Engine None n) = Some bytes →
       ∃ w', UpdateNodeCPU k podname nodename cpu action w = (Ok tt, w')
             ∧ kv w' = <[nodeInfoKey podname nodename := bytes]> (kv w)
             ∧ locks w' = locks w
             ∧ trace w' = [EvUnlock (lockName podname nodename);
                           EvSet (nodeInfoKey podname nodename) bytes;
                           EvGet (nodeInfoKey podname nodename);
                           EvLock (lockName podname nodename) 30] ++ trace w).
Proof.
  intros Hunknown. split.
  - intros e w' Hrun Hkind. apply UpdateNodeCPU_Err_kind in Hrun.
    rewrite Hkind in Hrun.
    repeat (apply elem_of_cons in Hrun as [Hrun|Hrun]; [discriminate|]).
    by apply elem_of_nil in Hrun.
  - intros value n bytes Hfaults Hfree Hleaf Hbelow Hdec Henc.
    destruct (UpdateNodeCPU_runs k podname nodename cpu action w value n bytes)
      as (w' & Hrun & Hkv & Hlocks & Htrace & _); try done.
    { rewrite apply_action_unknown by done. done. }
    by exists w'.
Qed.

Lemma UpdateNodeCPU_unknown_action_witness :
  (∀ e w', UpdateNodeCPU (codec := LineCodec.codec) Demo.k "default" "nodeX"
             {[ "0" := 5%Z ]} "mul" Demo.registered = (Err e, w') →
           kind_of e ≠ ValidationError)
  ∧ (∀ value n bytes,
       faults Demo.registered = [] →
       lockName "default" "nodeX" ∉ locks Demo.registered →
       kv Demo.registered !! nodeInfoKey "default" "nodeX" = Some value →
       below_leaf (kv Demo.registered) (nodeInfoKey "default" "nodeX") = false →
       LineCodec.decode value = Some n →
       LineCodec.encode (set_Engine None n) = Some bytes →
       ∃ w', UpdateNodeCPU (codec := LineCodec.codec) Demo.k "default" "nodeX"
               {[ "0" := 5%Z ]} "mul" Demo.registered = (Ok tt, w')
             ∧ kv w' = <[nodeInfoKey "default" "nodeX" := bytes]> (kv Demo.registered)
             ∧ locks w' = locks Demo.registered
             ∧ trace w' = [EvUnlock (lockName "default" "nodeX");
                           EvSet (nodeInfoKey "default" "nodeX") bytes;
                           EvGet (nodeInfoKey "default" "nodeX");
                           EvLock (lockName "default" "nodeX") 30]
                          ++ trace Demo.registered).
Proof.
  apply (UpdateNodeCPU_unknown_action (codec := LineCodec.codec) Demo.k
           "default" "nodeX" {[ "0" := 5%Z ]} "mul" Demo.registered).
  intros Hin. apply list_elem_of_In in Hin. simpl in Hin.
  repeat (destruct Hin as [Hin | Hin]; [discriminate Hin|]). exact Hin.
Defined.

(** ** What the operations leave alone *)

Lemma frame_ret {A} R `{!Reflexive R} (a : A) : frame R (ret a).
Proof. intros w r w' [= _ <-]. done. Qed.

Lemma frame_fail {A} R `{!Reflexive R} e : frame R (fail (A := A) e).
Proof. intros w r w' [= _ <-]. done. Qed.

Lemma frame_bind {A B} R `{!Transitive R} (m : M A) (f : A → M B) :
  frame R m → (∀ a, frame R (f a)) → frame R (bind m f).
Proof.
  intros Hm Hf w r w'. unfold bind.
  destruct (m w) as [[a|e] w1] eqn:Hmw.
  - intros Hfa. etrans; [by eapply Hm | by eapply Hf].
  - intros [= _ <-]. by eapply Hm.
Qed.

Lemma frame_forM_ {A} R `{!PreOrder R} (f : A → M unit) l :
  (∀ a, frame R (f a)) → frame R (forM_ f l).
Proof.
  intros Hf. induction l as [|x l IH]; simpl.
  - apply frame_ret, _.
  - apply frame_bind; [apply _ | apply Hf | intros _; apply IH].
Qed.

Global Instance same_engines_preorder : PreOrder same_engines.
Proof. split; [done | intros w1 w2 w3 H1 H2; unfold same_engines in *; congruence]. Qed.

Create HintDb frame discriminated.

Ltac frame_steps :=
  repeat first
    [ solve [eauto with frame nocore]
    | apply frame_ret; apply _
    | apply frame_fail; apply _
    | apply frame_bind; [apply _ | | intros ?]
    | apply frame_forM_; [apply _ | intros ?]
    | case_match ].

Lemma same_engines_outside e : frame same_engines (outside e).
Proof. intros w r w' H. by apply outside_frame in H as (_ & _ & _ & _ & ? & _). Qed.
Lemma same_engines_log ev : frame same_engines (log ev).
Proof. by intros w r w' [= _ <-]. Qed.
Lemma same_engines_of_result {A} (x : result A) : frame same_engines (of_result x).
Proof. by intros w r w' [= _ <-]. Qed.
Lemma same_engines_etcd_Get key : frame same_engines (etcd_Get key).
Proof. intros w r w' H. by apply etcd_Get_spec in H as (_ & _ & _ & _ & ? & _). Qed.
Lemma same_engines_etcd_Set key v : frame same_engines (etcd_Set key v).
Proof. intros w r w' H. by apply etcd_Set_spec in H as (_ & _ & _ & ? & _). Qed.
Lemma same_engines_Stat p : frame same_engines (os_Stat_IsNotExist p).
Proof. by intros w r w' [= _ <-]. Qed.
Lemma same_engines_MkdirAll p perm : frame same_engines (os_MkdirAll p perm).
Proof.
  unfold os_MkdirAll. frame_steps; auto using same_engines_log, same_engines_outside.
  intros w r w'. repeat case_match; by intros [= _ <-].
Qed.
Lemma same_engines_SaveFile c p perm : frame same_engines (utils_SaveFile c p perm).
Proof.
  unfold utils_SaveFile. frame_steps; auto using same_engines_log, same_engines_outside.
  by intros w r w' [= _ <-].
Qed.
Lemma same_engines_tlsconfig p : frame same_engines (tlsconfig_Client p).
Proof.
  unfold tlsconfig_Client. frame_steps; auto using same_engines_outside.
  intros w r w'. repeat case_match; by intros [= _ <-].
Qed.
Lemma same_engines_NewClient e c a : frame same_engines (engineapi_NewClient e c a).
Proof.
  unfold engineapi_NewClient. frame_steps; auto using same_engines_log, same_engines_outside.
Qed.
Lemma same_engines_Info c t : frame same_engines (client_Info c t).
Proof.
  intros w r w'. unfold client_Info.
  destruct (outside _ w) as [r1 w1] eqn:Hout.
  apply outside_frame in Hout as (_ & _ & _ & _ & He & _).
  repeat case_match; intros [= _ <-]; done.
Qed.
Lemma same_engines_cache_get h : frame same_engines (cache_get h).
Proof. by intros w r w' [= _ <-]. Qed.
Lemma same_engines_cache_set h c : frame same_engines (cache_set h c).
Proof. by intros w r w' [= _ <-]. Qed.

#[export] Hint Resolve same_engines_outside same_engines_log
  same_engines_of_result same_engines_etcd_Get same_engines_etcd_Set
  same_engines_Stat same_engines_MkdirAll same_engines_SaveFile
  same_engines_tlsconfig same_engines_NewClient same_engines_Info
  same_engines_cache_get same_engines_cache_set : frame.

Lemma same_engines_GetPod p : frame same_engines (GetPod p).
Proof. unfold GetPod. frame_steps. Qed.

Lemma same_engines_dumpFromEtcd `{codec : JSON} k p n c :
  frame same_engines (dumpFromEtcd k p n c).
Proof. unfold dumpFromEtcd. frame_steps. Qed.

Lemma same_engines_makeRawClient `{codec : JSON} e c a :
  frame same_engines (makeRawClient e c a).
Proof. unfold makeRawClient. frame_steps. Qed.

Lemma same_engines_makeDockerClient `{codec : JSON} `{net : Net} k p n e force :
  frame same_engines (makeDockerClient k p n e force).
Proof.
  unfold makeDockerClient.
  frame_steps; auto using same_engines_dumpFromEtcd, same_engines_makeRawClient.
Qed.

(** ** AddNode: the initial CPU map *)

Lemma foldl_cpumap_lookup (l : list Z) (acc : CPUMap) (label : string) (v : Z) :
  foldl (λ cpumap i, <[pretty i := 10%Z]> cpumap) acc l !! label = Some v
  ↔ (v = 10%Z ∧ ∃ i, i ∈ l ∧ label = pretty i)
    ∨ ((∀ i, i ∈ l → label ≠ pretty i) ∧ acc !! label = Some v).
Proof.
  revert acc. induction l as [|i l IH]; intros acc.
  - simpl. split; [intros ?; right; split; [intros i Hi; by apply elem_of_nil in Hi | done]|].
    intros [(_ & i & Hi & _) | [_ ?]]; [by apply elem_of_nil in Hi | done].
  - cbn [foldl]. rewrite IH. split.
    + intros [(-> & j & Hj & ->) | [Hnot Hacc]].
      * left. split; [done|]. exists j. split; [by right | done].
      * destruct (decide (label = pretty i)) as [->|Hne].
        -- rewrite lookup_insert_eq in Hacc. injection Hacc as <-.
           left. split; [done|]. exists i. split; [by left | done].
        -- rewrite lookup_insert_ne in Hacc by done.
           right. split; [|done]. intros j [->|Hj]%elem_of_cons; auto.
    + intros [(-> & j & [->|Hj]%elem_of_cons & ->) | [Hnot Hacc]].
      * destruct (decide (i ∈ l)) as [Hin|Hno].
        -- left. eauto.
        -- right. split; [|by rewrite lookup_insert_eq].
           intros j Hj Heq. apply (inj pretty) in Heq as ->. done.
      * left. split; [done|]. eauto.
      * right. split; [intros j Hj; apply Hnot; by right|].
        rewrite lookup_insert_ne; [done|]. intros Heq. by apply (Hnot i); [left|].
Qed.

(** The labels of the initial map are the decimal numerals of the core
    indices, each at 10 shares. *)
Lemma initial_cpumap_lookup (ncpu : Z) (label : string) (v : Z) :
  initial_cpumap ncpu !! label = Some v
  ↔ v = 10%Z ∧ ∃ i : Z, (0 ≤ i < ncpu)%Z ∧ label = pretty i.
Proof.
  unfold initial_cpumap. rewrite foldl_cpumap_lookup, lookup_empty.
  setoid_rewrite elem_of_seqZ. split.
  - intros [(-> & i & ? & ->) | [_ ?]]; [|done]. split; [done|]. exists i. split; [lia|done].
  - intros (-> & i & ? & ->). left. split; [done|]. exists i. split; [lia|done].
Qed.

Lemma initial_cpumap_S (n : nat) :
  initial_cpumap (Z.of_nat (S n))
  = <[pretty (Z.of_nat n) := 10%Z]> (initial_cpumap (Z.of_nat n)).
Proof.
  unfold initial_cpumap. rewrite seqZ_S, foldl_app. simpl. done.
Qed.

Lemma initial_cpumap_size (ncpu : Z) : size (initial_cpumap ncpu) = Z.to_nat ncpu.
Proof.
  destruct (decide (ncpu ≤ 0)%Z) as [Hle|Hgt].
  { unfold initial_cpumap. rewrite seqZ_nil by done. simpl.
    rewrite map_size_empty. lia. }
  rewrite <- (Z2Nat.id ncpu) at 1 by lia.
  generalize (Z.to_nat ncpu) as n. clear. induction n as [|n IH].
  - done.
  - rewrite initial_cpumap_S, map_size_insert_None, IH; [done|].
    destruct (initial_cpumap (Z.of_nat n) !! pretty (Z.of_nat n)) as [v|] eqn:Hl; [|done].
    apply initial_cpumap_lookup in Hl as (_ & i & Hi & Heq).
    apply (inj pretty) in Heq. lia.
Qed.

Lemma client_Info_Ok c timeout w info w' :
  client_Info c timeout w = (Ok info, w') →
  engines w !! cli_endpoint c = Some (NCPU info)
  ∧ kv w' = kv w
  ∧ trace w' = EvInfo c timeout true :: trace w.
Proof.
  unfold client_Info.
  destruct (outside _ w) as [r1 w1] eqn:Hout.
  apply outside_frame in Hout as (Hkv & _ & _ & _ & He & Ht).
  destruct r1; [|discriminate].
  destruct (engines w1 !! cli_endpoint c) as [n|] eqn:Hn; [|discriminate].
  intros [= <- <-]. simpl. by rewrite <- He, Hkv, Ht.
Qed.

(** A successful [AddNode] asked the engine behind the client it built
    for its core count, and stored at the node's key the encoding of the
    node it returns. *)
Lemma AddNode_Ok_inv `{codec : JSON} `{net : Net} k name endpoint podname cafile certfile keyfile
    public w node w' :
  AddNode k name endpoint podname cafile certfile keyfile public w = (Ok node, w') →
  ∃ engine ncpu bytes,
    engines w !! cli_endpoint engine = Some ncpu
    ∧ node = mkNode name endpoint podname public (initial_cpumap ncpu) ∅ 0 0
               (Some engine)
    ∧ json_encode (set_Engine None node) = Some bytes
    ∧ kv w' !! nodeInfoKey podname name = Some bytes.
Proof.
  unfold AddNode. destruct (negb _); [discriminate|]. intros Hrun.
  apply bind_Ok in Hrun as (pod & w1 & Hpod & Hrun).
  apply same_engines_GetPod in Hpod.
  apply bind_Ok in Hrun as ([] & w2 & Htls & Hrun).
  assert (same_engines w1 w2) as Htls'.
  { match type of Htls with ?m w1 = _ =>
      assert (frame same_engines m) as Hframe by frame_steps end.
    by eapply Hframe. }
  apply bind_Ok in Hrun as (engine & w3 & Hcli & Hrun).
  apply same_engines_makeDockerClient in Hcli.
  apply bind_Ok in Hrun as (info & w4 & Hinfo & Hrun).
  apply client_Info_Ok in Hinfo as (Hncpu & _ & _).
  apply bind_Ok in Hrun as (b & w5 & [= Hmar <-] & Hrun).
  apply bind_Ok in Hrun as ([] & w6 & Hset & [= <- <-]).
  unfold json_Marshal in Hmar.
  destruct (json_encode _) as [b'|] eqn:Henc; [|discriminate].
  injection Hmar as <-.
  apply etcd_Set_spec in Hset as (_ & _ & _ & _ & _ & Hkv). simpl in Hkv.
  exists engine, (NCPU info), b'. split.
  { unfold same_engines in *. congruence. }
  split; [done|]. split; [done|]. by rewrite Hkv, lookup_insert_eq.
Qed.

(** C4 (amended).  A successful [AddNode] whose engine reports [ncpu]
    cores stores at the node's key the encoding of a document whose [CPU]
    map has exactly the labels [0] to [ncpu - 1] in decimal, [ncpu] entries
    in all, each at 10 shares.  [InitCPU] is not set by [AddNode]: the
    document carries an empty [InitCPU] map. *)
Theorem AddNode_seeds_CPU `{codec : JSON} `{net : Net} (k : krypton)
    (name endpoint podname cafile certfile keyfile : string) (public : bool)
    (w w' : World) (node : Node) :
  AddNode k name endpoint podname cafile certfile keyfile public w = (Ok node, w') →
  ∃ engine ncpu doc bytes,
    Engine node = Some engine
    ∧ engines w !! cli_endpoint engine = Some ncpu
    ∧ doc = set_Engine None node
    ∧ json_encode doc = Some bytes
    ∧ kv w' !! nodeInfoKey podname name = Some bytes
    ∧ (∀ label v, CPU doc !! label = Some v
                  ↔ v = 10%Z ∧ ∃ i : Z, (0 ≤ i < ncpu)%Z ∧ label = pretty i)
    ∧ size (CPU doc) = Z.to_nat ncpu
    ∧ InitCPU doc = ∅.
Proof.
  intros Hrun.
  apply AddNode_Ok_inv in Hrun as (engine & ncpu & bytes & Hncpu & -> & Henc & Hkv).
  exists engine, ncpu, (mkNode name endpoint podname public (initial_cpumap ncpu) ∅ 0 0 None), bytes.
  simpl. split; [done|]. split; [done|]. split; [done|]. split; [done|].
  split; [done|]. split; [apply initial_cpumap_lookup|].
  split; [apply initial_cpumap_size | done].
Qed.

(** The first step of the end-to-end scenario. *)
Lemma AddNode_seeds_CPU_witness :
  ∃ engine ncpu doc bytes,
    Engine (mkNode "nodeX" Demo.endpoint "default" false (initial_cpumap 4) ∅ 0 0
              (Some (mkClient Demo.endpoint "" "v1.23"))) = Some engine
    ∧ engines Demo.fresh !! cli_endpoint engine = Some ncpu
    ∧ doc = set_Engine None
              (mkNode "nodeX" Demo.endpoint "default" false (initial_cpumap 4) ∅ 0 0
                 (Some (mkClient Demo.endpoint "" "v1.23")))
    ∧ LineCodec.encode doc = Some bytes
    ∧ kv (AddNode (codec := LineCodec.codec) (net := PlainNet.net)
        Demo.k "nodeX" Demo.endpoint "default"
            "" "" "" false Demo.fresh).2 !! nodeInfoKey "default" "nodeX" = Some bytes
    ∧ (∀ label v, CPU doc !! label = Some v
                  ↔ v = 10%Z ∧ ∃ i : Z, (0 ≤ i < ncpu)%Z ∧ label = pretty i)
    ∧ size (CPU doc) = Z.to_nat ncpu
    ∧ InitCPU doc = ∅.
Proof.
  apply (AddNode_seeds_CPU (codec := LineCodec.codec) (net := PlainNet.net)
      Demo.k "nodeX" Demo.endpoint
           "default" "" "" "" false Demo.fresh).
  vm_compute. reflexivity.
Defined.

(** C4, as stated, fails: in the end-to-end scenario the engine reports
    four cores, the stored document has its four [CPU] entries, and its
    [InitCPU] is not equal to its [CPU]. *)
Lemma AddNode_InitCPU_counterexample :
  ∃ node w' bytes doc,
    AddNode (codec := LineCodec.codec) (net := PlainNet.net) Demo.k "nodeX" Demo.endpoint "default"
      "" "" "" false Demo.fresh = (Ok node, w')
    ∧ engines Demo.fresh !! Demo.endpoint = Some 4%Z
    ∧ kv w' !! nodeInfoKey "default" "nodeX" = Some bytes
    ∧ LineCodec.decode bytes = Some doc
    ∧ size (CPU doc) = 4
    ∧ InitCPU doc ≠ CPU doc
    ∧ InitCPU node ≠ CPU node.
Proof.
  eexists _, _, _, _.
  split; [vm_compute; reflexivity|].
  split; [vm_compute; reflexivity|].
  split; [vm_compute; reflexivity|].
  split; [vm_compute; reflexivity|].
  split; [vm_compute; reflexivity|].
  split; intros Heq; apply (f_equal size) in Heq; vm_compute in Heq; discriminate.
Qed.

(** ** makeDockerClient: the liveness probe *)

(** C7.  Whatever [makeDockerClient] returns, and whether the client
    came from the cache or was just built: a returned client [c] answered
    an [Info] call bounded by five seconds, and that call is the last thing
    that happened before the return; an error, be it of the construction or
    of the probe, makes the [GetNode] that asked for the client fail with
    that error, and so return no node. *)
Theorem makeDockerClient_probed `{codec : JSON} `{net : Net} (k : krypton)
    (podname nodename endpoint : string) (force : bool)
    (w w' : World) (r : result Client) :
  makeDockerClient k podname nodename endpoint force w = (r, w') →
  match r with
  | Ok c =>
      is_Some (engines w' !! cli_endpoint c)
      ∧ ∃ earlier, trace w' = EvInfo c (Some 5%Z) true :: earlier
  | Err e =>
      ∀ w0 resp n,
        etcd_Get (nodeInfoKey podname nodename) w0 = (Ok resp, w) →
        Dir resp = false →
        json_decode (Value resp) = Some n →
        endpoint = Endpoint n →
        force = false →
        GetNode k podname nodename w0 = (Err e, w')
  end.
Proof.
  intros Hrun. destruct r as [c|e].
  - unfold makeDockerClient in Hrun.
    apply bind_Ok in Hrun as (uhost & w1 & _ & Hrun).
    apply bind_Ok in Hrun as (host & w2 & _ & Hrun).
    apply bind_Ok in Hrun as (cached & w3 & _ & Hrun).
    apply bind_Ok in Hrun as (client & w4 & _ & Hrun).
    apply bind_Ok in Hrun as (info & w5 & Hinfo & [= <- <-]).
    pose proof (same_engines_Info _ _ _ _ _ Hinfo) as Heng.
    apply client_Info_Ok in Hinfo as (Hup & _ & Htrace).
    split; [rewrite Heng; eauto | eauto].
  - intros w0 resp n Hget Hleaf Hdec -> ->. unfold GetNode.
    rewrite (bind_step _ _ _ _ _ Hget), Hleaf.
    unfold json_Unmarshal. rewrite Hdec.
    rewrite (bind_step _ _ _ (set_Engine None n) w eq_refl).
    apply bind_stop. exact Hrun.
Qed.

(** The registered node of the scenario: no client is cached, one is
    built and probed. *)
Lemma makeDockerClient_probed_witness :
  is_Some (engines (makeDockerClient (net := PlainNet.net) Demo.k "default"
                      "nodeX" Demo.endpoint false Demo.registered).2
           !! cli_endpoint (mkClient Demo.endpoint "" "v1.23"))
  ∧ ∃ earlier,
      trace (makeDockerClient (net := PlainNet.net) Demo.k "default"
               "nodeX" Demo.endpoint false Demo.registered).2
      = EvInfo (mkClient Demo.endpoint "" "v1.23") (Some 5%Z) true :: earlier.
Proof.
  apply (makeDockerClient_probed (codec := LineCodec.codec) (net := PlainNet.net)
      Demo.k "default" "nodeX"
           Demo.endpoint false Demo.registered _
           (Ok (mkClient Demo.endpoint "" "v1.23"))).
  vm_compute. reflexivity.
Defined.

(** The engine of the registered node is down: the probe fails and
    [GetNode] returns its error. *)
Example GetNode_engine_down :
  (GetNode (codec := LineCodec.codec) (net := PlainNet.net)
      Demo.k "default" "nodeX" Demo.engine_down).1
  = Err (ErrEngineInfo Demo.endpoint).
Proof. vm_compute. reflexivity. Qed.

(** ** Listings stop at the first error *)

Lemma GetNodesByPod_range_app `{codec : JSON} `{net : Net} k podname fetched_keys rest acc w ns w1 :
  fetched k podname fetched_keys w ns w1 →
  GetNodesByPod_range k podname (fetched_keys ++ rest) acc w
  = GetNodesByPod_range k podname rest (acc ++ ns) w1.
Proof.
  intros Hfetched. revert acc.
  induction Hfetched as [w|key keys w n w1 ns w2 Hget _ IH]; intros acc.
  - by rewrite app_nil_r.
  - simpl. rewrite Hget, IH. by rewrite <- app_assoc.
Qed.

Lemma GetAllNodes_range_app `{codec : JSON} `{net : Net} k listed_pods rest acc w ns w1 :
  listed k listed_pods w ns w1 →
  GetAllNodes_range k (listed_pods ++ rest) acc w
  = GetAllNodes_range k rest (acc ++ ns) w1.
Proof.
  intros Hlisted. revert acc.
  induction Hlisted as [w|pod pods w ns w1 nss w2 Hlist _ IH]; intros acc.
  - by rewrite app_nil_r.
  - simpl. rewrite Hlist, IH. by rewrite <- app_assoc.
Qed.

(** C8.  [GetNodesByPod]: when the nodes named by the first keys of the
    directory are fetched and [GetNode] fails on the next key, the call
    returns the nodes fetched so far with that error, in the world the
    failed [GetNode] left: the keys that follow are not asked for.
    [GetAllNodes]: when the first pods are listed and [GetNodesByPod] fails
    on the next pod, the call returns the nodes of the pods listed so far
    with that error (whatever the failed listing had gathered of its own
    pod is not part of the result), in the world the failed listing left:
    the pods that follow are not asked for. *)
Theorem listings_fail_fast `{codec : JSON} `{net : Net} (k : krypton) :
  (∀ podname w resp w0 before key after ns w1 e w2,
     etcd_Get (podNodesKey podname) w = (Ok resp, w0) →
     Dir resp = true →
     Nodes resp = before ++ key :: after →
     fetched k podname before w0 ns w1 →
     GetNode k podname (Tail key) w1 = (Err e, w2) →
     GetNodesByPod k podname w = ((ns, Some e), w2))
  ∧ (∀ w pods w0 before pod after ns w1 partial e w2,
       GetAllPods w = (Ok pods, w0) →
       pods = before ++ pod :: after →
       listed k before w0 ns w1 →
       GetNodesByPod k (pod_Name pod) w1 = ((partial, Some e), w2) →
       GetAllNodes k w = ((ns, Some e), w2)).
Proof.
  split.
  - intros podname w resp w0 before key after ns w1 e w2 Hget Hdir Hkeys Hfetched Hfail.
    unfold GetNodesByPod. rewrite Hget, Hdir, Hkeys. simpl.
    rewrite (GetNodesByPod_range_app _ _ _ _ _ _ _ _ Hfetched). simpl.
    by rewrite Hfail.
  - intros w pods w0 before pod after ns w1 partial e w2 Hpods -> Hlisted Hfail.
    unfold GetAllNodes. rewrite Hpods.
    rewrite (GetAllNodes_range_app _ _ _ _ _ _ _ Hlisted). simpl.
    by rewrite Hfail.
Qed.

(** In the pod [default], [nodeX] is fetched and the document of the
    next node does not decode; among the pods, [default] is listed and the
    listing of [prod] fails. *)
Lemma listings_fail_fast_witness :
  (∃ w2, GetNodesByPod (codec := LineCodec.codec) (net := PlainNet.net)
      Demo.k "default" Demo.garbled_node
         = (([Demo.nodeX_live], Some ErrUnmarshal), w2))
  ∧ (∃ w2, GetAllNodes (codec := LineCodec.codec) (net := PlainNet.net) Demo.k Demo.garbled_pod
           = (([Demo.nodeX_live], Some ErrUnmarshal), w2)).
Proof.
  split.
  - eexists.
    eapply (proj1 (listings_fail_fast (codec := LineCodec.codec) (net := PlainNet.net) Demo.k)
              "default" Demo.garbled_node _ _
              [podNodesKey "default" +:+ "/nodeX"]
              (podNodesKey "default" +:+ "/nodeP") []).
    + vm_compute. reflexivity.
    + reflexivity.
    + vm_compute. reflexivity.
    + eapply fetched_cons; [vm_compute; reflexivity | apply fetched_nil].
    + vm_compute. reflexivity.
  - eexists.
    eapply (proj2 (listings_fail_fast (codec := LineCodec.codec) (net := PlainNet.net) Demo.k)
              Demo.garbled_pod _ _ [mkPod "default" ""] (mkPod "prod" "") []).
    + vm_compute. reflexivity.
    + reflexivity.
    + eapply (listed_cons _ _ [] _ [Demo.nodeX_live] _ []);
        [vm_compute; reflexivity | apply listed_nil].
    + vm_compute. reflexivity.
Defined.

(** ** makeDockerClient: when the TLS material is dumped *)

Global Instance same_fs_preorder : PreOrder same_fs.
Proof. split; [done | intros w1 w2 w3 H1 H2; unfold same_fs in *; congruence]. Qed.

Lemma same_fs_outside e : frame same_fs (outside e).
Proof. intros w r w' H. by apply outside_frame in H as (_ & _ & ? & _). Qed.
Lemma same_fs_log ev : frame same_fs (log ev).
Proof. by intros w r w' [= _ <-]. Qed.
Lemma same_fs_tlsconfig p : frame same_fs (tlsconfig_Client p).
Proof.
  unfold tlsconfig_Client. frame_steps; auto using same_fs_outside.
  intros w r w'. repeat case_match; by intros [= _ <-].
Qed.
Lemma same_fs_NewClient e c a : frame same_fs (engineapi_NewClient e c a).
Proof.
  unfold engineapi_NewClient. frame_steps; auto using same_fs_log, same_fs_outside.
Qed.
Lemma same_fs_Info c t : frame same_fs (client_Info c t).
Proof.
  intros w r w'. unfold client_Info.
  destruct (outside _ w) as [r1 w1] eqn:Hout.
  apply outside_frame in Hout as (_ & _ & Hfs & _).
  repeat case_match; intros [= _ <-]; done.
Qed.
Lemma same_fs_cache_set h c : frame same_fs (cache_set h c).
Proof. by intros w r w' [= _ <-]. Qed.

#[export] Hint Resolve same_fs_tlsconfig same_fs_NewClient same_fs_Info
  same_fs_cache_set : frame.


(** C9 (the code departs from it).  TLS is configured, no client is
    cached for the host, and the per-host directory exists without any of
    [ca.pem], [cert.pem] and [key.pem], while etcd holds the three blobs.
    [makeDockerClient] looks at the directory only ([os.Stat] on it), does
    not call [dumpFromEtcd] (nothing is read from etcd, no directory or
    file is written) and fails on the missing files. *)
Theorem makeDockerClient_trusts_existing_directory :
  let dir := filepath_Join (Docker_CertPath Demo.k_tls) "10.0.0.5" in
  let run := makeDockerClient (net := PlainNet.net) Demo.k_tls "default" "nodeX" Demo.endpoint false
               Demo.half_dumped in
  cache Demo.half_dumped !! "10.0.0.5" = None
  ∧ fs Demo.half_dumped !! dir = Some FsDir
  ∧ is_file (fs Demo.half_dumped) (filepath_Join dir "ca.pem") = false
  ∧ is_file (fs Demo.half_dumped) (filepath_Join dir "cert.pem") = false
  ∧ is_file (fs Demo.half_dumped) (filepath_Join dir "key.pem") = false
  ∧ kv Demo.half_dumped !! nodeCaKey "default" "nodeX" = Some "CA"
  ∧ kv Demo.half_dumped !! nodeCertKey "default" "nodeX" = Some "CERT"
  ∧ kv Demo.half_dumped !! nodeKeyKey "default" "nodeX" = Some "KEY"
  ∧ run.1 = Err (ErrTLSConfig dir)
  ∧ trace run.2 = [EvStat dir]
  ∧ fs run.2 = fs Demo.half_dumped.
Proof. cbv zeta. split_and!; vm_compute; reflexivity. Qed.

(** The same world without the directory: the material is dumped, the
    client is built over it and answers the probe. *)
Example makeDockerClient_dumps_into_missing_directory :
  let dir := filepath_Join (Docker_CertPath Demo.k_tls) "10.0.0.5" in
  let run := makeDockerClient (net := PlainNet.net) Demo.k_tls "default" "nodeX" Demo.endpoint false
               (set_fs ∅ Demo.half_dumped) in
  run.1 = Ok (mkClient Demo.endpoint dir "v1.23")
  ∧ fs run.2 !! filepath_Join dir "ca.pem" = Some (FsFile "CA" 292)
  ∧ fs run.2 !! filepath_Join dir "cert.pem" = Some (FsFile "CERT" 292)
  ∧ fs run.2 !! filepath_Join dir "key.pem" = Some (FsFile "KEY" 292).
Proof. cbv zeta. split_and!; vm_compute; reflexivity. Qed.

(** ** UpdateNodeCPU under concurrent callers *)

Section Serialized.
Context `{codec : JSON}.
Variables (podname nodename : string).

Local Abbreviation key := (nodeInfoKey podname nodename).
Local Abbreviation name := (lockName podname nodename).

Lemma holders_app ts1 ts2 : holders (ts1 ++ ts2) = holders ts1 + holders ts2.
Proof. induction ts1 as [|ct ts1 IH]; simpl; [done|]. rewrite IH. lia. Qed.

Lemma committed_calls_app ts1 ts2 :
  committed_calls (ts1 ++ ts2) = committed_calls ts1 ++ committed_calls ts2.
Proof.
  induction ts1 as [|ct ts1 IH]; simpl; [done|]. rewrite IH. by destruct (committed _).
Qed.

Lemma holders_0_not_critical ts ct :
  holders ts = 0 → ct ∈ ts → critical ct.2 = false.
Proof.
  induction ts as [|ct' ts IH]; simpl; [by intros _ ?%elem_of_nil|].
  intros Hsum [->|Hin]%elem_of_cons.
  - destruct (critical ct'.2); [lia | done].
  - apply IH; [|done]. destruct (critical ct'.2); lia.
Qed.

Lemma apply_calls_snoc order c value0 value bytes :
  apply_calls order value0 = Ok value →
  updated_document (call_cpu c) (call_action c) value = Ok bytes →
  apply_calls (order ++ [c]) value0 = Ok bytes.
Proof.
  revert value0. induction order as [|c' order IH]; intros value0; simpl.
  - intros [= ->] ->. done.
  - destruct (updated_document _ _ value0); [apply IH | done].
Qed.

Lemma Lock_Lock_locks l w r w' :
  Lock_Lock l w = (r, w') →
  match r with
  | Ok _ => (lock_name l ∉ locks w) ∧ locks w' = {[lock_name l]} ∪ locks w
  | Err _ => locks w' = locks w
  end.
Proof.
  unfold Lock_Lock, bind, log. simpl.
  destruct (outside _ _) as [[[]|e] wx] eqn:Hout;
    apply outside_frame in Hout as (_ & Hl & _); simpl in *.
  - destruct (decide _) as [Hin|Hnot]; intros [= <- <-]; simpl; rewrite ?Hl in *; done.
  - intros [= <- <-]. done.
Qed.

(** One step of one caller, seen from the invariant: what it does to the
    store, to the lock, and to the caller's own standing. *)
Lemma thread_step_spec c t w t' w' value :
  thread_step podname nodename c t w = Some (t', w') →
  kv w !! key = Some value →
  (∀ l, thread_lock t = Some l → lock_name l = name) →
  (∀ l, thread_lock t' = Some l → lock_name l = name)
  ∧ match t, t' with
    | AtStart, (Created _ | Returned (Err _))
    | Created _, Returned (Err _) =>
        kv w' = kv w ∧ locks w' = locks w
    | Created _, Holding _ =>
        kv w' = kv w ∧ (name ∉ locks w) ∧ locks w' = {[name]} ∪ locks w
    | Holding _, Writing _ bytes =>
        kv w' = kv w ∧ locks w' = locks w
        ∧ updated_document (call_cpu c) (call_action c) value = Ok bytes
    | Holding _, Releasing _ (Err _) =>
        kv w' = kv w ∧ locks w' = locks w
    | Writing _ bytes, Releasing _ (Ok _) =>
        kv w' = <[key := bytes]> (kv w) ∧ locks w' = locks w
    | Writing _ _, Releasing _ (Err _) =>
        kv w' = kv w ∧ locks w' = locks w
    | Releasing _ r, Returned r' =>
        r' = r ∧ kv w' = kv w ∧ locks w' = locks w ∖ {[name]}
    | _, _ => False
    end.
Proof.
  intros Hstep Hvalue Hlock. destruct t as [|l|l|l bytes|l r|r]; simpl in Hstep.
  - destruct (CreateLock _ _ w) as [[l|e] w1] eqn:Hcreate; injection Hstep as <- <-;
      apply CreateLock_spec in Hcreate as (Hkv & Hl & _ & Hmk).
    + split; [|done]. intros l' [= <-]. by rewrite (Hmk l eq_refl).
    + done.
  - pose proof (Hlock l eq_refl) as Hname.
    destruct (Lock_Lock l w) as [[[]|e] w1] eqn:Hacq; injection Hstep as <- <-;
      pose proof (Lock_Lock_spec _ _ _ _ Hacq) as (Hkv & _);
      apply Lock_Lock_locks in Hacq; rewrite ?Hname in Hacq.
    + split; [by intros l' [= <-]|]. by destruct Hacq.
    + done.
  - pose proof (Hlock l eq_refl) as Hname.
    unfold read_phase in Hstep.
    destruct (bind _ _ w) as [[bytes|e] w1] eqn:Hread; injection Hstep as <- <-.
    + split; [by intros l' [= <-]|].
      apply bind_Ok in Hread as (resp & w2 & Hget & Hread).
      apply etcd_Get_spec in Hget as (Hkv & Hl & _ & _ & _ & _ & Hlook).
      specialize (Hlook resp eq_refl). unfold etcd_lookup in Hlook.
      rewrite Hvalue in Hlook. injection Hlook as <-. simpl in Hread.
      injection Hread as Hdoc <-. done.
    + split; [by intros l' [= <-]|].
      apply bind_Err in Hread as [Hget | (resp & w2 & Hget & Hread)];
        apply etcd_Get_spec in Hget as (Hkv & Hl & _); [done|].
      destruct (Dir resp); by injection Hread as _ <-.
  - pose proof (Hlock l eq_refl) as Hname.
    destruct (etcd_Set _ _ w) as [[[]|e] w1] eqn:Hset; injection Hstep as <- <-;
      apply etcd_Set_spec in Hset as (Hl & _ & _ & _ & _ & Hkv);
      (split; [by intros l' [= <-]|]); done.
  - pose proof (Hlock l eq_refl) as Hname. injection Hstep as <- <-.
    split; [done|]. simpl. by rewrite Hname.
  - done.
Qed.

Lemma committed_calls_cons ct ts :
  committed_calls (ct :: ts)
  = (if committed ct.2 then [ct.1] else []) ++ committed_calls ts.
Proof. simpl. by destruct (committed _). Qed.

Local Ltac keep_writers :=
  apply Forall_app; split;
  [done | apply Forall_cons; split; [simpl; intros ? ? ?; simplify_eq | done]].

Lemma serialized_step value0 s s' :
  serialized podname nodename value0 s → sys_step podname nodename s s' → serialized podname nodename value0 s'.
Proof.
  intros (Hlocks & Hme & Hheld & order & value & Hkv & Happly & Hperm & Hwr) Hstep.
  destruct Hstep as [before c t after w t' w' Hstep]. simpl in *.
  apply Forall_app in Hlocks as (Hlb & [Hlt Hla]%Forall_cons).
  apply Forall_app in Hwr as (Hwb & [Hwt Hwa]%Forall_cons).
  rewrite holders_app in Hme, Hheld. simpl in *.
  rewrite committed_calls_app, committed_calls_cons in Hperm. simpl in Hperm.
  destruct (thread_step_spec c t w t' w' value Hstep Hkv Hlt) as [Hlt' Hcase].
  unfold serialized. simpl.
  rewrite holders_app, committed_calls_app, committed_calls_cons. simpl.
  split; [apply Forall_app; split; [done | by apply Forall_cons]|].
  (* the steps that neither write nor touch the lock *)
  assert (∀ P : Prop, P → P) as _ by done.
  destruct t as [|l|l|l bytes|l r|r], t' as [|l'|l'|l' bytes'|l' [[]|e']|[[]|e']];
    try (exfalso; exact Hcase); simpl in *.
  - (* CreateLock succeeded *)
    destruct Hcase as [Hkv' Hl']. rewrite Hkv', Hl'.
    split; [done|]. split; [done|]. exists order, value.
    repeat split; try done.
    keep_writers.
  - (* CreateLock failed *)
    destruct Hcase as [Hkv' Hl']. rewrite Hkv', Hl'.
    split; [done|]. split; [done|]. exists order, value.
    repeat split; try done.
    keep_writers.
  - (* Lock succeeded: nobody held the lock *)
    destruct Hcase as (Hkv' & Hfree & Hl'). rewrite Hkv', Hl'.
    assert (holders before + holders after = 0) as Hnone.
    { destruct (decide (0 < holders before + holders after)) as [Hsome|]; [|lia].
      exfalso. apply Hfree, Hheld. lia. }
    split; [lia|]. split; [intros _; apply elem_of_union; left; by apply elem_of_singleton|]. exists order, value.
    repeat split; try done.
    keep_writers.
  - (* Lock failed *)
    destruct Hcase as [Hkv' Hl']. rewrite Hkv', Hl'.
    split; [done|]. split; [done|]. exists order, value.
    repeat split; try done.
    keep_writers.
  - (* read and computed *)
    destruct Hcase as (Hkv' & Hl' & Hdoc). rewrite Hkv', Hl'.
    split; [done|]. split; [done|]. exists order, value.
    repeat split; try done.
    apply Forall_app; split; [done | apply Forall_cons; split; [|done]].
    simpl. by intros ? ? [= _ <-].
  - (* read failed *)
    destruct Hcase as [Hkv' Hl']. rewrite Hkv', Hl'.
    split; [done|]. split; [done|]. exists order, value.
    repeat split; try done.
    keep_writers.
  - (* written: this caller is the one holder *)
    destruct Hcase as [Hkv' Hl']. rewrite Hkv', Hl'.
    assert (holders before = 0 ∧ holders after = 0) as [Hb Ha] by lia.
    split; [done|]. split; [done|]. exists (order ++ [c]), bytes.
    split; [by rewrite lookup_insert_eq|].
    split; [by eapply apply_calls_snoc, Hwt|].
    split.
    { simpl. by rewrite <- Permutation_cons_append, <- Permutation_middle, Hperm. }
    apply Forall_app; split; [|apply Forall_cons; split; [done|]].
    + apply Forall_forall. intros ct Hin l0 b0 Heq.
      apply (holders_0_not_critical _ _ Hb) in Hin. by rewrite Heq in Hin.
    + apply Forall_forall. intros ct Hin l0 b0 Heq.
      apply (holders_0_not_critical _ _ Ha) in Hin. by rewrite Heq in Hin.
  - (* write failed *)
    destruct Hcase as [Hkv' Hl']. rewrite Hkv', Hl'.
    split; [done|]. split; [done|]. exists order, value.
    repeat split; try done.
    keep_writers.
  - (* released after a write *)
    destruct Hcase as (<- & Hkv' & Hl'). rewrite Hkv'. simpl in *.
    split; [lia|]. split; [lia|]. exists order, value.
    repeat split; try done.
    keep_writers.
  - (* released after an error *)
    destruct Hcase as (<- & Hkv' & Hl'). rewrite Hkv'. simpl in *.
    split; [lia|]. split; [lia|]. exists order, value.
    repeat split; try done.
    keep_writers.
Qed.

Lemma sys_step_calls s s' :
  sys_step podname nodename s s' → s'.1.*1 = s.1.*1.
Proof. intros [before c t after w t' w' _]. simpl. by rewrite !fmap_app. Qed.

Lemma committed_calls_returned ts :
  Forall (λ ct, ct.2 = Returned (Ok tt)) ts → committed_calls ts = ts.*1.
Proof.
  induction 1 as [|[c t] ts Hret _ IH]; simpl in *; [done|]. by rewrite Hret, IH.
Qed.

(** A caller on its own goes through [UpdateNodeCPU]: five steps from
    the start leave it returned, with the result and in the world of the
    function. *)
Lemma run_alone_UpdateNodeCPU (k : krypton) (c : Call) (w : World) :
  run_alone podname nodename 5 c AtStart w
  = let (r, w') := UpdateNodeCPU k podname nodename (call_cpu c) (call_action c) w in
    (Returned r, w').
Proof.
  unfold UpdateNodeCPU, bind at 1. cbn [run_alone thread_step].
  destruct (CreateLock _ _ w) as [[l|e] w0]; [|done].
  unfold bind at 1. cbn [run_alone thread_step].
  destruct (Lock_Lock l w0) as [[[]|e] w1]; [|done].
  cbn [run_alone thread_step]. unfold defer, read_phase, bind, of_result.
  destruct (etcd_Get _ w1) as [[resp|e] w2]; [|done].
  destruct (Dir resp); [done|].
  destruct (updated_document _ _ _) as [bytes|e]; [|done].
  cbn [thread_step].
  destruct (etcd_Set _ _ w2) as [[[]|e] w3]; done.
Qed.

Lemma holders_start (calls : list Call) :
  holders ((λ c, (c, AtStart)) <$> calls) = 0.
Proof. induction calls; simpl; done. Qed.

Lemma committed_calls_start (calls : list Call) :
  committed_calls ((λ c, (c, AtStart)) <$> calls) = [].
Proof. induction calls; simpl; done. Qed.

Lemma step_at_rtc i s : rtc (sys_step podname nodename) s (step_at podname nodename i s).
Proof.
  unfold step_at. destruct s as [ts w]. simpl.
  destruct (ts !! i) as [[c t]|] eqn:Hi; [|done].
  destruct (thread_step _ _ c t w) as [[t' w']|] eqn:Hstep; [|done].
  apply rtc_once.
  rewrite <- (take_drop_middle ts i (c, t) Hi) at 1.
  rewrite insert_take_drop by (by eapply lookup_lt_Some).
  by constructor.
Qed.

Lemma run_schedule_rtc schedule s :
  rtc (sys_step podname nodename) s (run_schedule podname nodename schedule s).
Proof.
  revert s. induction schedule as [|i schedule IH]; intros s; simpl; [done|].
  etrans; [apply step_at_rtc | apply IH].
Qed.

Lemma below_leaf_true (store : gmap string string) (k0 : string) :
  below_leaf store k0 = true ↔ ∃ k, is_Some (store !! k) ∧ under k k0 = true.
Proof.
  unfold below_leaf. rewrite existsb_exists. split.
  - intros (k & Hin & Hunder). exists k. split; [|done].
    apply list_elem_of_In, list_elem_of_fmap in Hin as ([k' v] & -> & Hin).
    apply elem_of_map_to_list in Hin. simpl. eauto.
  - intros (k & [v Hv] & Hunder). exists k. split; [|done].
    apply list_elem_of_In, list_elem_of_fmap. exists (k, v).
    split; [done|]. by apply elem_of_map_to_list.
Qed.

Lemma below_leaf_overwrite (store : gmap string string) (k0 k1 value value' : string) :
  store !! k1 = Some value →
  below_leaf (<[k1 := value']> store) k0 = below_leaf store k0.
Proof.
  intros Hold.
  assert (∀ k, is_Some (<[k1 := value']> store !! k) ↔ is_Some (store !! k)) as Hsame.
  { intros k. destruct (decide (k1 = k)) as [<-|Hne].
    - rewrite lookup_insert_eq, Hold. split; eauto.
    - by rewrite lookup_insert_ne. }
  destruct (below_leaf store k0) eqn:Hb.
  - apply below_leaf_true in Hb as (k & Hk & Hunder).
    apply below_leaf_true. exists k. by rewrite Hsame.
  - destruct (below_leaf (<[k1 := value']> store) k0) eqn:Hb'; [|done].
    apply below_leaf_true in Hb' as (k & Hk & Hunder).
    rewrite Hsame in Hk. rewrite <- Hb. symmetry. apply below_leaf_true. eauto.
Qed.

(** The calls of [order] made one after the other through
    [UpdateNodeCPU], with no failure pending and the lock free: all
    succeed, and the bytes they leave at the node's key are those of
    [apply_calls]. *)
Lemma apply_calls_sequential (k : krypton) (order : list Call) (w : World)
    (value0 value' : string) :
  faults w = [] →
  name ∉ locks w →
  kv w !! key = Some value0 →
  below_leaf (kv w) key = false →
  apply_calls order value0 = Ok value' →
  ∃ w', forM_ (λ c, UpdateNodeCPU k podname nodename (call_cpu c) (call_action c))
          order w = (Ok tt, w')
        ∧ kv w' !! key = Some value'.
Proof.
  revert w value0.
  induction order as [|c order IH]; intros w value0 Hquiet Hfree Hvalue Hbelow; simpl.
  - intros [= <-]. by exists w.
  - destruct (updated_document _ _ value0) as [bytes|e] eqn:Hdoc; [|done].
    intros Hrest.
    apply updated_document_Ok in Hdoc as (n & Hdec & Henc).
    destruct (UpdateNodeCPU_runs k podname nodename (call_cpu c) (call_action c)
                w value0 n bytes Hquiet Hfree Hvalue Hbelow Hdec Henc)
      as (w1 & Hrun & Hkv1 & Hlocks1 & _ & Hquiet1).
    rewrite (bind_step _ _ _ _ _ Hrun).
    apply (IH w1 bytes); try done.
    + by rewrite Hlocks1.
    + by rewrite Hkv1, lookup_insert_eq.
    + rewrite Hkv1. by erewrite below_leaf_overwrite.
Qed.

(** The clock may free the name while no caller holds the lock: what the
    callers rely on is untouched. *)
Lemma serialized_timely_step value0 s s' :
  serialized podname nodename value0 s → timely_step podname nodename s s' →
  serialized podname nodename value0 s'.
Proof.
  intros Hinv Hstep.
  destruct Hstep as [s1 s2 Hstep | ts w Hnone]; [by eapply serialized_step|].
  destruct Hinv as (Hlocks & Hme & Hheld & Hrest).
  unfold serialized in *. simpl in *.
  split; [done|]. split; [done|]. split; [lia | done].
Qed.

Lemma timely_step_calls s s' :
  timely_step podname nodename s s' → s'.1.*1 = s.1.*1.
Proof. intros [s1 s2 Hstep | ts w _]; [by eapply sys_step_calls | done]. Qed.

(** On the actions it knows, the code adjusts the CPU map as the
    specification says. *)
Lemma adjust_known c node :
  known_action c = true →
  apply_action (call_action c) (call_cpu c) node = adjust c node.
Proof.
  unfold known_action, apply_action, adjust.
  destruct (String.eqb (call_action c) "add" || String.eqb (call_action c) "+");
    [done|]. simpl. by intros ->.
Qed.

Lemma apply_calls_deltas order value :
  Forall (λ c, known_action c = true) order →
  apply_calls order value = apply_deltas order value.
Proof.
  intros Hknown. revert value.
  induction Hknown as [|c order Hc _ IH]; intros value; simpl; [done|].
  unfold updated_document.
  destruct (json_Unmarshal value) as [node|e]; [|done].
  rewrite (adjust_known _ _ Hc).
  destruct (json_Marshal (adjust c node)) as [value'|e]; [apply IH | done].
Qed.

Lemma run_schedule_timely schedule s :
  rtc (timely_step podname nodename) s (run_schedule podname nodename schedule s).
Proof.
  eapply rtc_subrel; [|apply run_schedule_rtc].
  intros s1 s2 Hstep. by constructor.
Qed.

(** C1.  Any number of callers run [UpdateNodeCPU] on the same pod and
    node, each with its own delta and one of the actions add, +, sub, -,
    their calls to the lock and to etcd interleaved in any way, in a run
    where the lock does not expire under a caller that holds it.  A caller
    is a run of [UpdateNodeCPU], one step per call to the outside.  At
    every point of the run at most one caller is between its [lock.Lock()]
    and its [lock.Unlock()]; and once every caller has returned success,
    the bytes stored at the node's key are those of the sequential
    application of all the deltas in some order, which are also the bytes
    that the same calls to [UpdateNodeCPU], made one after the other in
    that order, leave there: no update is lost. *)
Theorem UpdateNodeCPU_no_lost_update (k : krypton) (calls : list Call) (w : World)
    (value0 : string) (s' : System) :
  kv w !! key = Some value0 →
  Forall (λ c, known_action c = true) calls →
  rtc (timely_step podname nodename) ((λ c, (c, AtStart)) <$> calls, w) s' →
  (∀ c w0, run_alone podname nodename 5 c AtStart w0
           = let (r, w1) := UpdateNodeCPU k podname nodename (call_cpu c)
                              (call_action c) w0 in
             (Returned r, w1))
  ∧ holders s'.1 ≤ 1
  ∧ (Forall (λ ct, ct.2 = Returned (Ok tt)) s'.1 →
     ∃ order value',
       order ≡ₚ calls
       ∧ apply_deltas order value0 = Ok value'
       ∧ kv s'.2 !! key = Some value'
       ∧ ∀ w0, kv w0 = kv w → below_leaf (kv w0) key = false →
               faults w0 = [] → name ∉ locks w0 →
           ∃ w1,
             forM_ (λ c, UpdateNodeCPU k podname nodename (call_cpu c) (call_action c))
               order w0 = (Ok tt, w1)
             ∧ kv w1 !! key = Some value').
Proof.
  destruct s' as [ts' w']. simpl. intros Hvalue Hknown Hrun.
  split; [intros c w0; apply run_alone_UpdateNodeCPU|].
  assert (serialized podname nodename value0 (ts', w') ∧ ts'.*1 = calls) as [Hinv Hcalls].
  { remember ((λ c, (c, AtStart)) <$> calls, w) as s eqn:Hs.
    remember (ts', w') as s' eqn:Hs'.
    assert (serialized podname nodename value0 s ∧ s.1.*1 = calls) as Hstart.
    { subst s. simpl. split.
      - split; [apply Forall_fmap, Forall_forall; by intros c _ l|].
        simpl.
        rewrite holders_start, committed_calls_start.
        split; [lia|]. split; [lia|]. exists [], value0.
        split; [done|]. split; [done|]. split.
        + done.
        + apply Forall_fmap, Forall_forall. by intros c _ l bytes.
      - rewrite <- list_fmap_compose. by rewrite list_fmap_id. }
    clear Hs. revert Hstart Hs'.
    induction Hrun as [s|s1 s2 s3 Hstep _ IH]; intros [Hinv Hcalls] ->; [done|].
    apply IH; [|done]. split; [by eapply serialized_timely_step|].
    by rewrite (timely_step_calls _ _ Hstep). }
  destruct Hinv as (_ & Hone & _ & order & value & Hkv & Happly & Hperm & _).
  simpl in *. split; [done|]. intros Hdone. exists order, value.
  rewrite committed_calls_returned, Hcalls in Hperm by done.
  split; [done|].
  assert (Forall (λ c, known_action c = true) order) as Hknown'
    by by rewrite Hperm.
  split; [by rewrite <- apply_calls_deltas|]. split; [done|].
  intros w0 Hkv0 Hbelow Hquiet Hfree.
  apply (apply_calls_sequential k order w0 value0 value);
    try done; by rewrite Hkv0.
Qed.

End Serialized.

(** The two callers of the scenario, interleaved: both return success,
    and the stored document is the one the two calls produce one after the
    other, through [UpdateNodeCPU] as well. *)
Lemma UpdateNodeCPU_no_lost_update_witness :
  Forall (λ ct, ct.2 = Returned (Ok tt))
    (run_schedule (codec := LineCodec.codec) "default" "nodeX" Demo.schedule
       ((λ c, (c, AtStart)) <$> Demo.calls, Demo.registered)).1
  ∧ ∃ order value',
      order ≡ₚ Demo.calls
      ∧ apply_deltas (codec := LineCodec.codec) order (Demo.document Demo.nodeX)
        = Ok value'
      ∧ kv (run_schedule (codec := LineCodec.codec) "default" "nodeX" Demo.schedule
              ((λ c, (c, AtStart)) <$> Demo.calls, Demo.registered)).2
        !! nodeInfoKey "default" "nodeX" = Some value'
      ∧ ∃ w1,
          forM_ (λ c, UpdateNodeCPU (codec := LineCodec.codec) Demo.k "default" "nodeX"
                        (call_cpu c) (call_action c))
            order Demo.registered = (Ok tt, w1)
          ∧ kv w1 !! nodeInfoKey "default" "nodeX" = Some value'.
Proof.
  assert (Forall (λ ct : Call * Thread, ct.2 = Returned (Ok tt))
            (run_schedule (codec := LineCodec.codec) "default" "nodeX" Demo.schedule
               ((λ c, (c, AtStart)) <$> Demo.calls, Demo.registered)).1) as Hdone.
  { vm_compute. repeat constructor. }
  split; [exact Hdone|].
  destruct (proj2 (proj2 (UpdateNodeCPU_no_lost_update (codec := LineCodec.codec)
                     "default" "nodeX" Demo.k Demo.calls Demo.registered
                     (Demo.document Demo.nodeX) _
                     ltac:(vm_compute; reflexivity)
                     ltac:(repeat constructor)
                     (run_schedule_timely "default" "nodeX" Demo.schedule _))) Hdone)
    as (order & value' & Hperm & Hdeltas & Hstored & Hseq).
  exists order, value'. split_and!; [done..|].
  apply Hseq; [done | vm_compute; reflexivity | done |].
  vm_compute. discriminate.
Defined.

(** When the lock expires under its holder the update of the other
    caller is lost.  The second caller takes the lock and reads; the lock
    expires; the first caller takes it as well, so that two callers are in
    the critical section, takes five shares from core 0 and returns; the
    second caller writes the document it had computed and returns.  Both
    calls succeed, core 0 still has its ten shares, and the stored bytes
    are those of no sequential application of the two deltas. *)
Lemma UpdateNodeCPU_lost_update_counterexample :
  holders (run_turns (codec := LineCodec.codec) "default" "nodeX"
             (take 6 Demo.untimely)
             ((λ c, (c, AtStart)) <$> Demo.calls, Demo.registered)).1 = 2
  ∧ Forall (λ ct, ct.2 = Returned (Ok tt))
      (run_turns (codec := LineCodec.codec) "default" "nodeX" Demo.untimely
         ((λ c, (c, AtStart)) <$> Demo.calls, Demo.registered)).1
  ∧ (∃ value,
       kv (run_turns (codec := LineCodec.codec) "default" "nodeX" Demo.untimely
             ((λ c, (c, AtStart)) <$> Demo.calls, Demo.registered)).2
         !! nodeInfoKey "default" "nodeX" = Some value
       ∧ LineCodec.decode value
         = Some (set_CPU (<[ "1" := 13%Z ]> (initial_cpumap 4)) Demo.nodeX))
  ∧ ∀ order value',
      order ≡ₚ Demo.calls →
      apply_deltas (codec := LineCodec.codec) order (Demo.document Demo.nodeX)
      = Ok value' →
      LineCodec.decode value'
      = Some (set_CPU (<[ "0" := 5%Z ]> (<[ "1" := 13%Z ]> (initial_cpumap 4)))
                Demo.nodeX)
      ∧ kv (run_turns (codec := LineCodec.codec) "default" "nodeX" Demo.untimely
              ((λ c, (c, AtStart)) <$> Demo.calls, Demo.registered)).2
        !! nodeInfoKey "default" "nodeX" ≠ Some value'.
Proof.
  split; [vm_compute; reflexivity|].
  split; [vm_compute; repeat constructor|].
  split; [eexists; split; vm_compute; reflexivity|].
  intros order value' Hperm.
  apply Permutation_sym, Permutation_length_2_inv in Hperm as [-> | ->];
    vm_compute; intros [= <-]; split; [reflexivity | discriminate
                                      | reflexivity | discriminate].
Qed.

Example interleaved_callers_result :
  LineCodec.decode
    (default "" (kv (run_schedule (codec := LineCodec.codec) "default" "nodeX"
                       Demo.schedule
                       ((λ c, (c, AtStart)) <$> Demo.calls, Demo.registered)).2
                 !! nodeInfoKey "default" "nodeX"))
  = Some (set_CPU (<[ "0" := 5%Z ]> (<[ "1" := 13%Z ]> (initial_cpumap 4))) Demo.nodeX).
Proof. vm_compute. reflexivity. Qed.

(** * Further properties of node.go *)

(** ** What the reads leave alone *)

#[export] Instance same_store_preorder : PreOrder same_store.
Proof.
  split; [done|]. intros w1 w2 w3 [? ?] [? ?]. unfold same_store in *. split; congruence.
Qed.

#[export] Instance same_cache_preorder : PreOrder same_cache.
Proof. split; [done | intros w1 w2 w3 H1 H2; unfold same_cache in *; congruence]. Qed.

(** A step that only rewrites parts of the world [R] does not look at. *)
Local Ltac frame_leaf :=
  intros w r w'; repeat case_match; intros; simplify_eq; done.

Lemma same_store_outside e : frame same_store (outside e).
Proof. intros w r w' H. by apply outside_frame in H as (? & ? & _). Qed.
Lemma same_store_log ev : frame same_store (log ev).
Proof. by intros w r w' [= _ <-]. Qed.
Lemma same_store_of_result {A} (x : result A) : frame same_store (of_result x).
Proof. by intros w r w' [= _ <-]. Qed.
Lemma same_store_etcd_Get key : frame same_store (etcd_Get key).
Proof. intros w r w' H. by apply etcd_Get_spec in H as (? & ? & _). Qed.
Lemma same_store_Stat p : frame same_store (os_Stat_IsNotExist p).
Proof. by intros w r w' [= _ <-]. Qed.
Lemma same_store_MkdirAll p perm : frame same_store (os_MkdirAll p perm).
Proof.
  unfold os_MkdirAll. frame_steps; auto using same_store_log, same_store_outside.
  frame_leaf.
Qed.
Lemma same_store_SaveFile c p perm : frame same_store (utils_SaveFile c p perm).
Proof.
  unfold utils_SaveFile. frame_steps; auto using same_store_log, same_store_outside.
  frame_leaf.
Qed.
Lemma same_store_tlsconfig p : frame same_store (tlsconfig_Client p).
Proof.
  unfold tlsconfig_Client. frame_steps; auto using same_store_outside. frame_leaf.
Qed.
Lemma same_store_NewClient e c a : frame same_store (engineapi_NewClient e c a).
Proof.
  unfold engineapi_NewClient. frame_steps; auto using same_store_log, same_store_outside.
Qed.
Lemma same_store_Info c t : frame same_store (client_Info c t).
Proof.
  intros w r w'. unfold client_Info.
  destruct (outside _ w) as [r1 w1] eqn:Hout.
  apply outside_frame in Hout as (? & ? & _).
  repeat case_match; intros [= _ <-]; done.
Qed.
Lemma same_store_cache_get h : frame same_store (cache_get h).
Proof. by intros w r w' [= _ <-]. Qed.
Lemma same_store_cache_set h c : frame same_store (cache_set h c).
Proof. by intros w r w' [= _ <-]. Qed.

#[export] Hint Resolve same_store_outside same_store_log same_store_of_result
  same_store_etcd_Get same_store_Stat same_store_MkdirAll same_store_SaveFile
  same_store_tlsconfig same_store_NewClient same_store_Info same_store_cache_get
  same_store_cache_set : frame.

Lemma same_store_makeDockerClient `{net : Net} k p n e force :
  frame same_store (makeDockerClient k p n e force).
Proof. unfold makeDockerClient, makeRawClient, dumpFromEtcd. frame_steps. Qed.

Lemma same_store_GetNode `{codec : JSON} `{net : Net} k p n : frame same_store (GetNode k p n).
Proof.
  unfold GetNode. frame_steps; try apply same_store_makeDockerClient.
Qed.

Lemma same_store_GetAllPods : frame same_store GetAllPods.
Proof. unfold GetAllPods. frame_steps. Qed.

Lemma same_store_GetNodesByPod_range `{codec : JSON} `{net : Net} k p keys acc w :
  same_store w (GetNodesByPod_range k p keys acc w).2.
Proof.
  revert acc w. induction keys as [|key keys IH]; intros acc w; simpl; [done|].
  destruct (GetNode k p (Tail key) w) as [[n|e] w1] eqn:Hget;
    apply same_store_GetNode in Hget; [|done].
  etrans; [exact Hget | apply IH].
Qed.

Lemma same_store_GetNodesByPod `{codec : JSON} `{net : Net} k p w :
  same_store w (GetNodesByPod k p w).2.
Proof.
  unfold GetNodesByPod.
  destruct (etcd_Get _ w) as [[resp|e] w0] eqn:Hget;
    apply same_store_etcd_Get in Hget; [|done].
  destruct (negb (Dir resp)); [done|].
  etrans; [exact Hget | apply same_store_GetNodesByPod_range].
Qed.

Lemma same_store_GetAllNodes_range `{codec : JSON} `{net : Net} k pods acc w :
  same_store w (GetAllNodes_range k pods acc w).2.
Proof.
  revert acc w. induction pods as [|pod pods IH]; intros acc w; simpl; [done|].
  pose proof (same_store_GetNodesByPod k (pod_Name pod) w) as Hpod.
  destruct (GetNodesByPod k (pod_Name pod) w) as [[ns [e|]] w1]; [done|].
  etrans; [exact Hpod | apply IH].
Qed.

(** X1.  The three reads never write: whatever [GetNode],
    [GetNodesByPod] and [GetAllNodes] return, success or error, the etcd
    keys hold what they held and the set of held locks is the same. *)
Theorem reads_never_write `{codec : JSON} `{net : Net} (k : krypton) (podname nodename : string)
    (w : World) :
  same_store w (GetNode k podname nodename w).2
  ∧ same_store w (GetNodesByPod k podname w).2
  ∧ same_store w (GetAllNodes k w).2.
Proof.
  split; [|split].
  - destruct (GetNode k podname nodename w) as [r w'] eqn:Hget.
    by apply same_store_GetNode in Hget.
  - apply same_store_GetNodesByPod.
  - unfold GetAllNodes.
    destruct (GetAllPods w) as [[pods|e] w0] eqn:Hpods.
    + apply same_store_GetAllPods in Hpods.
      etrans; [exact Hpods | apply same_store_GetAllNodes_range].
    + by apply same_store_GetAllPods in Hpods.
Qed.

(** ** The client cache *)

Lemma makeDockerClient_unparsed `{net : Net} k p n endpoint force w e :
  host_of endpoint = Err e →
  makeDockerClient k p n endpoint force w = (Err e, w).
Proof.
  unfold host_of, makeDockerClient, bind, of_result.
  destruct (url_Host endpoint) as [uhost|e1]; [|by intros [= ->]].
  by intros ->.
Qed.

(** With a client cached for the host and no refresh asked for,
    [makeDockerClient] is the probe of that client. *)
Lemma makeDockerClient_hit `{net : Net} k p n endpoint host c w :
  host_of endpoint = Ok host →
  cache w !! host = Some c →
  makeDockerClient k p n endpoint false w
  = (let* _ := client_Info c (Some 5%Z) in ret c) w.
Proof.
  unfold host_of, makeDockerClient. intros Hhost Hc.
  destruct (url_Host endpoint) as [uhost|e1]; [|done].
  unfold bind at 1, of_result at 1. unfold bind at 1, of_result at 1.
  rewrite Hhost. unfold bind at 1, cache_get. by rewrite Hc.
Qed.

Lemma makeDockerClient_build `{net : Net} k p n endpoint host force w :
  host_of endpoint = Ok host →
  cache w !! host = None ∨ force = true →
  makeDockerClient k p n endpoint force w
  = (let* client := build_client k p n endpoint host in
     let* _ := client_Info client (Some 5%Z) in
     ret client) w.
Proof.
  unfold host_of, makeDockerClient. intros Hhost Hmiss.
  destruct (url_Host endpoint) as [uhost|e1]; [|done].
  unfold bind at 1, of_result at 1. unfold bind at 1, of_result at 1.
  rewrite Hhost. unfold bind at 1, cache_get.
  unfold build_client.
  destruct (cache w !! host) as [c|], force; try done.
  by destruct Hmiss.
Qed.

Local Ltac frame_prim :=
  intros w r w';
  unfold etcd_Get, os_Stat_IsNotExist, os_MkdirAll, utils_SaveFile,
    tlsconfig_Client, engineapi_NewClient, client_Info, cache_get, of_result,
    bind, log, outside, ret, fail;
  simpl; repeat case_match; intros; simplify_eq; done.

Lemma same_cache_etcd_Get key : frame same_cache (etcd_Get key).
Proof. frame_prim. Qed.
Lemma same_cache_Stat p : frame same_cache (os_Stat_IsNotExist p).
Proof. frame_prim. Qed.
Lemma same_cache_MkdirAll p perm : frame same_cache (os_MkdirAll p perm).
Proof. frame_prim. Qed.
Lemma same_cache_SaveFile c p perm : frame same_cache (utils_SaveFile c p perm).
Proof. frame_prim. Qed.
Lemma same_cache_tlsconfig p : frame same_cache (tlsconfig_Client p).
Proof. frame_prim. Qed.
Lemma same_cache_NewClient e c a : frame same_cache (engineapi_NewClient e c a).
Proof. frame_prim. Qed.
Lemma same_cache_Info c t : frame same_cache (client_Info c t).
Proof. frame_prim. Qed.
Lemma same_cache_of_result {A} (x : result A) : frame same_cache (of_result x).
Proof. frame_prim. Qed.

#[export] Hint Resolve same_cache_etcd_Get same_cache_Stat same_cache_MkdirAll
  same_cache_SaveFile same_cache_tlsconfig same_cache_NewClient same_cache_Info
  same_cache_of_result : frame.

Lemma same_cache_dumpFromEtcd k p n dir : frame same_cache (dumpFromEtcd k p n dir).
Proof. unfold dumpFromEtcd. frame_steps. Qed.

Lemma same_cache_makeRawClient e c a : frame same_cache (makeRawClient e c a).
Proof. unfold makeRawClient. frame_steps. Qed.

Lemma raises_only_bind {A B} P (m : M A) (f : A → M B) :
  raises_only P m → (∀ a, raises_only P (f a)) → raises_only P (bind m f).
Proof.
  intros Hm Hf w e w' [Hrun | (a & w1 & _ & Hrun)]%bind_Err; [by eapply Hm | by eapply Hf].
Qed.




Lemma same_cache_certdir k p n dir :
  frame same_cache
    (let* missing := os_Stat_IsNotExist dir in
     let* _ := (if missing then dumpFromEtcd k p n dir else ret tt) in
     ret dir).
Proof.
  apply frame_bind; [apply _ | apply same_cache_Stat | intros missing].
  apply frame_bind; [apply _ | | intros ?; apply frame_ret, _].
  destruct missing; [apply same_cache_dumpFromEtcd | apply frame_ret, _].
Qed.

Lemma build_client_Ok `{net : Net} k p n endpoint host w c w' :
  build_client k p n endpoint host w = (Ok c, w') →
  c = mkClient endpoint (dockerCertPath_of k host) (Docker_APIVersion k)
  ∧ cache w' = <[host := c]> (cache w).
Proof.
  unfold build_client, dockerCertPath_of. intros Hrun.
  apply bind_Ok in Hrun as (dir & w1 & Hdir & Hrun).
  assert (dir = (if String.eqb (Docker_CertPath k) "" then ""
                 else filepath_Join (Docker_CertPath k) host)
          ∧ cache w1 = cache w) as [-> Hc1].
  { destruct (String.eqb (Docker_CertPath k) ""); [by injection Hdir as <- <-|].
    pose proof (same_cache_certdir _ _ _ _ _ _ _ Hdir) as Hc.
    apply bind_Ok in Hdir as (missing & w2 & _ & Hdir).
    by apply bind_Ok in Hdir as ([] & w3 & _ & [= <- <-]). }
  apply bind_Ok in Hrun as (c0 & w2 & Hraw & Hrun).
  pose proof (same_cache_makeRawClient _ _ _ _ _ _ Hraw) as Hc2.
  apply bind_Ok in Hrun as ([] & w3 & [= <-] & [= <- <-]).
  assert (c0 = mkClient endpoint
                 (if String.eqb (Docker_CertPath k) "" then ""
                  else filepath_Join (Docker_CertPath k) host)
                 (Docker_APIVersion k)) as ->.
  { unfold makeRawClient in Hraw.
    apply bind_Ok in Hraw as ([] & w4 & _ & Hnew).
    unfold engineapi_NewClient in Hnew.
    apply bind_Ok in Hnew as ([] & w5 & _ & Hnew).
    by apply bind_Ok in Hnew as ([] & w6 & _ & [= <- _]). }
  split; [done|]. simpl. unfold same_cache in *. congruence.
Qed.



Lemma client_Info_spec c timeout w r w' :
  client_Info c timeout w = (r, w') →
  kv w' = kv w ∧ locks w' = locks w ∧ fs w' = fs w ∧ cache w' = cache w
  ∧ ((∃ info, r = Ok info) ∧ trace w' = EvInfo c timeout true :: trace w
     ∨ r = Err (ErrEngineInfo (cli_endpoint c))
       ∧ trace w' = EvInfo c timeout false :: trace w).
Proof.
  unfold client_Info.
  destruct (outside _ w) as [r1 w1] eqn:Hout.
  apply outside_frame in Hout as (Hkv & Hl & Hfs & Hc & He & Ht).
  destruct r1 as [[]|e1], (engines w1 !! cli_endpoint c) as [n|];
    intros [= <- <-]; simpl; rewrite Hkv, Hl, Hfs, Hc, Ht; eauto 10.
Qed.

Lemma probe_spec c w r w' :
  (let* _ := client_Info c (Some 5%Z) in ret c) w = (r, w') →
  kv w' = kv w ∧ locks w' = locks w ∧ fs w' = fs w ∧ cache w' = cache w
  ∧ (r = Ok c ∧ trace w' = EvInfo c (Some 5%Z) true :: trace w
     ∨ r = Err (ErrEngineInfo (cli_endpoint c))
       ∧ trace w' = EvInfo c (Some 5%Z) false :: trace w).
Proof.
  unfold bind. destruct (client_Info _ _ w) as [r1 w1] eqn:Hinfo.
  apply client_Info_spec in Hinfo as (? & ? & ? & ? & [[[i ->] ?] | [-> ?]]);
    intros [= <- <-]; auto 10.
Qed.

(** X2.  A cache hit.  When a client is cached under the host of the
    endpoint and no refresh is forced, [makeDockerClient] builds nothing: it
    probes the cached client with the five-second deadline and returns that
    client, whatever endpoint, certificate directory and API version it was
    made with; a failed probe is the only error.  The etcd keys, the local
    files and the cache are as they were, and the probe is the only call
    made. *)
Theorem makeDockerClient_reuses_cached `{net : Net} (k : krypton)
    (podname nodename endpoint host : string) (c : Client)
    (w w' : World) (r : result Client) :
  host_of endpoint = Ok host →
  cache w !! host = Some c →
  makeDockerClient k podname nodename endpoint false w = (r, w') →
  kv w' = kv w ∧ fs w' = fs w ∧ cache w' = cache w
  ∧ (r = Ok c ∧ trace w' = EvInfo c (Some 5%Z) true :: trace w
     ∨ r = Err (ErrEngineInfo (cli_endpoint c))
       ∧ trace w' = EvInfo c (Some 5%Z) false :: trace w).
Proof.
  intros Hhost Hhit Hrun.
  rewrite (makeDockerClient_hit _ _ _ _ _ _ _ Hhost Hhit) in Hrun.
  apply probe_spec in Hrun as (? & _ & ? & ? & ?). done.
Qed.

Lemma makeDockerClient_reuses_cached_witness :
  host_of (net := PlainNet.net) Cases.other_port = Ok "10.0.0.5"
  ∧ cache Cases.cached !! "10.0.0.5" = Some (mkClient Demo.endpoint "" "v1.23")
  ∧ (makeDockerClient (net := PlainNet.net)
      Demo.k "default" "nodeX" Cases.other_port false Cases.cached).1
    = Ok (mkClient Demo.endpoint "" "v1.23")
  ∧ cache (makeDockerClient (net := PlainNet.net) Demo.k "default" "nodeX" Cases.other_port false
             Cases.cached).2
    = cache Cases.cached.
Proof.
  assert (host_of (net := PlainNet.net) Cases.other_port = Ok "10.0.0.5") as Hhost by reflexivity.
  assert (cache Cases.cached !! "10.0.0.5" = Some (mkClient Demo.endpoint "" "v1.23"))
    as Hhit by reflexivity.
  destruct (makeDockerClient_reuses_cached (net := PlainNet.net) Demo.k "default" "nodeX"
              Cases.other_port _ _ Cases.cached _ _ Hhost Hhit eq_refl)
    as (_ & _ & Hc & _).
  split_and!; [exact Hhost | exact Hhit | vm_compute; reflexivity | exact Hc].
Defined.





(** What [makeDockerClient] returns is what the cache holds for the host
    of the endpoint. *)
Lemma makeDockerClient_Ok_cached `{net : Net} (k : krypton)
    (podname nodename endpoint : string) (force : bool) (c : Client)
    (w w' : World) :
  makeDockerClient k podname nodename endpoint force w = (Ok c, w') →
  ∃ host, host_of endpoint = Ok host ∧ cache w' !! host = Some c.
Proof.
  intros Hrun.
  destruct (host_of endpoint) as [host|e] eqn:Hhost.
  2: { by rewrite (makeDockerClient_unparsed _ _ _ _ _ _ _ Hhost) in Hrun. }
  exists host. split; [done|].
  assert ((cache w !! host = None ∨ force = true)
          ∨ ∃ c0, cache w !! host = Some c0 ∧ force = false)
    as [Hmiss | (c0 & Hhit & ->)]
    by (destruct (cache w !! host), force; eauto).
  - rewrite (makeDockerClient_build _ _ _ _ _ _ _ Hhost Hmiss) in Hrun.
    apply bind_Ok in Hrun as (c1 & w1 & Hbuild & Hprobe).
    apply probe_spec in Hprobe as (_ & _ & _ & Hc & [[[= ->] _] | [[=] _]]).
    apply build_client_Ok in Hbuild as [_ Hc1].
    by rewrite Hc, Hc1, lookup_insert_eq.
  - rewrite (makeDockerClient_hit _ _ _ _ _ _ _ Hhost Hhit) in Hrun.
    apply probe_spec in Hrun as (_ & _ & _ & Hc & [[[= ->] _] | [[=] _]]).
    by rewrite Hc.
Qed.

(** X5.  One connection per host.  The cache is keyed by the host alone:
    after a successful [makeDockerClient] for an endpoint, a later call
    without refresh for any endpoint with the same host -- another port,
    another pod or node -- that starts from the same cache and succeeds
    returns the very same client, and leaves the cache as it was. *)
Theorem makeDockerClient_shares_connection `{net : Net} (k : krypton)
    (podname nodename endpoint podname' nodename' endpoint' host : string)
    (force : bool) (c c' : Client) (w w1 w2 w3 : World) :
  host_of endpoint = Ok host →
  host_of endpoint' = Ok host →
  makeDockerClient k podname nodename endpoint force w = (Ok c, w1) →
  cache w2 = cache w1 →
  makeDockerClient k podname' nodename' endpoint' false w2 = (Ok c', w3) →
  c' = c ∧ cache w3 = cache w1.
Proof.
  intros Hhost Hhost' Hfirst Hcache Hsecond.
  apply makeDockerClient_Ok_cached in Hfirst as (host1 & Hhost1 & Hc).
  assert (host1 = host) as -> by congruence.
  rewrite <- Hcache in Hc.
  rewrite (makeDockerClient_hit _ _ _ _ _ _ _ Hhost' Hc) in Hsecond.
  apply probe_spec in Hsecond as (_ & _ & _ & Hc3 & [[[= ->] _] | [[=] _]]).
  split; [done | congruence].
Qed.

Lemma makeDockerClient_shares_connection_witness :
  host_of (net := PlainNet.net) Demo.endpoint = Ok "10.0.0.5"
  ∧ host_of (net := PlainNet.net) Cases.other_port = Ok "10.0.0.5"
  ∧ makeDockerClient (net := PlainNet.net)
      Demo.k "default" "nodeX" Demo.endpoint false Demo.registered
    = (Ok (mkClient Demo.endpoint "" "v1.23"), Cases.connected)
  ∧ (makeDockerClient (net := PlainNet.net)
      Demo.k "default" "nodeY" Cases.other_port false Cases.connected).1
    = Ok (mkClient Demo.endpoint "" "v1.23")
  ∧ cache (makeDockerClient (net := PlainNet.net) Demo.k "default" "nodeY" Cases.other_port false
             Cases.connected).2
    = cache Cases.connected.
Proof.
  assert (host_of (net := PlainNet.net) Demo.endpoint = Ok "10.0.0.5") as Hhost by reflexivity.
  assert (host_of (net := PlainNet.net) Cases.other_port = Ok "10.0.0.5") as Hhost' by reflexivity.
  assert (makeDockerClient (net := PlainNet.net)
      Demo.k "default" "nodeX" Demo.endpoint false Demo.registered
          = (Ok (mkClient Demo.endpoint "" "v1.23"), Cases.connected)) as Hfirst
    by (vm_compute; reflexivity).
  assert (makeDockerClient (net := PlainNet.net) Demo.k "default" "nodeY" Cases.other_port false
            Cases.connected
          = (Ok (mkClient Demo.endpoint "" "v1.23"),
             set_trace (EvInfo (mkClient Demo.endpoint "" "v1.23") (Some 5%Z) true
                        :: trace Cases.connected) Cases.connected)) as Hsecond
    by (vm_compute; reflexivity).
  split_and!; [exact Hhost | exact Hhost' | exact Hfirst | by rewrite Hsecond |].
  rewrite Hsecond.
  exact (proj2 (makeDockerClient_shares_connection (net := PlainNet.net)
      _ _ _ _ _ _ _ _ _ _ _ _ _ _ _
                  Hhost Hhost' Hfirst eq_refl Hsecond)).
Defined.

(** ** dumpFromEtcd *)
























(** ** makeDockerClient without TLS *)

#[export] Instance calls_only_preorder P : PreOrder (calls_only P).
Proof.
  split.
  - intros w. by exists [].
  - intros w1 w2 w3 (n1 & H1 & Hp1) (n2 & H2 & Hp2). exists (n2 ++ n1).
    rewrite H2, H1, app_assoc, forallb_app, Hp1, Hp2. done.
Qed.













(** ** AddNode: what it writes *)

Lemma same_store_GetPod p : frame same_store (GetPod p).
Proof. unfold GetPod. frame_steps. Qed.

Lemma raises_only_weaken {A} (P Q : error → Prop) (m : M A) :
  (∀ e, P e → Q e) → raises_only P m → raises_only Q m.
Proof. intros HPQ Hm w e w' Hrun. eapply HPQ, Hm, Hrun. Qed.

Lemma etcd_Get_raises key : raises_only before_probe (etcd_Get key).
Proof.
  intros w e w'. unfold etcd_Get, bind, log, outside. simpl.
  repeat case_match; intros; simplify_eq; done.
Qed.

Lemma etcd_Set_raises key v : raises_only before_probe (etcd_Set key v).
Proof.
  intros w e w'. unfold etcd_Set, bind, log, outside. simpl.
  repeat case_match; intros; simplify_eq; done.
Qed.

Lemma GetPod_raises p : raises_only before_probe (GetPod p).
Proof.
  unfold GetPod. apply raises_only_bind; [apply etcd_Get_raises | intros resp].
  destruct (Dir resp); by intros w e w' [= <- _].
Qed.

(** The three writes of the TLS material. *)
Lemma store_tls_spec podname name cafile certfile keyfile w r w' :
  (if tls_given cafile certfile keyfile
   then
     let* _ := etcd_Set (nodeCaKey podname name) cafile in
     let* _ := etcd_Set (nodeCertKey podname name) certfile in
     etcd_Set (nodeKeyKey podname name) keyfile
   else ret tt) w = (r, w') →
  engines w' = engines w ∧ cache w' = cache w ∧ fs w' = fs w
  ∧ match r with
    | Ok _ => kv w' = with_tls podname name cafile certfile keyfile (kv w)
    | Err e => before_probe e
    end.
Proof.
  unfold with_tls. destruct (tls_given _ _ _).
  2: { by intros [= <- <-]. }
  unfold bind.
  destruct (etcd_Set _ cafile w) as [[[]|e1] w1] eqn:H1.
  2: { intros [= <- <-]. pose proof (etcd_Set_raises _ _ _ _ _ H1).
       apply etcd_Set_spec in H1 as (_ & ? & ? & ? & _). done. }
  destruct (etcd_Set _ certfile w1) as [[[]|e2] w2] eqn:H2.
  2: { intros [= <- <-]. pose proof (etcd_Set_raises _ _ _ _ _ H2).
       apply etcd_Set_spec in H1 as (_ & ? & ? & ? & _).
       apply etcd_Set_spec in H2 as (_ & ? & ? & ? & _).
       split_and!; [congruence.. | done]. }
  intros H3.
  assert (∀ e, r = Err e → before_probe e) as Hr3.
  { intros e ->. by eapply etcd_Set_raises. }
  apply etcd_Set_spec in H1 as (_ & ? & ? & ? & _ & Hkv1).
  apply etcd_Set_spec in H2 as (_ & ? & ? & ? & _ & Hkv2).
  apply etcd_Set_spec in H3 as (_ & ? & ? & ? & _ & Hkv3).
  split_and!; [congruence.. |].
  destruct r as [[]|e]; [|by apply Hr3]. by rewrite Hkv3, Hkv2, Hkv1.
Qed.

(** X9.  What a successful [AddNode] writes: the encoded node at the
    node's info key and, if and only if the CA, the certificate and the key
    are all three non-empty, these three at the node's TLS keys; nothing
    else in etcd changes (TLS material given only in part is dropped without
    an error), and no lock is taken. *)
Theorem AddNode_writes `{codec : JSON} `{net : Net} (k : krypton)
    (name endpoint podname cafile certfile keyfile : string) (public : bool)
    (w w' : World) (node : Node) :
  AddNode k name endpoint podname cafile certfile keyfile public w = (Ok node, w') →
  ∃ bytes,
    json_encode (set_Engine None node) = Some bytes
    ∧ kv w' = <[nodeInfoKey podname name := bytes]>
                (with_tls podname name cafile certfile keyfile (kv w))
    ∧ locks w' = locks w.
Proof.
  unfold AddNode. destruct (negb _); [discriminate|]. intros Hrun.
  apply bind_Ok in Hrun as (pod & w1 & Hpod & Hrun).
  apply same_store_GetPod in Hpod as [Hkv1 Hl1].
  apply bind_Ok in Hrun as ([] & w2 & Htls & Hrun).
  assert (locks w2 = locks w1) as Hl2.
  { revert Htls. fold (tls_given cafile certfile keyfile).
    destruct (tls_given _ _ _); [|by intros [= <-]].
    intros Htls.
    apply bind_Ok in Htls as ([] & wa & (? & _)%etcd_Set_spec & Htls).
    apply bind_Ok in Htls as ([] & wb & (? & _)%etcd_Set_spec & (? & _)%etcd_Set_spec).
    congruence. }
  apply store_tls_spec in Htls as (_ & _ & _ & Hkv2).
  apply bind_Ok in Hrun as (engine & w3 & Hmake & Hrun).
  apply same_store_makeDockerClient in Hmake as [Hkv3 Hl3].
  apply bind_Ok in Hrun as (info & w4 & Hinfo & Hrun).
  apply same_store_Info in Hinfo as [Hkv4 Hl4].
  apply bind_Ok in Hrun as (bytes & w5 & Hbytes & Hrun).
  unfold of_result in Hbytes. injection Hbytes as Hbytes <-.
  apply bind_Ok in Hrun as ([] & w6 & Hset & [= <- <-]).
  apply etcd_Set_spec in Hset as (Hl6 & _ & _ & _ & _ & Hkv6).
  exists bytes. split.
  { unfold json_Marshal in Hbytes. by destruct (json_encode _); simplify_eq. }
  split; [|congruence].
  rewrite Hkv6, Hkv4, Hkv3, Hkv2, Hkv1. done.
Qed.

Lemma AddNode_writes_witness :
  ∃ bytes,
    LineCodec.encode
      (set_Engine None
         (mkNode "nodeX" Demo.endpoint "default" false (initial_cpumap 4) ∅ 0 0
            (Some (mkClient Demo.endpoint "" "v1.23")))) = Some bytes
    ∧ kv (AddNode (codec := LineCodec.codec) (net := PlainNet.net)
        Demo.k "nodeX" Demo.endpoint "default"
            "CA" "CERT" "KEY" false Demo.fresh).2
      = <[nodeInfoKey "default" "nodeX" := bytes]>
          (with_tls "default" "nodeX" "CA" "CERT" "KEY" (kv Demo.fresh))
    ∧ locks (AddNode (codec := LineCodec.codec) (net := PlainNet.net)
        Demo.k "nodeX" Demo.endpoint "default"
               "CA" "CERT" "KEY" false Demo.fresh).2 = locks Demo.fresh.
Proof.
  apply (AddNode_writes (codec := LineCodec.codec) (net := PlainNet.net)
      Demo.k "nodeX" Demo.endpoint
           "default" "CA" "CERT" "KEY" false Demo.fresh _
           (mkNode "nodeX" Demo.endpoint "default" false (initial_cpumap 4) ∅ 0 0
              (Some (mkClient Demo.endpoint "" "v1.23")))).
  vm_compute. reflexivity.
Defined.

Lemma json_Marshal_raises `{codec : JSON} node :
  raises_only before_probe (of_result (json_Marshal node)).
Proof.
  intros w e w'. unfold of_result, json_Marshal.
  destruct (json_encode _); by intros [= <- _].
Qed.

(** X10.  [AddNode] does not roll back.  When it fails because the engine
    does not answer, in the probe of [makeDockerClient] or in the [Info]
    that counts the cores, the TLS material it has stored by then stays in
    etcd, and nothing else is written: no node document. *)
Theorem AddNode_no_rollback `{codec : JSON} `{net : Net} (k : krypton)
    (name endpoint podname cafile certfile keyfile : string) (public : bool)
    (w w' : World) (unreachable : string) :
  AddNode k name endpoint podname cafile certfile keyfile public w
  = (Err (ErrEngineInfo unreachable), w') →
  kv w' = with_tls podname name cafile certfile keyfile (kv w).
Proof.
  unfold AddNode. destruct (negb _); [discriminate|]. intros Hrun.
  apply bind_Err in Hrun as [Hpod | (pod & w1 & Hpod & Hrun)].
  { by apply GetPod_raises in Hpod. }
  apply same_store_GetPod in Hpod as [Hkv1 _].
  apply bind_Err in Hrun as [Htls | ([] & w2 & Htls & Hrun)].
  { by apply store_tls_spec in Htls as (_ & _ & _ & ?). }
  apply store_tls_spec in Htls as (_ & _ & _ & Hkv2).
  rewrite Hkv1 in Hkv2. rewrite <- Hkv2.
  apply bind_Err in Hrun as [Hmake | (engine & w3 & Hmake & Hrun)].
  { by apply same_store_makeDockerClient in Hmake as [? _]. }
  apply same_store_makeDockerClient in Hmake as [Hkv3 _].
  apply bind_Err in Hrun as [Hinfo | (info & w4 & Hinfo & Hrun)].
  { apply same_store_Info in Hinfo as [? _]. congruence. }
  apply bind_Err in Hrun as [Hbytes | (bytes & w5 & _ & Hrun)].
  { by apply json_Marshal_raises in Hbytes. }
  apply bind_Err in Hrun as [Hset | ([] & w6 & _ & [=])].
  by apply etcd_Set_raises in Hset.
Qed.

Lemma AddNode_no_rollback_witness :
  (AddNode (codec := LineCodec.codec) (net := PlainNet.net) Demo.k "nodeX" Demo.endpoint "default"
     "CA" "CERT" "KEY" false Cases.pod_only).1 = Err (ErrEngineInfo Demo.endpoint)
  ∧ kv (AddNode (codec := LineCodec.codec) (net := PlainNet.net)
      Demo.k "nodeX" Demo.endpoint "default"
          "CA" "CERT" "KEY" false Cases.pod_only).2
    = with_tls "default" "nodeX" "CA" "CERT" "KEY" (kv Cases.pod_only).
Proof.
  split; [vm_compute; reflexivity|].
  apply (AddNode_no_rollback (codec := LineCodec.codec) (net := PlainNet.net)
      Demo.k "nodeX" Demo.endpoint
           "default" "CA" "CERT" "KEY" false Cases.pod_only _ Demo.endpoint).
  vm_compute. reflexivity.
Defined.

(** ** AddNode, then GetNode *)

Lemma client_Info_quiet c timeout w n :
  faults w = [] → engines w !! cli_endpoint c = Some n →
  client_Info c timeout w
  = (Ok (mkInfo n), set_trace (EvInfo c timeout true :: trace w) w).
Proof.
  intros Hf He. unfold client_Info. rewrite outside_quiet by done. by rewrite He.
Qed.

Lemma same_cache_etcd_Set key v : frame same_cache (etcd_Set key v).
Proof. intros w r w' H. by apply etcd_Set_spec in H as (_ & _ & ? & _). Qed.

(** The world a successful [AddNode] leaves. *)
Lemma AddNode_Ok_world `{codec : JSON} `{net : Net} k name endpoint podname cafile certfile keyfile
    public w node w' :
  AddNode k name endpoint podname cafile certfile keyfile public w = (Ok node, w') →
  ∃ engine ncpu bytes host,
    node = mkNode name endpoint podname public (initial_cpumap ncpu) ∅ 0 0 (Some engine)
    ∧ json_encode (set_Engine None node) = Some bytes
    ∧ kv w' !! nodeInfoKey podname name = Some bytes
    ∧ host_of endpoint = Ok host
    ∧ cache w' !! host = Some engine
    ∧ engines w' !! cli_endpoint engine = Some ncpu.
Proof.
  unfold AddNode. destruct (negb _); [discriminate|]. intros Hrun.
  apply bind_Ok in Hrun as (pod & w1 & _ & Hrun).
  apply bind_Ok in Hrun as ([] & w2 & _ & Hrun).
  apply bind_Ok in Hrun as (engine & w3 & Hmake & Hrun).
  apply makeDockerClient_Ok_cached in Hmake as (host & Hhost & Hcached).
  apply bind_Ok in Hrun as (info & w4 & Hinfo & Hrun).
  pose proof (same_cache_Info _ _ _ _ _ Hinfo) as Hc4.
  pose proof (same_engines_Info _ _ _ _ _ Hinfo) as He4.
  apply client_Info_Ok in Hinfo as (Hn & _ & _).
  apply bind_Ok in Hrun as (bytes & w5 & Hbytes & Hrun).
  unfold of_result in Hbytes. injection Hbytes as Hbytes <-.
  apply bind_Ok in Hrun as ([] & w6 & Hset & [= <- <-]).
  pose proof (same_cache_etcd_Set _ _ _ _ _ Hset) as Hc6.
  pose proof (same_engines_etcd_Set _ _ _ _ _ Hset) as He6.
  apply etcd_Set_spec in Hset as (_ & _ & _ & _ & _ & Hkv6).
  exists engine, (NCPU info), bytes, host. split; [done|].
  unfold json_Marshal in Hbytes.
  destruct (json_encode _) as [b|] eqn:Henc; simplify_eq.
  unfold same_cache, same_engines in *.
  split_and!; try done.
  - rewrite Hkv6. apply lookup_insert_eq.
  - congruence.
  - congruence.
Qed.

(** X11.  [AddNode], then [GetNode].  After a successful [AddNode], if
    the codec reads back the document it wrote and no call to the outside
    fails, [GetNode] for the same pod and name succeeds and returns the node
    [AddNode] returned, engine included: the client is the cached one. *)
Theorem AddNode_then_GetNode `{codec : JSON} `{net : Net} (k : krypton)
    (name endpoint podname cafile certfile keyfile : string) (public : bool)
    (w w1 : World) (node : Node) :
  AddNode k name endpoint podname cafile certfile keyfile public w = (Ok node, w1) →
  (∀ bytes, json_encode (set_Engine None node) = Some bytes →
            json_decode bytes = Some (set_Engine None node)) →
  faults w1 = [] →
  ∃ w2, GetNode k podname name w1 = (Ok node, w2) ∧ kv w2 = kv w1.
Proof.
  intros Hadd Hcodec Hquiet.
  apply AddNode_Ok_world in Hadd
    as (engine & ncpu & bytes & host & Hnode & Henc & Hdoc & Hhost & Hcached & Hanswers).
  specialize (Hcodec _ Henc).
  unfold GetNode.
  erewrite bind_step;
    [|apply etcd_Get_quiet; [done|]; unfold etcd_lookup; by rewrite Hdoc].
  simpl.
  erewrite bind_step; [|unfold of_result, json_Unmarshal; by rewrite Hcodec].
  assert (Endpoint (set_Engine None (set_Engine None node)) = endpoint) as ->
    by by rewrite Hnode.
  set (w1' := set_trace (EvGet (nodeInfoKey podname name) :: trace w1) w1).
  assert (makeDockerClient k podname name endpoint false w1'
          = (Ok engine, set_trace (EvInfo engine (Some 5%Z) true :: trace w1') w1'))
    as Hmake.
  { rewrite (makeDockerClient_hit _ _ _ _ _ _ w1' Hhost Hcached).
    by erewrite bind_step; [|by apply client_Info_quiet]. }
  rewrite (bind_step _ _ _ _ _ Hmake).
  eexists. split; [unfold ret; by rewrite Hnode | done].
Qed.

Lemma AddNode_then_GetNode_witness :
  ∃ w2, GetNode (codec := LineCodec.codec) (net := PlainNet.net) Demo.k "default" "nodeX"
          (AddNode (codec := LineCodec.codec) (net := PlainNet.net)
              Demo.k "nodeX" Demo.endpoint "default"
             "" "" "" false Demo.fresh).2
        = (Ok Demo.nodeX_live, w2)
        ∧ kv w2 = kv (AddNode (codec := LineCodec.codec) (net := PlainNet.net)
            Demo.k "nodeX" Demo.endpoint
                        "default" "" "" "" false Demo.fresh).2.
Proof.
  apply (AddNode_then_GetNode (codec := LineCodec.codec) (net := PlainNet.net)
      Demo.k "nodeX" Demo.endpoint
           "default" "" "" "" false Demo.fresh).
  - vm_compute. reflexivity.
  - intros bytes [= <-]. vm_compute. reflexivity.
  - vm_compute. reflexivity.
Defined.

(** ** UpdateNode and UpdateNodeCPU *)

(** X12.  [UpdateNode] takes no lock.  A caller of [UpdateNodeCPU] holds
    the lock of the node and reads the document; [UpdateNode] on that node
    then succeeds all the same and stores its document; the write of the
    first caller then replaces that document by the bytes it computed from
    what it had read: the update of [UpdateNode] is lost. *)
Theorem UpdateNode_ignores_lock `{codec : JSON} (k : krypton) (node : Node)
    (c : Call) (l : Lock) (value doc bytes : string) (w : World) :
  faults w = [] →
  lockName (Podname node) (Name node) ∈ locks w →
  kv w !! nodeInfoKey (Podname node) (Name node) = Some value →
  below_leaf (kv w) (nodeInfoKey (Podname node) (Name node)) = false →
  updated_document (call_cpu c) (call_action c) value = Ok bytes →
  json_encode (set_Engine None node) = Some doc →
  ∃ w0 w1 w2,
    thread_step (Podname node) (Name node) c (Holding l) w = Some (Writing l bytes, w0)
    ∧ UpdateNode k node w0 = (Ok tt, w1)
    ∧ kv w1 !! nodeInfoKey (Podname node) (Name node) = Some doc
    ∧ locks w1 = locks w
    ∧ thread_step (Podname node) (Name node) c (Writing l bytes) w1
      = Some (Releasing l (Ok tt), w2)
    ∧ kv w2 !! nodeInfoKey (Podname node) (Name node) = Some bytes.
Proof.
  intros Hquiet Hheld Hvalue Hbelow Hbytes Henc.
  set (key := nodeInfoKey (Podname node) (Name node)) in *.
  set (w0 := set_trace (EvGet key :: trace w) w).
  assert (thread_step (Podname node) (Name node) c (Holding l) w
          = Some (Writing l bytes, w0)) as Hread.
  { simpl. unfold read_phase. fold key.
    erewrite bind_step;
      [|apply etcd_Get_quiet; [done|]; unfold etcd_lookup; by rewrite Hvalue].
    simpl. unfold of_result. by rewrite Hbytes. }
  assert (UpdateNode k node w0
          = (Ok tt, set_kv (<[key := doc]> (kv w0))
                      (set_trace (EvSet key doc :: trace w0) w0))) as Hupdate.
  { unfold UpdateNode. fold key.
    erewrite bind_step; [|unfold of_result, json_Marshal; by rewrite Henc].
    apply etcd_Set_quiet; [done | left; simpl; by rewrite Hvalue | done]. }
  eexists _, _, _. split; [exact Hread|]. split; [exact Hupdate|]. simpl.
  split; [apply lookup_insert_eq|]. split; [done|].
  fold key. rewrite etcd_Set_quiet; simpl.
  - split; [reflexivity|]. simpl. apply lookup_insert_eq.
  - done.
  - left. rewrite lookup_insert_eq. eauto.
  - by rewrite (below_leaf_overwrite _ _ _ value).
Qed.

(** X13.  A failed [UpdateNodeCPU] changes nothing: whatever the error,
    etcd holds what it held, and the set of held locks is the one before the
    call -- the lock it took is released, and a lock it could not take is
    left to its holder. *)
Theorem UpdateNodeCPU_failure_changes_nothing `{codec : JSON} (k : krypton)
    (podname nodename : string) (cpu : CPUMap) (action : string)
    (w w' : World) (e : error) :
  UpdateNodeCPU k podname nodename cpu action w = (Err e, w') →
  kv w' = kv w ∧ locks w' = locks w.
Proof.
  unfold UpdateNodeCPU. intros Hrun.
  apply bind_Err in Hrun as [Hcreate | (l & w0 & Hcreate & Hrun)].
  { by apply CreateLock_spec in Hcreate as (? & ? & _). }
  apply CreateLock_spec in Hcreate as (Hkv0 & Hl0 & _ & Hl).
  specialize (Hl _ eq_refl). subst l.
  apply bind_Err in Hrun as [Hlock | ([] & w1 & Hlock & Hrun)].
  { pose proof (Lock_Lock_spec _ _ _ _ Hlock) as (Hkv1 & _ & _).
    split; [congruence|].
    unfold Lock_Lock, bind, log in Hlock. simpl in Hlock.
    destruct (outside _ _) as [[[]|e1] wx] eqn:Hout;
      apply outside_frame in Hout as (_ & Hlx & _); simpl in *.
    - destruct (decide _); simplify_eq. congruence.
    - simplify_eq. congruence. }
  apply Lock_Lock_spec in Hlock as (Hkv1 & _ & Hl1).
  destruct (Hl1 eq_refl) as [Hfree Hlocks1]. simpl in *.
  unfold defer in Hrun.
  match type of Hrun with context [let (_, _) := ?body w1 in _] =>
    destruct (body w1) as [r2 w2] eqn:Hbody end.
  injection Hrun as -> <-.
  assert (kv w2 = kv w1 ∧ locks w2 = locks w1) as [Hkv2 Hl2].
  { apply bind_Err in Hbody as [Hget | (resp & w3 & Hget & Hbody)].
    { by apply etcd_Get_spec in Hget as (? & ? & _). }
    apply etcd_Get_spec in Hget as (Hkv3 & Hl3 & _).
    destruct (Dir resp).
    { injection Hbody as _ <-. done. }
    apply bind_Err in Hbody as [Hdoc | (bytes & w4 & Hdoc & Hbody)].
    { injection Hdoc as _ <-. done. }
    injection Hdoc as _ <-.
    apply bind_Err in Hbody as [Hset | ([] & w5 & _ & [=])].
    apply etcd_Set_spec in Hset as (? & _ & _ & _ & _ & ?). split; congruence. }
  simpl. split; [congruence|].
  rewrite Hl2, Hlocks1, Hl0. apply set_eq. intros x.
  rewrite elem_of_difference, elem_of_union, elem_of_singleton.
  rewrite Hl0 in Hfree.
  split; [by intros [[->|?] ?] | intros ?; split; [by right | by intros ->]].
Qed.


Lemma UpdateNode_ignores_lock_witness :
  ∃ w0 w1 w2,
    thread_step (codec := LineCodec.codec) "default" "nodeX"
      (mkCall {[ "0" := 5%Z ]} "sub")
      (Holding (mkLock (lockName "default" "nodeX") 30)) Cases.updating
    = Some (Writing (mkLock (lockName "default" "nodeX") 30) Cases.stale, w0)
    ∧ UpdateNode (codec := LineCodec.codec) Demo.k Cases.nodeX_mem w0 = (Ok tt, w1)
    ∧ kv w1 !! nodeInfoKey "default" "nodeX" = Some (Demo.document Cases.nodeX_mem)
    ∧ locks w1 = locks Cases.updating
    ∧ thread_step (codec := LineCodec.codec) "default" "nodeX"
        (mkCall {[ "0" := 5%Z ]} "sub")
        (Writing (mkLock (lockName "default" "nodeX") 30) Cases.stale) w1
      = Some (Releasing (mkLock (lockName "default" "nodeX") 30) (Ok tt), w2)
    ∧ kv w2 !! nodeInfoKey "default" "nodeX" = Some Cases.stale.
Proof.
  apply (UpdateNode_ignores_lock (codec := LineCodec.codec) Demo.k Cases.nodeX_mem
           (mkCall {[ "0" := 5%Z ]} "sub") (mkLock (lockName "default" "nodeX") 30)
           (Demo.document Demo.nodeX) (Demo.document Cases.nodeX_mem) Cases.stale
           Cases.updating).
  - reflexivity.
  - vm_compute. reflexivity.
  - vm_compute. reflexivity.
  - vm_compute. reflexivity.
  - vm_compute. reflexivity.
  - vm_compute. reflexivity.
Defined.

Lemma UpdateNodeCPU_failure_changes_nothing_witness :
  (UpdateNodeCPU (codec := LineCodec.codec) Demo.k "default" "nodeX"
     {[ "0" := 5%Z ]} "sub" Demo.fresh).1
  = Err (ErrKeyNotFound (nodeInfoKey "default" "nodeX"))
  ∧ kv (UpdateNodeCPU (codec := LineCodec.codec) Demo.k "default" "nodeX"
          {[ "0" := 5%Z ]} "sub" Demo.fresh).2 = kv Demo.fresh
  ∧ locks (UpdateNodeCPU (codec := LineCodec.codec) Demo.k "default" "nodeX"
             {[ "0" := 5%Z ]} "sub" Demo.fresh).2 = locks Demo.fresh.
Proof.
  assert ((UpdateNodeCPU (codec := LineCodec.codec) Demo.k "default" "nodeX"
             {[ "0" := 5%Z ]} "sub" Demo.fresh).1
          = Err (ErrKeyNotFound (nodeInfoKey "default" "nodeX"))) as Hr
    by (vm_compute; reflexivity).
  split; [exact Hr|].
  apply (UpdateNodeCPU_failure_changes_nothing (codec := LineCodec.codec) Demo.k
           "default" "nodeX" {[ "0" := 5%Z ]} "sub" Demo.fresh _
           (ErrKeyNotFound (nodeInfoKey "default" "nodeX"))).
  rewrite <- Hr. apply surjective_pairing.
Defined.


(** ** What the reads return *)

Lemma set_Engine_twice e1 e2 n : set_Engine e1 (set_Engine e2 n) = set_Engine e1 n.
Proof. by destruct n. Qed.

Lemma GetNode_Ok_inv `{codec : JSON} `{net : Net} k podname nodename w node w' :
  GetNode k podname nodename w = (Ok node, w') →
  ∃ value doc engine w1,
    kv w !! nodeInfoKey podname nodename = Some value
    ∧ json_decode value = Some doc
    ∧ node = set_Engine (Some engine) doc
    ∧ kv w1 = kv w ∧ cache w1 = cache w ∧ engines w1 = engines w
    ∧ makeDockerClient k podname nodename (Endpoint doc) false w1 = (Ok engine, w').
Proof.
  unfold GetNode. intros Hrun.
  apply bind_Ok in Hrun as (resp & w1 & Hget & Hrun).
  apply etcd_Get_spec in Hget as (Hkv1 & _ & _ & Hc1 & He1 & _ & Hlook).
  specialize (Hlook _ eq_refl).
  destruct (Dir resp) eqn:Hdir; [discriminate|].
  apply etcd_lookup_File in Hlook; [|done].
  apply bind_Ok in Hrun as (n & w2 & Hdoc & Hrun).
  unfold of_result, json_Unmarshal in Hdoc.
  destruct (json_decode (Value resp)) as [doc|] eqn:Hdec; [|discriminate].
  injection Hdoc as <- <-.
  apply bind_Ok in Hrun as (engine & w3 & Hmake & [= <- <-]).
  exists (Value resp), doc, engine, w1.
  rewrite set_Engine_twice. split_and!; try done.
Qed.

(** X14.  What [GetNode] returns on success: the document stored at the
    node's info key, decoded, with an engine attached -- whatever name and
    pod the document carries -- where the engine is the client the cache now
    holds for the host of the document's endpoint, and the engine at that
    client's endpoint answered. *)
Theorem GetNode_returns_stored_document `{codec : JSON} `{net : Net} (k : krypton)
    (podname nodename : string) (w w' : World) (node : Node) :
  GetNode k podname nodename w = (Ok node, w') →
  ∃ value doc engine host,
    kv w !! nodeInfoKey podname nodename = Some value
    ∧ json_decode value = Some doc
    ∧ node = set_Engine (Some engine) doc
    ∧ host_of (Endpoint doc) = Ok host
    ∧ cache w' !! host = Some engine
    ∧ is_Some (engines w !! cli_endpoint engine).
Proof.
  intros (value & doc & engine & w1 & Hvalue & Hdec & -> & _ & _ & He1 & Hmake)
    %GetNode_Ok_inv.
  pose proof (makeDockerClient_Ok_cached _ _ _ _ _ _ _ _ Hmake) as (host & Hhost & Hc).
  exists value, doc, engine, host. split_and!; try done.
  rewrite <- He1. clear Hc.
  destruct (cache w1 !! host) as [c0|] eqn:Hhit.
  - rewrite (makeDockerClient_hit _ _ _ _ _ _ _ Hhost Hhit) in Hmake.
    apply bind_Ok in Hmake as (info & w2 & Hinfo & [= <- <-]).
    apply client_Info_Ok in Hinfo as (? & _). eauto.
  - rewrite (makeDockerClient_build _ _ _ _ _ _ _ Hhost (or_introl Hhit)) in Hmake.
    apply bind_Ok in Hmake as (c1 & w2 & Hbuild & Hmake).
    pose proof Hbuild as He2.
    apply bind_Ok in Hmake as (info & w3 & Hinfo & [= <- <-]).
    apply client_Info_Ok in Hinfo as (Hn & _).
    assert (engines w2 = engines w1) as <-; [|eauto].
    cut (frame same_engines (build_client k podname nodename (Endpoint doc) host));
      [intros H; by eapply H|].
    unfold build_client.
    frame_steps; auto using same_engines_dumpFromEtcd, same_engines_makeRawClient.
Qed.

Lemma GetNode_returns_stored_document_witness :
  ∃ value doc engine host,
    kv Demo.registered !! nodeInfoKey "default" "nodeX" = Some value
    ∧ LineCodec.decode value = Some doc
    ∧ Demo.nodeX_live = set_Engine (Some engine) doc
    ∧ host_of (net := PlainNet.net) (Endpoint doc) = Ok host
    ∧ cache (GetNode (codec := LineCodec.codec) (net := PlainNet.net) Demo.k "default" "nodeX"
               Demo.registered).2 !! host = Some engine
    ∧ is_Some (engines Demo.registered !! cli_endpoint engine).
Proof.
  apply (GetNode_returns_stored_document (codec := LineCodec.codec) (net := PlainNet.net) Demo.k
           "default" "nodeX" Demo.registered).
  vm_compute. reflexivity.
Defined.

Lemma GetNodesByPod_range_Ok `{codec : JSON} `{net : Net} k podname keys acc w ns w' :
  GetNodesByPod_range k podname keys acc w = ((ns, None), w') →
  ∃ new, ns = acc ++ new ∧ fetched k podname keys w new w'.
Proof.
  revert acc w. induction keys as [|key keys IH]; intros acc w; simpl.
  - intros [= <- <-]. exists []. split; [by rewrite app_nil_r | constructor].
  - destruct (GetNode k podname (Tail key) w) as [[n|e] w1] eqn:Hget; [|discriminate].
    intros (new & -> & Hrest)%IH. exists (n :: new).
    split; [by rewrite <- app_assoc | by econstructor].
Qed.

Lemma fetched_stored `{codec : JSON} `{net : Net} k podname keys w ns w' :
  fetched k podname keys w ns w' →
  kv w' = kv w
  ∧ Forall2 (λ key node, stored_node (kv w) podname (Tail key) node) keys ns.
Proof.
  induction 1 as [w|key keys w n w1 ns w2 Hget _ [Hkv IH]].
  - split; [done | constructor].
  - pose proof (same_store_GetNode _ _ _ _ _ _ Hget) as [Hkv1 _].
    split; [congruence|]. constructor.
    + apply GetNode_Ok_inv in Hget as (value & doc & engine & _ & ? & ? & ? & _).
      by exists value, doc, engine.
    + by rewrite <- Hkv1.
Qed.

Lemma GetNodesByPod_Ok_inv `{codec : JSON} `{net : Net} k podname w ns w' :
  GetNodesByPod k podname w = ((ns, None), w') →
  ∃ keys,
    etcd_lookup (kv w) (podNodesKey podname) = Some (Directory keys)
    ∧ kv w' = kv w
    ∧ Forall2 (λ key node, stored_node (kv w) podname (Tail key) node) keys ns.
Proof.
  unfold GetNodesByPod.
  destruct (etcd_Get _ w) as [[resp|e] w1] eqn:Hget; [|discriminate].
  apply etcd_Get_spec in Hget as (Hkv1 & _ & _ & _ & _ & _ & Hlook).
  specialize (Hlook _ eq_refl).
  destruct resp as [v|keys]; [discriminate|]. simpl.
  intros (new & -> & Hfetched)%GetNodesByPod_range_Ok.
  apply fetched_stored in Hfetched as [Hkv Hall]. rewrite Hkv1 in Hall, Hkv.
  exists keys. done.
Qed.

(** X15.  What [GetNodesByPod] returns on success: the key of the pod's
    nodes is a directory, and the result has one node per child of that
    directory, in the directory's order, each the stored document of the
    child's last path component with an engine attached. *)
Theorem GetNodesByPod_lists_stored_documents `{codec : JSON} `{net : Net} (k : krypton)
    (podname : string) (w w' : World) (ns : list Node) :
  GetNodesByPod k podname w = ((ns, None), w') →
  ∃ keys,
    etcd_lookup (kv w) (podNodesKey podname) = Some (Directory keys)
    ∧ Forall2 (λ key node, stored_node (kv w) podname (Tail key) node
                           ∧ is_Some (Engine node)) keys ns.
Proof.
  intros (keys & Hdir & _ & Hall)%GetNodesByPod_Ok_inv.
  exists keys. split; [done|].
  eapply Forall2_impl; [exact Hall|]. simpl.
  intros key node Hstored. split; [done|].
  destruct Hstored as (value & doc & engine & _ & _ & ->). by destruct doc; eexists.
Qed.

Lemma GetNodesByPod_lists_stored_documents_witness :
  ∃ keys,
    etcd_lookup (kv Demo.registered) (podNodesKey "default") = Some (Directory keys)
    ∧ Forall2 (λ key node,
                 stored_node (codec := LineCodec.codec) (kv Demo.registered)
                   "default" (Tail key) node
                 ∧ is_Some (Engine node)) keys [Demo.nodeX_live].
Proof.
  apply (GetNodesByPod_lists_stored_documents (codec := LineCodec.codec) (net := PlainNet.net)
      Demo.k
           "default" Demo.registered
           (GetNodesByPod (codec := LineCodec.codec) (net := PlainNet.net) Demo.k "default"
              Demo.registered).2).
  vm_compute. reflexivity.
Defined.

Lemma GetAllNodes_range_Ok `{codec : JSON} `{net : Net} k pods acc w ns w' :
  GetAllNodes_range k pods acc w = ((ns, None), w') →
  ∃ new, ns = acc ++ new ∧ listed k pods w new w'.
Proof.
  revert acc w. induction pods as [|pod pods IH]; intros acc w; simpl.
  - intros [= <- <-]. exists []. split; [by rewrite app_nil_r | constructor].
  - destruct (GetNodesByPod k (pod_Name pod) w) as [[ns1 [e|]] w1] eqn:Hlist;
      [discriminate|].
    intros (new & -> & Hrest)%IH. exists (ns1 ++ new).
    split; [by rewrite <- app_assoc | by econstructor].
Qed.

Lemma listed_stored `{codec : JSON} `{net : Net} k pods w ns w' :
  listed k pods w ns w' →
  kv w' = kv w
  ∧ Forall (λ node, ∃ pod nodename, pod ∈ pods
                      ∧ stored_node (kv w) (pod_Name pod) nodename node) ns.
Proof.
  induction 1 as [w|pod pods w ns w1 nss w2 Hlist _ [Hkv IH]].
  - split; [done | constructor].
  - apply GetNodesByPod_Ok_inv in Hlist as (keys & _ & Hkv1 & Hall).
    split; [congruence|]. apply Forall_app. split.
    + apply Forall2_Forall_r with (Q := λ node, ∃ pod' nodename, pod' ∈ pod :: pods
          ∧ stored_node (kv w) (pod_Name pod') nodename node) in Hall; [done|].
      apply Forall_forall. intros key _ node Hstored.
      exists pod, (Tail key). split; [set_solver | done].
    + rewrite Hkv1 in IH. eapply Forall_impl; [exact IH|]. simpl.
      intros node (pod' & nodename & Hin & Hstored).
      exists pod', nodename. split; [set_solver | done].
Qed.

(** X16.  What [GetAllNodes] returns on success: the key of all pods is a
    directory, and every node of the result is the stored document of some
    node of one of its children, with an engine attached. *)
Theorem GetAllNodes_lists_stored_documents `{codec : JSON} `{net : Net} (k : krypton)
    (w w' : World) (ns : list Node) :
  GetAllNodes k w = ((ns, None), w') →
  ∃ pods,
    etcd_lookup (kv w) allPodsKey = Some (Directory pods)
    ∧ Forall (λ node, ∃ pod nodename,
                pod ∈ pods
                ∧ stored_node (kv w) (Tail pod) nodename node
                ∧ is_Some (Engine node)) ns.
Proof.
  unfold GetAllNodes.
  destruct (GetAllPods w) as [[pods|e] w1] eqn:Hpods; [|discriminate].
  pose proof (same_store_GetAllPods _ _ _ Hpods) as [Hkv1 _].
  unfold GetAllPods in Hpods.
  apply bind_Ok in Hpods as (resp & w0 & Hget & Hpods).
  apply etcd_Get_spec in Hget as (_ & _ & _ & _ & _ & _ & Hlook).
  specialize (Hlook _ eq_refl).
  destruct resp as [v|keys]; [discriminate|]. simpl in Hpods.
  injection Hpods as <- <-.
  intros (new & -> & Hlisted)%GetAllNodes_range_Ok.
  apply listed_stored in Hlisted as [_ Hall]. simpl.
  exists keys. split; [done|].
  eapply Forall_impl; [exact Hall|]. simpl.
  intros node (pod & nodename & Hin & Hstored).
  apply list_elem_of_fmap in Hin as (key & -> & Hin). simpl in Hstored.
  exists key, nodename. rewrite Hkv1 in Hstored. split_and!; [done..|].
  destruct Hstored as (value & doc & engine & _ & _ & ->). by destruct doc; eexists.
Qed.

Lemma GetAllNodes_lists_stored_documents_witness :
  ∃ pods,
    etcd_lookup (kv Demo.registered) allPodsKey = Some (Directory pods)
    ∧ Forall (λ node, ∃ pod nodename,
                pod ∈ pods
                ∧ stored_node (codec := LineCodec.codec) (kv Demo.registered)
                    (Tail pod) nodename node
                ∧ is_Some (Engine node)) [Demo.nodeX_live].
Proof.
  apply (GetAllNodes_lists_stored_documents (codec := LineCodec.codec) (net := PlainNet.net) Demo.k
           Demo.registered
           (GetAllNodes (codec := LineCodec.codec) (net := PlainNet.net) Demo.k Demo.registered).2).
  vm_compute. reflexivity.
Defined.

(** * Properties of package rpc *)

(** ** CPU maps *)

Lemma toRPCCPUMap_lookup (m : CPUMap) (label : string) :
  rpc.toRPCCPUMap m !! label = rpc.int32 <$> m !! label.
Proof.
  unfold rpc.toRPCCPUMap. revert label.
  apply (map_fold_weak_ind
           (λ r m, ∀ label, r !! label = rpc.int32 <$> m !! label)).
  - intros label. by rewrite !lookup_empty.
  - intros i x m' r Hfresh IH label.
    destruct (decide (i = label)) as [->|Hne].
    + by rewrite !lookup_insert_eq.
    + rewrite !lookup_insert_ne by done. apply IH.
Qed.

Lemma int32_range (z : Z) : (- 2 ^ 31 ≤ rpc.int32 z < 2 ^ 31)%Z.
Proof. unfold rpc.int32. pose proof (Z.mod_pos_bound (z + 2 ^ 31) (2 ^ 32)). lia. Qed.

Lemma int32_fixed (z : Z) : rpc.int32 z = z ↔ (- 2 ^ 31 ≤ z < 2 ^ 31)%Z.
Proof.
  split.
  - intros <-. apply int32_range.
  - intros Hz. unfold rpc.int32. rewrite Z.mod_small by lia. lia.
Qed.

(** X17.  [toRPCCPUMap] keeps the labels, every value it returns fits in
    32 bits, and the map comes out unchanged exactly when every share lies
    between -2^31 and 2^31 - 1; any other share wraps around. *)
Theorem toRPCCPUMap_wraps (m : CPUMap) :
  (∀ label, is_Some (rpc.toRPCCPUMap m !! label) ↔ is_Some (m !! label))
  ∧ (∀ label v, rpc.toRPCCPUMap m !! label = Some v → (- 2 ^ 31 ≤ v < 2 ^ 31)%Z)
  ∧ (rpc.toRPCCPUMap m = m
     ↔ ∀ label v, m !! label = Some v → (- 2 ^ 31 ≤ v < 2 ^ 31)%Z).
Proof.
  split; [|split].
  - intros label. rewrite toRPCCPUMap_lookup. apply fmap_is_Some.
  - intros label v. rewrite toRPCCPUMap_lookup.
    destruct (m !! label) as [z|]; [|done]. intros [= <-]. apply int32_range.
  - split.
    + intros Heq label v Hv. apply int32_fixed.
      assert (rpc.toRPCCPUMap m !! label = Some v) as H by by rewrite Heq.
      rewrite toRPCCPUMap_lookup, Hv in H. by injection H.
    + intros Hrange. apply map_eq. intros label. rewrite toRPCCPUMap_lookup.
      destruct (m !! label) as [z|] eqn:Hz; [|done]. simpl. f_equal.
      apply int32_fixed. by eapply Hrange.
Qed.

(** ** Cleaning up *)

Lemma os_RemoveAll_spec path d :
  (rpc.os_RemoveAll path d).1
  = (if default false (rpc.disk_faults d !! 0) then Some (rpc.ErrRemoveAll path)
     else None)
  ∧ rpc.disk_faults (rpc.os_RemoveAll path d).2 = drop 1 (rpc.disk_faults d)
  ∧ rpc.removals (rpc.os_RemoveAll path d).2 = path :: rpc.removals d.
Proof.
  unfold rpc.os_RemoveAll. by destruct (rpc.disk_faults d) as [|[] fl].
Qed.

Lemma cleanTmpDataFile_range_snoc data path src err d :
  rpc.cleanTmpDataFile_range (data ++ [(path, src)]) err d
  = rpc.os_RemoveAll src (rpc.cleanTmpDataFile_range data err d).2.
Proof.
  revert err d. induction data as [|[p s] data IH]; intros err d; simpl.
  - by destruct (rpc.os_RemoveAll src d).
  - destruct (rpc.os_RemoveAll s d) as [err' d']. apply IH.
Qed.

Lemma cleanTmpDataFile_range_disk data err d :
  rpc.disk_faults (rpc.cleanTmpDataFile_range data err d).2
  = drop (length data) (rpc.disk_faults d)
  ∧ rpc.removals (rpc.cleanTmpDataFile_range data err d).2
    = reverse data.*2 ++ rpc.removals d.
Proof.
  revert err d. induction data as [|[p s] data IH]; intros err d; simpl.
  - by rewrite drop_0.
  - destruct (rpc.os_RemoveAll s d) as [err' d'] eqn:Hrm.
    pose proof (os_RemoveAll_spec s d) as (_ & Hf & Hr). rewrite Hrm in Hf, Hr.
    simpl in Hf, Hr.
    destruct (IH err' d') as [IHf IHr]. rewrite IHf, IHr, Hf, Hr.
    split.
    + by rewrite drop_drop.
    + by rewrite reverse_cons, <- app_assoc.
Qed.

(** X18.  [cleanTmpDataFile] tries to remove every file, in the order of
    the range, and returns the result of the last removal alone: nil when
    the last removal succeeds, whatever happened to the earlier ones. *)
Theorem cleanTmpDataFile_returns_last (data : list (string * string))
    (path src : string) (d : rpc.Disk) :
  (rpc.cleanTmpDataFile (data ++ [(path, src)]) d).1
  = (if default false (rpc.disk_faults d !! length data)
     then Some (rpc.ErrRemoveAll src) else None)
  ∧ rpc.removals (rpc.cleanTmpDataFile (data ++ [(path, src)]) d).2
    = src :: reverse data.*2 ++ rpc.removals d.
Proof.
  unfold rpc.cleanTmpDataFile. rewrite cleanTmpDataFile_range_snoc.
  destruct (cleanTmpDataFile_range_disk data None d) as [Hf Hr].
  destruct (os_RemoveAll_spec src (rpc.cleanTmpDataFile_range data None d).2)
    as (H1 & _ & H3).
  rewrite H1, H3, Hf, Hr. split; [|done].
  rewrite lookup_drop. by rewrite Nat.add_0_r.
Qed.

(** ** Temporary files and the options made from them *)

Section TempFiles.
Variable TempTarFile :
  string → rpc.bytes → rpc.Disk → (string * option rpc.failure) * rpc.Disk.

Lemma makeTempTarFiles_range_result data tarFiles d :
  (∃ m, (rpc.makeTempTarFiles_range TempTarFile data tarFiles d).1 = (Some m, None))
  ∨ (∃ e, (rpc.makeTempTarFiles_range TempTarFile data tarFiles d).1 = (None, Some e)).
Proof.
  revert tarFiles d. induction data as [|[path content] data IH]; intros tarFiles d; simpl.
  - left. eauto.
  - destruct (TempTarFile path content d) as [[fname [err|]] d1]; [right; eauto|].
    apply IH.
Qed.

Lemma makeTempTarFiles_range_Err data tarFiles d r e d' :
  rpc.makeTempTarFiles_range TempTarFile data tarFiles d = ((r, Some e), d') →
  r = None
  ∧ ∃ made path content rest names d1,
      data = made ++ (path, content) :: rest
      ∧ rpc.tarred TempTarFile made d names d1
      ∧ (TempTarFile path content d1).1.2 = Some e
      ∧ d' = (let fname := (TempTarFile path content d1).1.1 in
              let d2 := (TempTarFile path content d1).2 in
              if negb (String.eqb fname "") then (rpc.os_RemoveAll fname d2).2
              else d2).
Proof.
  revert tarFiles d. induction data as [|[path content] data IH]; intros tarFiles d; simpl.
  - discriminate.
  - destruct (TempTarFile path content d) as [[fname [err|]] d1] eqn:Hcall.
    + intros [= <- <- <-]. split; [done|].
      exists [], path, content, data, [], d. rewrite Hcall. simpl.
      split_and!; try done. constructor.
    + intros (-> & made & path' & content' & rest & names & d2 & -> & Hmade & He & Hd)%IH.
      split; [done|].
      exists ((path, content) :: made), path', content', rest,
             ((path, fname) :: names), d2.
      split_and!; try done. by econstructor.
Qed.

Lemma tarred_removals made d names d1 :
  (∀ path content d0,
     rpc.removals (TempTarFile path content d0).2 = rpc.removals d0) →
  rpc.tarred TempTarFile made d names d1 → rpc.removals d1 = rpc.removals d.
Proof.
  intros Hquiet. induction 1 as [d|path content rest d fname d1 names d2 Hcall _ IH].
  - done.
  - rewrite IH. specialize (Hquiet path content d). by rewrite Hcall in Hquiet.
Qed.

(** X19.  A failing [makeTempTarFiles] leaves the earlier files behind.
    Provided [utils.TempTarFile] itself removes nothing: when the call for
    some entry fails, the function returns no map, and the only removal it
    makes is that of the name the failing call returned, if that name is not
    empty; the files made for the entries before it are not removed. *)
Theorem makeTempTarFiles_leaks (data : list (string * rpc.bytes))
    (d d' : rpc.Disk) (r : option (gmap string string)) (e : rpc.failure) :
  (∀ path content d0,
     rpc.removals (TempTarFile path content d0).2 = rpc.removals d0) →
  rpc.makeTempTarFiles TempTarFile data d = ((r, Some e), d') →
  r = None
  ∧ ∃ made path content rest names d1,
      data = made ++ (path, content) :: rest
      ∧ rpc.tarred TempTarFile made d names d1
      ∧ (TempTarFile path content d1).1.2 = Some e
      ∧ rpc.removals d'
        = (if negb (String.eqb (TempTarFile path content d1).1.1 "")
           then [(TempTarFile path content d1).1.1] else [])
          ++ rpc.removals d.
Proof.
  intros Hquiet
    (-> & made & path & content & rest & names & d1 & -> & Hmade & He & ->)
    %makeTempTarFiles_range_Err.
  split; [done|]. exists made, path, content, rest, names, d1.
  split_and!; try done. simpl.
  pose proof (tarred_removals _ _ _ _ Hquiet Hmade) as Hr1.
  specialize (Hquiet path content d1).
  destruct (negb _).
  - destruct (os_RemoveAll_spec (TempTarFile path content d1).1.1
                (TempTarFile path content d1).2) as (_ & _ & ->).
    simpl. congruence.
  - simpl. congruence.
Qed.

Lemma toCoreDeployOptions_result dopt d :
  (rpc.toCoreDeployOptions TempTarFile dopt d).1 = rpc.Panicked
  ∨ (∃ e, (rpc.toCoreDeployOptions TempTarFile dopt d).1 = rpc.Returned (None, Some e))
  ∨ (∃ opts, (rpc.toCoreDeployOptions TempTarFile dopt d).1
             = rpc.Returned (Some opts, None)).
Proof.
  unfold rpc.toCoreDeployOptions. destruct dopt as [dep|]; [|by left].
  right. destruct (rpc.pbDeploy_Entrypoint dep) as [entrypoint|]; [|left; eauto].
  unfold rpc.makeTempTarFiles.
  destruct (makeTempTarFiles_range_result (rpc.pbDeploy_Data dep) ∅ d)
    as [[m Hm] | [e He]];
    destruct (rpc.makeTempTarFiles_range _ _ _ _) as [[tarFiles err] d']; simpl in *;
    simplify_eq; eauto.
Qed.

(** X20.  [toCoreReplaceOptions] never returns an error.  It dereferences
    the result of [toCoreDeployOptions] before it looks at the error: it
    panics exactly when [toCoreDeployOptions] panics or fails, and whenever
    it returns, the error it returns is nil.  In particular a request
    without entry point panics, with the disk untouched. *)
Theorem toCoreReplaceOptions_never_returns_error (r : rpc.pb_ReplaceOptions)
    (d : rpc.Disk) :
  (∀ ro err, (rpc.toCoreReplaceOptions TempTarFile r d).1 = rpc.Returned (ro, err) →
             err = None)
  ∧ ((rpc.toCoreReplaceOptions TempTarFile r d).1 = rpc.Panicked
     ↔ (rpc.toCoreDeployOptions TempTarFile (rpc.pbReplace_DeployOpt r) d).1
       = rpc.Panicked
       ∨ ∃ e, (rpc.toCoreDeployOptions TempTarFile (rpc.pbReplace_DeployOpt r) d).1
              = rpc.Returned (None, Some e))
  ∧ (∀ dep, rpc.pbReplace_DeployOpt r = Some dep →
            rpc.pbDeploy_Entrypoint dep = None →
            rpc.toCoreReplaceOptions TempTarFile r d = (rpc.Panicked, d)).
Proof.
  rewrite (and_assoc _ _ _). split.
  2: { intros dep Hdep Hentry. unfold rpc.toCoreReplaceOptions, rpc.toCoreDeployOptions.
       by rewrite Hdep, Hentry. }
  unfold rpc.toCoreReplaceOptions.
  destruct (toCoreDeployOptions_result (rpc.pbReplace_DeployOpt r) d)
    as [Hp | [[e He] | [opts Hopts]]];
    destruct (rpc.toCoreDeployOptions _ _ _) as [[[deployOpts err]|] d'];
    simpl in *; simplify_eq; split; try done.
  - split; [auto | done].
  - split; [eauto | done].
  - by intros ro err [= _ <-].
  - split; [done | intros [? | [e ?]]; done].
Qed.


Lemma makeTempTarFiles_range_Ok data tarFiles d m d' :
  rpc.makeTempTarFiles_range TempTarFile data tarFiles d = ((Some m, None), d') →
  ∃ names,
    rpc.tarred TempTarFile data d names d'
    ∧ names.*1 = data.*1
    ∧ m = foldl (λ acc pn, <[pn.1 := pn.2]> acc) tarFiles names.
Proof.
  revert tarFiles d. induction data as [|[path content] data IH]; intros tarFiles d; simpl.
  - intros [= <- <-]. exists []. split; [constructor | done].
  - destruct (TempTarFile path content d) as [[fname [err|]] d1] eqn:Hcall;
      [discriminate|].
    intros (names & Hnames & Hkeys & ->)%IH.
    exists ((path, fname) :: names). split; [by econstructor|].
    split; [rewrite !fmap_cons; by f_equal | done].
Qed.

Lemma foldl_insert_lookup (names : list (string * string)) (acc : gmap string string)
    (path fname : string) :
  foldl (λ acc pn, <[pn.1 := pn.2]> acc) acc names !! path = Some fname →
  (path, fname) ∈ names ∨ acc !! path = Some fname.
Proof.
  revert acc. induction names as [|[p f] names IH]; intros acc; simpl; [auto|].
  intros [Hin | Hacc]%IH; [left; by right|].
  destruct (decide (p = path)) as [->|Hne].
  - rewrite lookup_insert_eq in Hacc. injection Hacc as ->. left. by left.
  - rewrite lookup_insert_ne in Hacc by done. by right.
Qed.

Lemma foldl_insert_is_Some (names : list (string * string)) (acc : gmap string string)
    (path : string) :
  is_Some (foldl (λ acc pn, <[pn.1 := pn.2]> acc) acc names !! path)
  ↔ path ∈ names.*1 ∨ is_Some (acc !! path).
Proof.
  revert acc. induction names as [|[p f] names IH]; intros acc; simpl.
  - split; [auto | intros [Hin | ?]; [by apply elem_of_nil in Hin | done]].
  - rewrite IH, elem_of_cons.
    destruct (decide (p = path)) as [->|Hne].
    + rewrite lookup_insert_eq. split; [auto | intros _; right; eauto].
    + rewrite lookup_insert_ne by done. split; [tauto|].
      intros [[? | ?] | ?]; [congruence | auto..].
Qed.

(** X21.  What a successful [makeTempTarFiles] returns: every call to
    [utils.TempTarFile] succeeded, the map has an entry for exactly the
    paths of the data, and each entry is a name one of these calls returned
    for that path. *)
Theorem makeTempTarFiles_names_every_path (data : list (string * rpc.bytes))
    (d d' : rpc.Disk) (m : gmap string string) :
  rpc.makeTempTarFiles TempTarFile data d = ((Some m, None), d') →
  ∃ names,
    rpc.tarred TempTarFile data d names d'
    ∧ (∀ path, is_Some (m !! path) ↔ path ∈ data.*1)
    ∧ (∀ path fname, m !! path = Some fname → (path, fname) ∈ names).
Proof.
  intros (names & Hnames & Hkeys & ->)%makeTempTarFiles_range_Ok.
  exists names. split; [done|]. split.
  - intros path. rewrite foldl_insert_is_Some, Hkeys, lookup_empty.
    split; [intros [? | [? ?]]; done | auto].
  - intros path fname [Hin | Hempty]%foldl_insert_lookup; [done|].
    by rewrite lookup_empty in Hempty.
Qed.

End TempFiles.

(** ** Build options *)


Lemma missing_build_spec entries :
  missing_build entries = true ↔ ∃ stage, (stage, None) ∈ entries.
Proof.
  unfold missing_build. rewrite existsb_exists. split.
  - intros ([stage [p|]] & Hin & Hnone); [done|].
    exists stage. by apply list_elem_of_In.
  - intros [stage Hin]. exists (stage, None). split; [by apply list_elem_of_In | done].
Qed.


Lemma toCoreBuilds_range_spec entries builds :
  rpc.toCoreBuilds_range entries builds
  = if missing_build entries
    then (None, Some rpc.ErrNoBuildSpec)
    else (Some (foldl (λ acc sb, <[sb.1 := sb.2]> acc) builds (given_builds entries)),
          None).
Proof.
  revert builds. induction entries as [|[stage [p|]] entries IH]; intros builds; simpl.
  - done.
  - by rewrite IH.
  - done.
Qed.

(** X22.  When [toCoreBuildOptions] fails: exactly when builds are given
    and either no stage is listed ([ErrNoBuildsInSpec]) or, with stages
    listed, some stage of the map has no build ([ErrNoBuildSpec]); the
    options are nil exactly when an error is returned.  That the listed
    stages are those of the map is not checked. *)
Theorem toCoreBuildOptions_fails (b : rpc.pb_BuildImageOptions) (e : rpc.failure) :
  ((rpc.toCoreBuildOptions b).2 = Some e
   ↔ ∃ bs, rpc.pbImage_Builds b = Some bs
           ∧ (rpc.pbBuilds_Stages bs = [] ∧ e = rpc.ErrNoBuildsInSpec
              ∨ rpc.pbBuilds_Stages bs ≠ [] ∧ e = rpc.ErrNoBuildSpec
                ∧ ∃ stage, (stage, None) ∈ rpc.pbBuilds_Builds bs))
  ∧ ((rpc.toCoreBuildOptions b).1 = None ↔ is_Some (rpc.toCoreBuildOptions b).2).
Proof.
  unfold rpc.toCoreBuildOptions.
  destruct (rpc.pbImage_Builds b) as [bs|].
  2: { simpl. split; [|split; [done | by intros [? ?]]].
       split; [done | by intros (bs & ? & _)]. }
  destruct (rpc.pbBuilds_Stages bs) as [|stage0 stages] eqn:Hstages; simpl.
  { split; [|split; [eauto | done]]. split.
    - intros [= <-]. exists bs. split; [done|]. left. by rewrite Hstages.
    - intros (bs' & [= <-] & [[_ ->] | [Hne _]]); [done|]. by rewrite Hstages in Hne. }
  rewrite toCoreBuilds_range_spec.
  destruct (missing_build (rpc.pbBuilds_Builds bs)) eqn:Hany; simpl.
  - apply missing_build_spec in Hany.
    split; [|split; [eauto | done]]. split.
    + intros [= <-]. exists bs. split; [done|]. right. by rewrite Hstages.
    + intros (bs' & [= <-] & [[Hnil _] | (_ & -> & _)]); [|done].
      by rewrite Hstages in Hnil.
  - split; [|split; [done | by intros [? ?]]]. split; [done|].
    intros (bs' & [= <-] & [[Hnil _] | (_ & _ & Hnone)]).
    + by rewrite Hstages in Hnil.
    + apply missing_build_spec in Hnone. congruence.
Qed.

Lemma foldl_insert_list_to_map {V} (l : list (string * V)) (acc : gmap string V) :
  NoDup l.*1 →
  foldl (λ acc sb, <[sb.1 := sb.2]> acc) acc l = list_to_map l ∪ acc.
Proof.
  revert acc. induction l as [|[s v] l IH]; intros acc Hnd; simpl.
  - by rewrite (left_id_L ∅ (∪)).
  - apply NoDup_cons in Hnd as [Hfresh Hnd]. rewrite IH by done.
    rewrite <- insert_union_r by by apply not_elem_of_list_to_map_1.
    by rewrite insert_union_l.
Qed.

Lemma given_builds_keys entries : (given_builds entries).*1 `sublist_of` entries.*1.
Proof.
  induction entries as [|[stage [p|]] entries IH]; simpl.
  - done.
  - unfold given_builds. simpl. by apply sublist_skip.
  - unfold given_builds. simpl. by apply sublist_cons.
Qed.

Lemma given_builds_NoDup entries : NoDup entries.*1 → NoDup (given_builds entries).*1.
Proof. intros Hnd. exact (sublist_NoDup _ _ Hnd (given_builds_keys entries)). Qed.

(** X23.  The result of [toCoreBuildOptions], options and error, does not
    depend on the order in which the runtime ranges over the map of
    builds. *)
Theorem toCoreBuildOptions_any_order (name user : string) (uid : Z)
    (tags stages : list string) (tar : rpc.bytes)
    (entries entries' : list (string * option rpc.pb_Build)) :
  NoDup entries.*1 →
  entries ≡ₚ entries' →
  rpc.toCoreBuildOptions
    (rpc.mk_pb_BuildImageOptions name user uid tags
       (Some (rpc.mk_pb_Builds stages entries)) tar)
  = rpc.toCoreBuildOptions
      (rpc.mk_pb_BuildImageOptions name user uid tags
         (Some (rpc.mk_pb_Builds stages entries')) tar).
Proof.
  intros Hnd Hperm. unfold rpc.toCoreBuildOptions. simpl.
  destruct (length stages =? 0)%nat; [done|].
  rewrite !toCoreBuilds_range_spec.
  assert (missing_build entries = missing_build entries') as <-.
  { apply eq_true_iff_eq. rewrite !missing_build_spec. by setoid_rewrite Hperm. }
  destruct (missing_build entries); [done|].
  assert (NoDup entries'.*1) as Hnd' by by rewrite <- Hperm.
  rewrite !foldl_insert_list_to_map by by apply given_builds_NoDup.
  do 6 f_equal.
  apply list_to_map_proper; [by apply given_builds_NoDup|].
  unfold given_builds. by rewrite Hperm.
Qed.


Lemma makeTempTarFiles_leaks_witness :
  rpc.makeTempTarFiles Samples.TempTarFile Samples.data Samples.empty_disk
  = ((None, Some (rpc.ErrTempTarFile "empty.conf")),
     rpc.mkDisk {[ "/tmp/app.conf.tar" ]} [] ["/tmp/empty.conf.tar"])
  ∧ ∃ made path content rest names d1,
      Samples.data = made ++ (path, content) :: rest
      ∧ rpc.tarred Samples.TempTarFile made Samples.empty_disk names d1
      ∧ (Samples.TempTarFile path content d1).1.2
        = Some (rpc.ErrTempTarFile "empty.conf")
      ∧ rpc.removals (rpc.mkDisk {[ "/tmp/app.conf.tar" ]} [] ["/tmp/empty.conf.tar"])
        = (if negb (String.eqb (Samples.TempTarFile path content d1).1.1 "")
           then [(Samples.TempTarFile path content d1).1.1] else [])
          ++ rpc.removals Samples.empty_disk.
Proof.
  assert (rpc.makeTempTarFiles Samples.TempTarFile Samples.data Samples.empty_disk
          = ((None, Some (rpc.ErrTempTarFile "empty.conf")),
             rpc.mkDisk {[ "/tmp/app.conf.tar" ]} [] ["/tmp/empty.conf.tar"])) as Hrun
    by (vm_compute; reflexivity).
  split; [exact Hrun|].
  refine (proj2 (makeTempTarFiles_leaks Samples.TempTarFile Samples.data
                   Samples.empty_disk _ _ _ _ Hrun)).
  intros path [|c content] d0; reflexivity.
Defined.

Lemma toCoreBuildOptions_any_order_witness :
  NoDup [("base", Some Samples.base_build); ("final", Some Samples.final_build)].*1
  ∧ [("base", Some Samples.base_build); ("final", Some Samples.final_build)]
    ≡ₚ [("final", Some Samples.final_build); ("base", Some Samples.base_build)]
  ∧ rpc.toCoreBuildOptions
      (rpc.mk_pb_BuildImageOptions "app" "root" 0 ["latest"]
         (Some (rpc.mk_pb_Builds ["base"; "final"]
                  [("base", Some Samples.base_build);
                   ("final", Some Samples.final_build)])) [])
    = rpc.toCoreBuildOptions
        (rpc.mk_pb_BuildImageOptions "app" "root" 0 ["latest"]
           (Some (rpc.mk_pb_Builds ["base"; "final"]
                    [("final", Some Samples.final_build);
                     ("base", Some Samples.base_build)])) []).
Proof.
  assert (NoDup [("base", Some Samples.base_build);
                 ("final", Some Samples.final_build)].*1) as Hnd.
  { simpl. apply NoDup_cons. split; [|apply NoDup_singleton].
    intros Hin. apply list_elem_of_singleton in Hin. discriminate. }
  assert ([("base", Some Samples.base_build); ("final", Some Samples.final_build)]
          ≡ₚ [("final", Some Samples.final_build); ("base", Some Samples.base_build)])
    as Hperm by apply perm_swap.
  split_and!; [exact Hnd | exact Hperm |].
  exact (toCoreBuildOptions_any_order "app" "root" 0 ["latest"] ["base"; "final"] []
           _ _ Hnd Hperm).
Defined.

Lemma makeTempTarFiles_names_every_path_witness :
  rpc.makeTempTarFiles Samples.TempTarFile [("app.conf", [Byte.x61])] Samples.empty_disk
  = ((Some {[ "app.conf" := "/tmp/app.conf.tar" ]}, None),
     rpc.mkDisk {[ "/tmp/app.conf.tar" ]} [] [])
  ∧ ∃ names,
      rpc.tarred Samples.TempTarFile [("app.conf", [Byte.x61])] Samples.empty_disk
        names (rpc.mkDisk {[ "/tmp/app.conf.tar" ]} [] [])
      ∧ (∀ path, is_Some (({[ "app.conf" := "/tmp/app.conf.tar" ]} : gmap string string)
                            !! path)
                 ↔ path ∈ [("app.conf", [Byte.x61])].*1)
      ∧ (∀ path fname,
           ({[ "app.conf" := "/tmp/app.conf.tar" ]} : gmap string string) !! path
           = Some fname → (path, fname) ∈ names).
Proof.
  assert (rpc.makeTempTarFiles Samples.TempTarFile [("app.conf", [Byte.x61])]
            Samples.empty_disk
          = ((Some {[ "app.conf" := "/tmp/app.conf.tar" ]}, None),
             rpc.mkDisk {[ "/tmp/app.conf.tar" ]} [] [])) as Hrun
    by (vm_compute; reflexivity).
  split; [exact Hrun|].
  exact (makeTempTarFiles_names_every_path Samples.TempTarFile _ _ _ _ Hrun).
Defined.
